(** * grammarkdown: the checker, the resolver and the right-hand-side digest

    A shallow embedding of [src/lib/core.ts] (the [Dictionary] container) and
    of [src/lib/checker.ts] (the classes [Checker], [Resolver] and
    [RightHandSideDigest]), followed by the properties proved about them.

    Conventions of the embedding.
    - A JavaScript object used as a map is a finite map of its own
      properties together with its prototype chain; property keys are
      strings (a number or [undefined] used as a key is converted first, as
      the language does).
    - A field that the TypeScript code tests for absence somewhere is an
      [option]; reading a property of an absent value raises [TypeError], as
      it does at run time.  Arrays are dense lists.
    - Methods of [Checker] are state transformers over the fields of the
      class that may complete abruptly (an exception); the state reached
      when the exception is raised is kept, since nothing is rolled back. *)

From Stdlib Require Import ZArith String Ascii List Bool Lia.
From stdpp Require Import base option list gmap strings fin_maps pretty sorting.

Local Open Scope string_scope.
Local Open Scope list_scope.

(** ** JavaScript objects, as far as [Dictionary] relies on them *)

Module Js.

(** A member found on a prototype object: all this program can observe of
    it is whether [for ... in] lists it and whether an assignment through
    an inheriting object may shadow it. *)
Record Member := { enumerable : bool; writable : bool }.

(** A prototype chain: [null], or an object with members and a parent. *)
Inductive Prototype :=
| Null
| Proto (members : gmap string Member) (parent : Prototype).

(** The result of reading [object[key]]: a value stored by the program,
    a built-in member inherited from a prototype, or [undefined]. *)
Inductive Value (T : Type) :=
| Undefined
| Data (v : T)
| Inherited (m : Member).
Arguments Undefined {T}.
Arguments Data {T} v.
Arguments Inherited {T} m.

(** An object: its own properties (created by assignment, hence
    enumerable and writable) and its prototype. *)
Record Object (T : Type) := { own : gmap string T; prototype : Prototype }.
Arguments own {T} _.
Arguments prototype {T} _.

Fixpoint findMember (p : Prototype) (key : string) : option Member :=
  match p with
  | Null => None
  | Proto members parent =>
      match members !! key with
      | Some m => Some m
      | None => findMember parent key
      end
  end.

(** [Object.prototype.hasOwnProperty.call(object, key)] *)
Definition hasOwnProperty {T} (o : Object T) (key : string) : bool :=
  bool_decide (is_Some (own o !! key)).

(** [key in object] *)
Definition hasProperty {T} (o : Object T) (key : string) : bool :=
  hasOwnProperty o key || bool_decide (is_Some (findMember (prototype o) key)).

(** [object[key]] *)
Definition get {T} (o : Object T) (key : string) : Value T :=
  match own o !! key with
  | Some v => Data v
  | None =>
      match findMember (prototype o) key with
      | Some m => Inherited m
      | None => Undefined
      end
  end.

(** [object[key] = value] on an extensible object: an own property is
    overwritten; otherwise the property is created unless the chain holds
    a member of that name that is not writable, in which case the
    assignment is rejected and the object stays as it was. *)
Definition set {T} (o : Object T) (key : string) (v : T) : Object T :=
  match own o !! key with
  | Some _ => {| own := <[key := v]> (own o); prototype := prototype o |}
  | None =>
      match findMember (prototype o) key with
      | Some m =>
          if writable m
          then {| own := <[key := v]> (own o); prototype := prototype o |}
          else o
      | None => {| own := <[key := v]> (own o); prototype := prototype o |}
      end
  end.

(** The enumerable member names of a chain, nearest object first; a name
    already met on a nearer object shadows the farther ones. *)
Fixpoint enumerableKeys (p : Prototype) (seen : gset string) : list string :=
  match p with
  | Null => []
  | Proto members parent =>
      (filter (λ key, key ∉ seen)
              (map_to_list (filter (λ kv, enumerable kv.2 = true) members)).*1)
      ++ enumerableKeys parent (seen ∪ dom members)
  end.

(** The keys visited by [for (const key in object)]: the own properties,
    then the enumerable inherited ones.  The order among the own keys is
    that of [map_to_list], not that of the host (the keys that are array
    indices in ascending order, then the others in the order in which they
    were created): an object is modelled by its entries alone, and the
    properties below speak of the keys visited and of what [has] and [get]
    answer, never of the order of the keys. *)
Definition forIn {T} (o : Object T) : list string :=
  (map_to_list (own o)).*1 ++ enumerableKeys (prototype o) (dom (own o)).

(** [Object.create(null)], then [Object.freeze]: no member, no parent. *)
Definition createNull : Prototype := Null.

(** [Object.prototype] of the host, for comparison: the members that
    [createEmptyPrototype] lists, none of them enumerable. *)
Definition objectPrototype : Prototype :=
  Proto (list_to_map
           (map (λ name, (name, {| enumerable := false; writable := true |}))
                ["constructor"; "toString"; "toLocaleString"; "valueOf";
                 "hasOwnProperty"; "isPrototypeOf"; "propertyIsEnumerable"]))
        Null.

(** Conversion of a key that is not a string. *)
Definition keyOfNumber (n : N) : string := pretty n.
Definition keyOfText (text : option string) : string :=
  match text with
  | Some s => s
  | None => "undefined"
  end.

End Js.

(** ** [Dictionary] (core.ts) *)

Module Dictionary.

(** [createEmptyPrototype()]: the host has [Object.create], so the result
    is the frozen object without prototype and without members. *)
Definition createEmptyPrototype : Js.Prototype := Js.createNull.

(** [Dictionary.prototype = createEmptyPrototype()] *)
Definition prototype : Js.Prototype := createEmptyPrototype.

(** An instance of the class: an object whose prototype is
    [Dictionary.prototype]. *)
Record t (T : Type) := { props : gmap string T }.
Arguments props {T} _.

Definition toObject {T} (d : t T) : Js.Object T :=
  {| Js.own := props d; Js.prototype := prototype |}.
Definition ofObject {T} (o : Js.Object T) : t T := {| props := Js.own o |}.

Definition has {T} (object : t T) (key : string) : bool :=
  Js.hasOwnProperty (toObject object) key.

Definition get {T} (object : t T) (key : string) : Js.Value T :=
  if has object key then Js.get (toObject object) key else Js.Undefined.

Definition set {T} (object : t T) (key : string) (value : T) : t T :=
  ofObject (Js.set (toObject object) key value).

(** The loop header shared by the enumerating methods:
    [for (const key in object) if (Dictionary.has(object, key)) ...]. *)
Definition ownKeys {T} (object : t T) : list string :=
  filter (λ key, has object key = true) (Js.forIn (toObject object)).

(** [new Dictionary(object?)] *)
Definition new {T} (object : option (t T)) : t T :=
  match object with
  | None => {| props := ∅ |}
  | Some object =>
      foldl (λ this key,
               match Js.get (toObject object) key with
               | Js.Data v => set this key v
               | _ => this
               end)
            {| props := ∅ |} (ownKeys object)
  end.

Definition forEach {T A} (object : t T) (callbackfn : A → T → string → A) (a : A) : A :=
  foldl (λ a key,
           match Js.get (toObject object) key with
           | Js.Data value => callbackfn a value key
           | _ => a
           end)
        a (ownKeys object).

Definition keys {T} (dict : t T) : list string :=
  foldl (λ result key, result ++ [key]) [] (ownKeys dict).

Definition values {T} (dict : t T) : list (Js.Value T) :=
  foldl (λ result key, result ++ [get dict key]) [] (ownKeys dict).

Definition entries {T} (dict : t T) : list (string * Js.Value T) :=
  foldl (λ result key, result ++ [(key, get dict key)]) [] (ownKeys dict).

(** *** The other static methods

    A callback is a function of the value it is called on ([this], the
    first argument of [call]) and of its arguments; callbacks that change
    the dictionaries at hand while these are enumerated are not modelled,
    nor is a source that is the target itself. *)

(** The value of the own property [key], inside the guard by [has]; there
    is always one. *)
Definition valueAt {T} (object : t T) (key : string) : option T :=
  match Js.get (toObject object) key with
  | Js.Data value => Some value
  | _ => None
  end.

(** A loop [for (const key in object) if (Dictionary.has(object, key)) ...]
    whose body may [return]: the result of the first body that returns. *)
Fixpoint firstReturn {R} (body : string → option R) (keys : list string) : option R :=
  match keys with
  | [] => None
  | key :: keys =>
      match body key with
      | Some result => Some result
      | None => firstReturn body keys
      end
  end.

Definition assignFrom {T} (target source : t T) : t T :=
  foldl (λ target key,
           match get source key with
           | Js.Data value => set target key value
           | _ => target
           end)
        target (ownKeys source).

Definition assign {T} (target : t T) (sources : list (t T)) : t T :=
  foldl assignFrom target sources.

Definition mergeFrom {T} (target source : t T) : t T :=
  foldl (λ target key,
           if negb (has target key)
           then match get source key with
                | Js.Data value => set target key value
                | _ => target
                end
           else target)
        target (ownKeys source).

Definition merge {T} (target : t T) (sources : list (t T)) : t T :=
  foldl mergeFrom target sources.

Definition map {T U This} (object : t T) (callbackfn : This → T → string → t T → U)
    (thisArg : This) : t U :=
  foldl (λ newObject key,
           match valueAt object key with
           | Some value => set newObject key (callbackfn thisArg value key object)
           | None => newObject
           end)
        (new None) (ownKeys object).

Definition mapPairs {T U This} (object : t T)
    (callbackfn : This → T → string → t T → string * U) (thisArg : This) : t U :=
  foldl (λ newObject key,
           match valueAt object key with
           | Some value =>
               let '(mappedKey, mappedValue) := callbackfn thisArg value key object in
               set newObject mappedKey mappedValue
           | None => newObject
           end)
        (new None) (ownKeys object).

Definition filter {T This} (object : t T) (callbackfn : This → T → string → t T → bool)
    (thisArg : This) : t T :=
  foldl (λ newObject key,
           match valueAt object key with
           | Some value =>
               if callbackfn thisArg value key object
               then set newObject key value
               else newObject
           | None => newObject
           end)
        (new None) (ownKeys object).

Definition some {T This} (object : t T)
    (callbackfn : option (This → T → string → t T → bool)) (thisArg : This) : bool :=
  default false
    (firstReturn (λ key,
                    value ← valueAt object key;
                    match callbackfn with
                    | None => Some true
                    | Some callbackfn =>
                        if callbackfn thisArg value key object then Some true else None
                    end)
                 (ownKeys object)).

(** The local variable [any] is threaded through the loop. *)
Fixpoint everyLoop {T This} (object : t T) (callbackfn : This → T → string → t T → bool)
    (thisArg : This) (any : bool) (keys : list string) : bool :=
  match keys with
  | [] => any
  | key :: keys =>
      match valueAt object key with
      | Some value =>
          if negb (callbackfn thisArg value key object) then false
          else everyLoop object callbackfn thisArg true keys
      | None => everyLoop object callbackfn thisArg any keys
      end
  end.

Definition every {T This} (object : t T) (callbackfn : This → T → string → t T → bool)
    (thisArg : This) : bool :=
  everyLoop object callbackfn thisArg false (ownKeys object).

(** [callbackfn.call(value, key, object)]: the callback is called on the
    value, with the key and the dictionary as its first two arguments; the
    argument [thisArg] is not used. *)
Definition find {T} (object : t T) (callbackfn : T → string → t T → bool) : Js.Value T :=
  match firstReturn (λ key,
                       value ← valueAt object key;
                       if callbackfn value key object then Some value else None)
                    (ownKeys object) with
  | Some value => Js.Data value
  | None => Js.Undefined
  end.

Definition findKey {T} (object : t T) (callbackfn : T → string → t T → bool)
    : option string :=
  firstReturn (λ key,
                 value ← valueAt object key;
                 if callbackfn value key object then Some key else None)
              (ownKeys object).

(** [object[key] === value], on values that are compared by what they are
    (the equality of [T]). *)
Definition keyOf {T} `{EqDecision T} (object : t T) (value : T) : option string :=
  firstReturn (λ key, if bool_decide (valueAt object key = Some value) then Some key else None)
              (ownKeys object).

Definition includes {T} `{EqDecision T} (object : t T) (value : T) : bool :=
  default false
    (firstReturn (λ key,
                    if bool_decide (valueAt object key = Some value) then Some true else None)
                 (ownKeys object)).

Definition reduce {T U} (object : t T) (callbackfn : U → T → string → t T → U)
    (initialValue : U) : U :=
  foldl (λ aggregate key,
           match valueAt object key with
           | Some value => callbackfn aggregate value key object
           | None => aggregate
           end)
        initialValue (ownKeys object).

(** [String(value)] is the conversion [toText] of the values. *)
Definition invert {T} (toText : T → string) (dict : t T) : t string :=
  foldl (λ inverted key,
           match get dict key with
           | Js.Data value => set inverted (toText value) key
           | _ => inverted
           end)
        (new None) (ownKeys dict).

End Dictionary.

(** ** [binarySearch] (core.ts)

    Numbers are integers here, which is what the arrays searched hold
    (offsets); the operators [>>] and [~] work on the 32-bit value of their
    operand. *)

(** The signed 32-bit integer that a number is converted to. *)
Definition toInt32 (z : Z) : Z :=
  let m := (z mod 2 ^ 32)%Z in
  if (m <? 2 ^ 31)%Z then m else (m - 2 ^ 32)%Z.

(** [array[index]]: [undefined] outside of the array. *)
Definition elementAt (array : list Z) (index : Z) : option Z :=
  if (index <? 0)%Z then None else array !! Z.to_nat index.

(** The loop of [binarySearch], unrolled at most [fuel] times. *)
Fixpoint binarySearchLoop (fuel : nat) (array : list Z) (value low high : Z) : option Z :=
  match fuel with
  | O => None
  | S fuel =>
      if (low <=? high)%Z then
        let middle := (low + Z.shiftr (toInt32 (high - low)) 1)%Z in
        match elementAt array middle with
        | Some midValue =>
            if (midValue =? value)%Z then Some middle
            else if (midValue >? value)%Z
                 then binarySearchLoop fuel array value low (middle - 1)
                 else binarySearchLoop fuel array value (middle + 1) high
        | None =>
            (* [undefined] is neither equal to nor greater than a number *)
            binarySearchLoop fuel array value (middle + 1) high
        end
      else Some (Z.lnot (toInt32 low))
  end.

(** One turn of the loop takes an element out of the interval, so that the
    length of the array and one turn more are enough ([None] when they are
    not). *)
Definition binarySearch (array : list Z) (value : Z) : option Z :=
  binarySearchLoop (S (length array)) array value 0 (Z.of_nat (length array) - 1).

(** ** [compare] and [compareStrings] (core.ts) *)

(** The operands that [compareStrings] passes on: a string, [undefined] or
    [null]. *)
Inductive Operand :=
| OpUndefined
| OpNull
| OpText (text : string).

Global Instance Operand_eq_dec : EqDecision Operand.
Proof. solve_decision. Defined.

(** [x < y] on strings: the order of the dictionary on the codes of the
    characters.  For ASCII texts these are the code units that the host
    compares; a text with other characters is held as its UTF-8 bytes,
    whose order is that of the code points, which differs from the order
    of the UTF-16 code units for the characters from U+E000 on. *)
Fixpoint textLess (x y : string) : bool :=
  match x, y with
  | EmptyString, EmptyString => false
  | EmptyString, String _ _ => true
  | String _ _, EmptyString => false
  | String a x, String b y =>
      if (nat_of_ascii a <? nat_of_ascii b)%nat then true
      else if (nat_of_ascii b <? nat_of_ascii a)%nat then false
      else textLess x y
  end.

Definition compare (x y : Operand) : Z :=
  if bool_decide (x = y) then 0%Z
  else
    match x, y with
    | (OpUndefined | OpNull), _ => (-1)%Z
    | _, (OpUndefined | OpNull) => 1%Z
    | OpText x, OpText y =>
        if textLess x y then (-1)%Z
        else if textLess y x then 1%Z
        else 0%Z
    end.

Section CompareStrings.

(** [String.prototype.toLocaleLowerCase] is the host's. *)
Variable toLocaleLowerCase : string → string.

(** [x && x.toLocaleLowerCase()] *)
Definition lowered (x : Operand) : Operand :=
  match x with
  | OpText EmptyString => x
  | OpText text => OpText (toLocaleLowerCase text)
  | _ => x
  end.

Definition compareStrings (x y : Operand) (ignoreCase : bool) : Z :=
  if ignoreCase then compare (lowered x) (lowered y) else compare x y.

End CompareStrings.

(** ** [Position] and [Range] (core.ts) *)

Module Position.

Record t := { line : Z; character : Z }.

Definition create (line character : Z) : t := {| line := line; character := character |}.

Definition clone (position : t) : t := create (line position) (character position).

Definition compare (left right : t) : Z :=
  if (line left <? line right)%Z then (-1)%Z
  else if (line left >? line right)%Z then 1%Z
  else if (character left <? character right)%Z then (-1)%Z
  else if (character left >? character right)%Z then 1%Z
  else 0%Z.

Definition equals (left right : t) : bool :=
  (line left =? line right)%Z && (character left =? character right)%Z.

End Position.

Module Range.

Record t := { start : Position.t; end_ : Position.t }.

Definition create (start end_ : Position.t) : t := {| start := start; end_ := end_ |}.

Definition clone (range : t) : t :=
  create (Position.clone (start range)) (Position.clone (end_ range)).

Definition collapseToStart (range : t) : t := create (start range) (start range).

Definition collapseToEnd (range : t) : t := create (end_ range) (end_ range).

Definition isCollapsed (range : t) : bool :=
  (Position.compare (start range) (end_ range) >=? 0)%Z.

Definition contains (left right : t) : bool :=
  (Position.compare (start left) (start right) <=? 0)%Z
  && (Position.compare (end_ left) (end_ right) >=? 0)%Z.

Definition containsPosition (range : t) (position : Position.t) : bool :=
  (Position.compare (start range) position <=? 0)%Z
  && (Position.compare (end_ range) position >=? 0)%Z.

Definition intersects (left right : t) : bool :=
  containsPosition left (start right) || containsPosition left (end_ right).

Definition equals (left right : t) : bool :=
  Position.equals (start left) (start right) && Position.equals (end_ left) (end_ right).

End Range.

(** The order of positions: by line, then by character. *)
Definition positionLe (p q : Position.t) : Prop :=
  (Position.line p < Position.line q)%Z
  ∨ (Position.line p = Position.line q ∧ Position.character p <= Position.character q)%Z.

(** A range whose start is not after its end. *)
Definition wellFormed (a : Range.t) : Prop := positionLe (Range.start a) (Range.end_ a).

(** ** Syntax kinds and diagnostic messages (tokens.ts, diagnostics.ts)

    Only the members that checker.ts names are listed. *)

Module SyntaxKind.

Inductive t :=
| Unknown
(* tokens *)
| LineTerminatorToken | IndentToken | DedentToken
| AtToken | OpenBraceToken | CloseBraceToken | OpenBracketToken
| OpenBracketGreaterThanToken | CloseBracketToken | OpenParenToken
| CloseParenToken | ColonToken | PlusToken | TildeToken | QuestionToken
| EqualsEqualsToken | ExclamationEqualsToken | LessThanExclamationToken
| LessThanMinusToken
(* keywords *)
| ButKeyword | DefineKeyword | EmptyKeyword | FalseKeyword | GoalKeyword
| HereKeyword | LexicalKeyword | LookaheadKeyword | NoKeyword | NotKeyword
| OfKeyword | OneKeyword | ThroughKeyword | TrueKeyword
(* literals *)
| Identifier | Terminal | UnicodeCharacterLiteral
| ProseFull | ProseHead | ProseMiddle | ProseTail
(* nodes *)
| SourceFile | Define | Production | Parameter_ | ParameterList
| OneOfList | RightHandSideList | RightHandSide | LinkReference
| SymbolSpan | SymbolSet | Prose
| EmptyAssertion | LookaheadAssertion | LexicalGoalAssertion
| NoSymbolHereAssertion | ParameterValueAssertion | ProseAssertion
| InvalidAssertion
| ButNotSymbol | OneOfSymbol | UnicodeCharacterRange | Nonterminal
| ArgumentList | Argument
| InvalidSymbol | InvalidSourceElement.

Global Instance eq_dec : EqDecision t.
Proof. solve_decision. Defined.

End SyntaxKind.

Inductive SymbolKind := SymbolKind_Production | SymbolKind_Parameter.

Global Instance SymbolKind_eq_dec : EqDecision SymbolKind.
Proof. solve_decision. Defined.

(** The message templates of [Diagnostics] that the checker reports. *)
Inductive Diagnostic :=
| Cannot_find_name_0_
| _0_expected
| Production_0_is_missing_parameter_1_All_definitions_of_production_0_must_specify_the_same_formal_parameters
| Obsolete_0_
| Duplicate_terminal_0_
| Unexpected_token_0_
| Argument_0_cannot_be_specified_multiple_times
| Production_0_does_not_have_a_parameter_named_1_
| There_is_no_argument_given_for_parameter_0_
| Duplicate_identifier_0_.

Global Instance Diagnostic_eq_dec : EqDecision Diagnostic.
Proof. solve_decision. Defined.

(** ** Syntax nodes (nodes.ts), with the fields that checker.ts reads

    Every node has an [id] and a text range ([TextRange] of core.ts); the
    kind of a node follows from its class, except for tokens and prose
    literals, which carry it. *)

Record NodeInfo := { id : N; pos : Z; end_ : Z }.

Record Token := { tk_kind : SyntaxKind.t; tk_info : NodeInfo }.

Record Identifier := { id_info : NodeInfo; id_text : option string }.

Record Parameter_ := { pa_info : NodeInfo; pa_name : option Identifier }.

Record ParameterList := {
  pl_info : NodeInfo;
  pl_openParenToken : option Token;
  pl_elements : option (list Parameter_);
  pl_closeParenToken : option Token }.

Record Argument := {
  ar_info : NodeInfo;
  ar_operatorToken : option Token;
  ar_name : Identifier }.

Record ArgumentList := {
  al_info : NodeInfo;
  al_openParenToken : option Token;
  al_elements : option (list Argument);
  al_closeParenToken : option Token }.

Record Nonterminal := {
  nt_info : NodeInfo;
  nt_name : option Identifier;
  nt_argumentList : option ArgumentList;
  nt_questionToken : option Token }.

Record Terminal := {
  te_info : NodeInfo;
  te_text : option string;
  te_questionToken : option Token }.

Record UnicodeCharacterLiteral := {
  uc_info : NodeInfo;
  uc_text : option string;
  uc_questionToken : option Token }.

Record ProseFragmentLiteral := {
  pf_kind : SyntaxKind.t;              (* ProseFull, ProseHead, ProseMiddle or ProseTail *)
  pf_info : NodeInfo;
  pf_text : option string }.

(** A fragment of a prose span or of a prose assertion. *)
Inductive ProseFragment :=
| FragmentNonterminal (n : Nonterminal)
| FragmentTerminal (t : Terminal)
| FragmentLiteral (l : ProseFragmentLiteral)
| FragmentIdentifier (i : Identifier).

(** The brackets that every assertion has. *)
Record AssertionBrackets := {
  as_info : NodeInfo;
  as_openBracketToken : option Token;
  as_closeBracketToken : option Token }.

(** The symbols of a right-hand side.  [LexicalSymbol] is the union that the
    checker dispatches on by [kind]; a symbol span chains symbols through
    [next]; a lookahead assertion holds a symbol set or a symbol span. *)
Local Unset Elimination Schemes.

Inductive LexicalSymbol :=
| SymTerminal (t : Terminal)
| SymUnicodeCharacterLiteral (u : UnicodeCharacterLiteral)
| SymUnicodeCharacterRange (info : NodeInfo)
    (left : option UnicodeCharacterLiteral) (throughKeyword : option Token)
    (right : option UnicodeCharacterLiteral)
| SymNonterminal (n : Nonterminal)
| SymPlaceholder (info : NodeInfo)                  (* kind AtToken *)
| SymInvalid (info : NodeInfo)                      (* kind InvalidSymbol *)
| SymButNot (info : NodeInfo)
    (left : LexicalSymbol) (butKeyword notKeyword : option Token)
    (right : option LexicalSymbol)
| SymOneOf (info : NodeInfo)
    (oneKeyword ofKeyword : option Token) (symbols : option (list LexicalSymbol))
| SymProse (info : NodeInfo) (fragments : list ProseFragment)
| SymEmptyAssertion (b : AssertionBrackets) (emptyKeyword : option Token)
| SymLookaheadAssertion (b : AssertionBrackets)
    (lookaheadKeyword operatorToken : option Token) (lookahead : option Lookahead)
| SymLexicalGoalAssertion (b : AssertionBrackets)
    (lexicalKeyword goalKeyword : option Token) (symbol : option Identifier)
| SymNoSymbolHereAssertion (b : AssertionBrackets)
    (noKeyword : option Token) (symbols : option (list LexicalSymbol))
    (hereKeyword : option Token)
| SymParameterValueAssertion (b : AssertionBrackets)
    (operatorToken : option Token) (name : option Identifier)
| SymProseAssertion (b : AssertionBrackets) (fragments : list ProseFragment)
| SymInvalidAssertion (b : AssertionBrackets)
with SymbolSpan :=
| MkSymbolSpan (info : NodeInfo) (symbol : option LexicalSymbol) (next : option SymbolSpan)
with Lookahead :=
| LookaheadSet (info : NodeInfo)
    (openBraceToken : option Token) (elements : option (list SymbolSpan))
    (closeBraceToken : option Token)
| LookaheadSpan (span : SymbolSpan).

Local Set Elimination Schemes.

Definition kindOfSymbol (node : LexicalSymbol) : SyntaxKind.t :=
  match node with
  | SymTerminal _ => SyntaxKind.Terminal
  | SymUnicodeCharacterLiteral _ => SyntaxKind.UnicodeCharacterLiteral
  | SymUnicodeCharacterRange _ _ _ _ => SyntaxKind.UnicodeCharacterRange
  | SymNonterminal _ => SyntaxKind.Nonterminal
  | SymPlaceholder _ => SyntaxKind.AtToken
  | SymInvalid _ => SyntaxKind.InvalidSymbol
  | SymButNot _ _ _ _ _ => SyntaxKind.ButNotSymbol
  | SymOneOf _ _ _ _ => SyntaxKind.OneOfSymbol
  | SymProse _ _ => SyntaxKind.Prose
  | SymEmptyAssertion _ _ => SyntaxKind.EmptyAssertion
  | SymLookaheadAssertion _ _ _ _ => SyntaxKind.LookaheadAssertion
  | SymLexicalGoalAssertion _ _ _ _ => SyntaxKind.LexicalGoalAssertion
  | SymNoSymbolHereAssertion _ _ _ _ => SyntaxKind.NoSymbolHereAssertion
  | SymParameterValueAssertion _ _ _ => SyntaxKind.ParameterValueAssertion
  | SymProseAssertion _ _ => SyntaxKind.ProseAssertion
  | SymInvalidAssertion _ => SyntaxKind.InvalidAssertion
  end.

Definition infoOfSymbol (node : LexicalSymbol) : NodeInfo :=
  match node with
  | SymTerminal t => te_info t
  | SymUnicodeCharacterLiteral u => uc_info u
  | SymUnicodeCharacterRange info _ _ _ => info
  | SymNonterminal n => nt_info n
  | SymPlaceholder info => info
  | SymInvalid info => info
  | SymButNot info _ _ _ _ => info
  | SymOneOf info _ _ _ => info
  | SymProse info _ => info
  | SymEmptyAssertion b _ => as_info b
  | SymLookaheadAssertion b _ _ _ => as_info b
  | SymLexicalGoalAssertion b _ _ _ => as_info b
  | SymNoSymbolHereAssertion b _ _ _ => as_info b
  | SymParameterValueAssertion b _ _ => as_info b
  | SymProseAssertion b _ => as_info b
  | SymInvalidAssertion b => as_info b
  end.

Definition ss_info (s : SymbolSpan) : NodeInfo := let 'MkSymbolSpan i _ _ := s in i.
Definition ss_symbol (s : SymbolSpan) : option LexicalSymbol := let 'MkSymbolSpan _ y _ := s in y.
Definition ss_next (s : SymbolSpan) : option SymbolSpan := let 'MkSymbolSpan _ _ n := s in n.

Record LinkReference := { lr_info : NodeInfo; lr_text : option string }.

Record RightHandSide := {
  rhs_info : NodeInfo;
  rhs_head : SymbolSpan;
  rhs_reference : option LinkReference }.

Record RightHandSideList := {
  rl_info : NodeInfo;
  rl_openIndentToken : option Token;
  rl_elements : option (list RightHandSide);
  rl_closeIndentToken : option Token }.

Record OneOfList := {
  ol_info : NodeInfo;
  ol_oneKeyword : option Token;
  ol_ofKeyword : option Token;
  ol_openIndentToken : option Token;
  ol_terminals : option (list Terminal);
  ol_closeIndentToken : option Token }.

(** The body of a production: one of the three shapes, or a node of
    another kind left there by the parser. *)
Inductive ProductionBody :=
| BodyOneOfList (l : OneOfList)
| BodyRightHandSideList (l : RightHandSideList)
| BodyRightHandSide (r : RightHandSide)
| BodyOther (kind : SyntaxKind.t) (info : NodeInfo).

Definition kindOfBody (b : ProductionBody) : SyntaxKind.t :=
  match b with
  | BodyOneOfList _ => SyntaxKind.OneOfList
  | BodyRightHandSideList _ => SyntaxKind.RightHandSideList
  | BodyRightHandSide _ => SyntaxKind.RightHandSide
  | BodyOther k _ => k
  end.

Record Production := {
  pr_info : NodeInfo;
  pr_name : Identifier;
  pr_parameterList : option ParameterList;
  pr_colonToken : option Token;
  pr_body : option ProductionBody }.

Record Define := {
  de_info : NodeInfo;
  de_defineKeyword : Token;
  de_key : option Identifier;
  de_valueToken : option Token }.

Inductive SourceElement :=
| ElementProduction (p : Production)
| ElementDefine (d : Define)
| ElementInvalid (info : NodeInfo)                   (* kind InvalidSourceElement *)
| ElementOther (kind : SyntaxKind.t) (info : NodeInfo).

Record SourceFile := {
  sf_info : NodeInfo;
  filename : string;
  elements : list SourceElement }.

(** A reference to a node of any class, as the binding table hands it out:
    the classes whose fields the checker reads through such a reference,
    and the kind and base fields of any other. *)
Inductive Node :=
| NodeProduction (p : Production)
| NodeParameter (p : Parameter_)
| NodeNonterminal (n : Nonterminal)
| NodeArgument (a : Argument)
| NodeIdentifier (i : Identifier)
| NodeOther (kind : SyntaxKind.t) (info : NodeInfo).

Definition kindOfNode (node : Node) : SyntaxKind.t :=
  match node with
  | NodeProduction _ => SyntaxKind.Production
  | NodeParameter _ => SyntaxKind.Parameter_
  | NodeNonterminal _ => SyntaxKind.Nonterminal
  | NodeArgument _ => SyntaxKind.Argument
  | NodeIdentifier _ => SyntaxKind.Identifier
  | NodeOther kind _ => kind
  end.

Definition infoOfNode (node : Node) : NodeInfo :=
  match node with
  | NodeProduction p => pr_info p
  | NodeParameter p => pa_info p
  | NodeNonterminal n => nt_info n
  | NodeArgument a => ar_info a
  | NodeIdentifier i => id_info i
  | NodeOther _ info => info
  end.

(** [a === b] on nodes: nodes are objects, told apart by their [id]. *)
Definition sameNode (a b : NodeInfo) : bool := bool_decide (id a = id b).

(** JavaScript truthiness of a string that may be [undefined]. *)
Definition truthy (text : option string) : bool :=
  match text with
  | Some s => negb (bool_decide (s = ""))
  | None => false
  end.

(** ** Symbols and the binding table (symbols.ts, binder.ts) *)

Record Symbol := { sy_id : N; sy_name : string; sy_kind : SymbolKind }.

(** [a === b] on symbols that may be [undefined]. *)
Definition sameSymbol (a b : option Symbol) : bool :=
  match a, b with
  | Some x, Some y => bool_decide (sy_id x = sy_id y)
  | None, None => true
  | _, _ => false
  end.

Module BindingTable.

(** Modelled from the spec: binder.ts is not among the sources.  The
    table holds the parent map (node to parent), the symbol map (node to
    symbol), the global scope of production names, one scope of parameter
    names per production symbol, and the declarations and references of
    each symbol. *)
Record t := {
  parentMap : gmap N Node;
  symbolMap : gmap N Symbol;
  globalScope : gmap string Symbol;
  parameterScopes : gmap N (gmap string Symbol);
  declarationMap : gmap N (list Node);
  referenceMap : gmap N (list Node) }.

(** Modelled from the spec: [getParent(node)], [undefined] only for the
    root. *)
Definition getParent (bt : t) (node : NodeInfo) : option Node :=
  parentMap bt !! id node.

(** Modelled from the spec: [getSymbol(node)] returns the symbol bound to
    the node before; it resolves nothing. *)
Definition getSymbol (bt : t) (node : NodeInfo) : option Symbol :=
  symbolMap bt !! id node.

(** Modelled from the spec: [setSymbol(node, symbol)], the last write
    wins. *)
Definition setSymbol (bt : t) (node : NodeInfo) (symbol : option Symbol) : t :=
  {| parentMap := parentMap bt;
     symbolMap := match symbol with
                  | Some s => <[id node := s]> (symbolMap bt)
                  | None => delete (id node) (symbolMap bt)
                  end;
     globalScope := globalScope bt;
     parameterScopes := parameterScopes bt;
     declarationMap := declarationMap bt;
     referenceMap := referenceMap bt |}.

(** Modelled from the spec: [getAncestor(node, kind)], the nearest strict
    ancestor of that kind.  The walk is bounded by the size of the parent
    map, which no chain of distinct nodes exceeds. *)
Fixpoint ancestor (fuel : nat) (bt : t) (node : NodeInfo) (kind : SyntaxKind.t) : option Node :=
  match fuel with
  | O => None
  | S fuel =>
      match getParent bt node with
      | None => None
      | Some parent =>
          if bool_decide (kindOfNode parent = kind) then Some parent
          else ancestor fuel bt (infoOfNode parent) kind
      end
  end.

Definition getAncestor (bt : t) (node : NodeInfo) (kind : SyntaxKind.t) : option Node :=
  ancestor (S (size (parentMap bt))) bt node kind.

(** Modelled from the spec: the production enclosing a location, the
    location itself when it is a production (the checker resolves
    parameter names with the production as location). *)
Definition enclosingProduction (bt : t) (location : Node) : option Node :=
  match location with
  | NodeProduction _ => Some location
  | _ => getAncestor bt (infoOfNode location) SyntaxKind.Production
  end.

(** Modelled from the spec: [resolveSymbol(location, name, kind)].  A
    parameter name is searched in the scope of the symbol of the
    enclosing production, a production name in the global scope; a miss
    is [undefined], and no symbol is created.  An absent location or name
    is a miss. *)
Definition resolveSymbol (bt : t) (location : option Node) (name : option string)
    (meaning : SymbolKind) : option Symbol :=
  match location, name with
  | Some location, Some name =>
      match meaning with
      | SymbolKind_Production => globalScope bt !! name
      | SymbolKind_Parameter =>
          production ← enclosingProduction bt location;
          symbol ← getSymbol bt (infoOfNode production);
          scope ← parameterScopes bt !! sy_id symbol;
          scope !! name
      end
  | _, _ => None
  end.

(** Modelled from the spec: the declarations of a symbol in discovery
    order (none for [undefined]), and its references. *)
Definition getDeclarations (bt : t) (symbol : option Symbol) : list Node :=
  match symbol with
  | Some s => default [] (declarationMap bt !! sy_id s)
  | None => []
  end.

Definition getReferences (bt : t) (symbol : option Symbol) : list Node :=
  match symbol with
  | Some s => default [] (referenceMap bt !! sy_id s)
  | None => []
  end.

End BindingTable.

(** ** The diagnostic sink (diagnostics.ts) *)

(** An argument of a message.  [tokenToString] and [formatList] belong to
    the message catalogue, so their results are kept as the token kinds they
    were asked to render. *)
Inductive DiagnosticArgument :=
| ArgText (text : option string)
| ArgToken (kind : SyntaxKind.t) (quoted : bool)       (* tokenToString(kind, quoted) *)
| ArgList (kinds : list SyntaxKind.t).                 (* formatList(kinds) *)

Inductive DiagnosticLocation :=
| AtPosition (position : Z)
| AtNode (kind : SyntaxKind.t) (info : NodeInfo)
| AtNothing.                                            (* reportNode(undefined, ...) *)

Record DiagnosticRecord := {
  dr_filename : option string;
  dr_location : DiagnosticLocation;
  dr_message : Diagnostic;
  dr_arguments : list DiagnosticArgument }.

(** Modelled from the spec: [DiagnosticMessages], an append-only sink that
    remembers the file being checked. *)
Record DiagnosticMessages := {
  dm_sourceFile : option string;
  dm_messages : list DiagnosticRecord }.

Definition tokenToString (kind : SyntaxKind.t) : DiagnosticArgument := ArgToken kind false.
Definition tokenToStringQuoted (kind : SyntaxKind.t) : DiagnosticArgument := ArgToken kind true.
Definition formatList (kinds : list SyntaxKind.t) : DiagnosticArgument := ArgList kinds.

(** ** The state of a [Checker] *)

(** The cancellation token (prex): all the checker asks of it is whether
    cancellation was requested. *)
Record CancellationToken := { cancellationRequested : bool }.

Record CompilerOptions := { opt_noStrictParametricProductions : option bool }.

Record Checker := {
  checkedFileSet : Dictionary.t bool;
  bindings : BindingTable.t;
  diagnostics : DiagnosticMessages;
  sourceFile : option SourceFile;
  noStrictParametricProductions : bool;
  productionParametersByName : option (Dictionary.t (Dictionary.t bool));
  cancellationToken : CancellationToken }.

Inductive Exception := TypeError | CancelError.

Inductive Completion (A : Type) :=
| Normal (a : A)
| Throw (e : Exception).
Arguments Normal {A} a.
Arguments Throw {A} e.

(** A method of a class whose fields are [S]: it runs on the fields of
    [this] and completes normally with a value or abruptly with an
    exception. *)
Definition Stateful (S A : Type) : Type := S → Completion A * S.

Global Instance Stateful_ret {S} : MRet (Stateful S) := λ A a this, (Normal a, this).

Global Instance Stateful_bind {S} : MBind (Stateful S) := λ A B f m this,
  match m this with
  | (Normal a, this') => f a this'
  | (Throw e, this') => (Throw e, this')
  end.

Definition throw {S A} (e : Exception) : Stateful S A := λ this, (Throw e, this).

Definition getThis {S} : Stateful S S := λ this, (Normal this, this).

Definition setThis {S} (f : S → S) : Stateful S unit := λ this, (Normal tt, f this).

(** Reading a property of a value that may be [undefined]. *)
Definition deref {S A} (value : option A) : Stateful S A :=
  match value with
  | Some a => mret a
  | None => throw TypeError
  end.

(** [for (const element of list) body(element)] *)
Definition forOf {S A} (body : A → Stateful S unit) : list A → Stateful S unit :=
  fix loop (l : list A) : Stateful S unit :=
    match l with
    | [] => mret tt
    | element :: rest => body element ;; loop rest
    end.

(** A loop that updates a local variable: [body] returns its new value. *)
Definition forOfWith {S A L} (body : L → A → Stateful S L) : L → list A → Stateful S L :=
  fix loop (local : L) (l : list A) : Stateful S L :=
    match l with
    | [] => mret local
    | element :: rest => local' ← body local element; loop local' rest
    end.

(** [for (let i = 0; i < list.length; ++i) body(i > 0, list[i])] *)
Definition forIndexed {S A} (body : bool → A → Stateful S unit) (l : list A)
    : Stateful S unit :=
  (fix loop (later : bool) (l : list A) : Stateful S unit :=
     match l with
     | [] => mret tt
     | element :: rest => body later element ;; loop true rest
     end) false l.

(** [a || b] on checks that return whether they reported an error. *)
Definition orElse {S} (a b : Stateful S bool) : Stateful S bool :=
  reported ← a; if (reported : bool) then mret true else b.

(** The answer of a check that has no [return] at its end: [undefined]
    ([None]) when the end is reached, and otherwise what was returned. *)
Definition isTruthy (answer : option bool) : bool := default false answer.

(** [return m] in such a check. *)
Definition answered {S} (m : Stateful S bool) : Stateful S (option bool) :=
  reported ← m; mret (Some reported).

(** [a || b] where [a] may answer [undefined]. *)
Definition orElseAnswer {S} (a : Stateful S (option bool)) (b : Stateful S bool)
    : Stateful S bool :=
  reported ← a; if isTruthy reported then mret true else b.

(** The methods of [Checker]. *)
Abbreviation Method := (Stateful Checker).

Definition with_checkedFileSet (this : Checker) (v : Dictionary.t bool) : Checker :=
  {| checkedFileSet := v; bindings := bindings this; diagnostics := diagnostics this;
     sourceFile := sourceFile this;
     noStrictParametricProductions := noStrictParametricProductions this;
     productionParametersByName := productionParametersByName this;
     cancellationToken := cancellationToken this |}.

Definition with_bindings (this : Checker) (v : BindingTable.t) : Checker :=
  {| checkedFileSet := checkedFileSet this; bindings := v; diagnostics := diagnostics this;
     sourceFile := sourceFile this;
     noStrictParametricProductions := noStrictParametricProductions this;
     productionParametersByName := productionParametersByName this;
     cancellationToken := cancellationToken this |}.

Definition with_diagnostics (this : Checker) (v : DiagnosticMessages) : Checker :=
  {| checkedFileSet := checkedFileSet this; bindings := bindings this; diagnostics := v;
     sourceFile := sourceFile this;
     noStrictParametricProductions := noStrictParametricProductions this;
     productionParametersByName := productionParametersByName this;
     cancellationToken := cancellationToken this |}.

Definition with_sourceFile (this : Checker) (v : option SourceFile) : Checker :=
  {| checkedFileSet := checkedFileSet this; bindings := bindings this;
     diagnostics := diagnostics this; sourceFile := v;
     noStrictParametricProductions := noStrictParametricProductions this;
     productionParametersByName := productionParametersByName this;
     cancellationToken := cancellationToken this |}.

Definition with_noStrictParametricProductions (this : Checker) (v : bool) : Checker :=
  {| checkedFileSet := checkedFileSet this; bindings := bindings this;
     diagnostics := diagnostics this; sourceFile := sourceFile this;
     noStrictParametricProductions := v;
     productionParametersByName := productionParametersByName this;
     cancellationToken := cancellationToken this |}.

Definition with_productionParametersByName (this : Checker)
    (v : option (Dictionary.t (Dictionary.t bool))) : Checker :=
  {| checkedFileSet := checkedFileSet this; bindings := bindings this;
     diagnostics := diagnostics this; sourceFile := sourceFile this;
     noStrictParametricProductions := noStrictParametricProductions this;
     productionParametersByName := v;
     cancellationToken := cancellationToken this |}.

(** [this.diagnostics.setSourceFile(file)], [report] and [reportNode]. *)
Definition setSourceFile (file : option SourceFile) : Method unit :=
  setThis (λ this, with_diagnostics this
    {| dm_sourceFile := filename <$> file;
       dm_messages := dm_messages (diagnostics this) |}).

Definition reportAt (location : DiagnosticLocation) (message : Diagnostic)
    (arguments : list DiagnosticArgument) : Method unit :=
  setThis (λ this, with_diagnostics this
    {| dm_sourceFile := dm_sourceFile (diagnostics this);
       dm_messages := dm_messages (diagnostics this)
                      ++ [{| dr_filename := dm_sourceFile (diagnostics this);
                             dr_location := location;
                             dr_message := message;
                             dr_arguments := arguments |}] |}).

Definition report (position : Z) := reportAt (AtPosition position).

Definition reportNode (kind : SyntaxKind.t) (info : NodeInfo) := reportAt (AtNode kind info).

(** ** The class [Checker] (checker.ts) *)

Definition atToken (t : Token) : DiagnosticLocation := AtNode (tk_kind t) (tk_info t).
Definition atIdentifier (i : Identifier) : DiagnosticLocation :=
  AtNode SyntaxKind.Identifier (id_info i).
Definition atSymbol (s : LexicalSymbol) : DiagnosticLocation :=
  AtNode (kindOfSymbol s) (infoOfSymbol s).
Definition atAnyNode (n : option Node) : DiagnosticLocation :=
  match n with
  | Some n => AtNode (kindOfNode n) (infoOfNode n)
  | None => AtNothing
  end.

Definition reportGrammarError (pos : Z) (diagnosticMessage : Diagnostic)
    (arg0 : DiagnosticArgument) : Method bool :=
  report pos diagnosticMessage [arg0] ;; mret true.

Definition reportGrammarErrorForNode (location : DiagnosticLocation)
    (diagnosticMessage : Diagnostic) (arg0 : DiagnosticArgument) : Method bool :=
  reportAt location diagnosticMessage [arg0] ;; mret true.

Definition resolveSymbol (location : option Node) (name : option string)
    (meaning : SymbolKind) (diagnosticMessage : option Diagnostic) : Method (option Symbol) :=
  this ← getThis;
  let result := BindingTable.resolveSymbol (bindings this) location name meaning in
  match result, diagnosticMessage with
  | None, Some diagnosticMessage =>
      reportAt (atAnyNode location) diagnosticMessage [ArgText name] ;; mret result
  | _, _ => mret result
  end.

Definition checkGrammarIdentifier (node : Identifier) : Method bool :=
  if negb (truthy (id_text node))
  then reportGrammarErrorForNode (atIdentifier node) _0_expected
         (tokenToString SyntaxKind.Identifier)
  else mret false.

(** The class of a node behind a cast such as [<Production>node]: the
    tables built by the binder only hold nodes of the expected class there,
    and a node of another class is treated as an absent one. *)
Definition asProduction (node : option Node) : option Production :=
  match node with
  | Some (NodeProduction p) => Some p
  | _ => None
  end.

Definition asNonterminal (node : option Node) : option Nonterminal :=
  match node with
  | Some (NodeNonterminal n) => Some n
  | _ => None
  end.

Definition checkIdentifier (node : Identifier) : Method (option Symbol) :=
  checkGrammarIdentifier node ;;
  if truthy (id_text node) then
    this ← getThis;
    match BindingTable.getParent (bindings this) (id_info node) with
    | Some parent =>
        let finish (symbol : option Symbol) : Method (option Symbol) :=
          setThis (λ this, with_bindings this
                     (BindingTable.setSymbol (bindings this) (id_info node) symbol)) ;;
          mret symbol in
        let lookupProduction : Method (option Symbol) :=
          symbol ← resolveSymbol (Some (NodeIdentifier node)) (id_text node)
                     SymbolKind_Production (Some Cannot_find_name_0_);
          finish symbol in
        match parent with
        | NodeParameter _ =>
            symbol ← resolveSymbol (Some (NodeIdentifier node)) (id_text node)
                       SymbolKind_Parameter None;
            this ← getThis;
            let declarationSymbol := BindingTable.getSymbol (bindings this) (infoOfNode parent) in
            (if negb (sameSymbol declarationSymbol symbol)
             then reportAt (atIdentifier node) Duplicate_identifier_0_ [ArgText (id_text node)]
             else mret tt) ;;
            mret symbol
        | NodeProduction _ =>
            mret (BindingTable.getSymbol (bindings this) (infoOfNode parent))
        | NodeNonterminal _ => lookupProduction
        | NodeArgument argument =>
            if bool_decide (tk_kind <$> ar_operatorToken argument = Some SyntaxKind.QuestionToken)
            then
              symbol ← resolveSymbol (Some (NodeIdentifier node)) (id_text node)
                         SymbolKind_Parameter None;
              match symbol with
              | None =>
                  this ← getThis;
                  production ← deref (asProduction
                                 (BindingTable.getAncestor (bindings this)
                                    (ar_info argument) SyntaxKind.Production));
                  reportAt (atIdentifier node) Production_0_does_not_have_a_parameter_named_1_
                    [ArgText (id_text (pr_name production)); ArgText (id_text node)] ;;
                  finish symbol
              | Some _ => finish symbol
              end
            else
              (* get the symbol of the parameter of the target production *)
              let nonterminal := asNonterminal
                    (BindingTable.getAncestor (bindings this) (infoOfNode parent)
                       SyntaxKind.Nonterminal) in
              match nonterminal ≫= nt_name with
              | Some nonterminalName =>
                  if truthy (id_text nonterminalName) then
                    productionSymbol ← resolveSymbol (Some (NodeIdentifier node))
                                         (id_text nonterminalName) SymbolKind_Production None;
                    match productionSymbol with
                    | Some _ =>
                        this ← getThis;
                        let production :=
                          head (BindingTable.getDeclarations (bindings this) productionSymbol) in
                        symbol ← resolveSymbol production (id_text node) SymbolKind_Parameter None;
                        match symbol with
                        | None =>
                            production ← deref (asProduction production);
                            reportAt (atIdentifier node)
                              Production_0_does_not_have_a_parameter_named_1_
                              [ArgText (id_text (pr_name production)); ArgText (id_text node)] ;;
                            finish symbol
                        | Some _ => finish symbol
                        end
                    | None => finish None
                    end
                  else finish None
              | None => finish None
              end
        | NodeOther kind _ =>
            if bool_decide (kind = SyntaxKind.LookaheadAssertion)
            then lookupProduction
            else finish None
        | NodeIdentifier _ => finish None
        end
    | None => mret None
    end
  else mret None.

Definition checkParameter (node : Parameter_) : Method unit :=
  name ← deref (pa_name node);
  checkIdentifier name ;; mret tt.

(** The method has no [return] at its end: when nothing is missing it
    answers [undefined]. *)
Definition checkGrammarParameterList (node : ParameterList) : Method (option bool) :=
  match pl_openParenToken node with
  | None => answered (reportGrammarError (pos (pl_info node)) _0_expected
                        (tokenToString SyntaxKind.OpenBracketToken))
  | Some openParenToken =>
      if bool_decide (tk_kind openParenToken = SyntaxKind.OpenParenToken)
      then answered
             (reportGrammarErrorForNode (atToken openParenToken) Obsolete_0_
                (ArgText (Some "Support for using parenthesis to enclose production parameter lists is deprecated and may be removed in a future update. Please switch to bracket's ('[', ']') when enclosing production parameter lists.")))
      else
        match pl_elements node, pl_closeParenToken node with
        | None, _ => answered (reportGrammarError (pos (pl_info node)) _0_expected
                                 (tokenToString SyntaxKind.Identifier))
        | Some _, None => answered (reportGrammarError (pos (pl_info node)) _0_expected
                                      (tokenToString SyntaxKind.CloseBracketToken))
        | Some _, Some _ => mret None
        end
  end.

Definition checkParameterList (node : ParameterList) : Method unit :=
  checkGrammarParameterList node ;;
  elements ← deref (pl_elements node);
  forOf checkParameter elements.

Definition checkProductionNonStrict (node : Production) : Method unit :=
  checkIdentifier (pr_name node) ;;
  match pr_parameterList node with
  | Some parameterList => checkParameterList parameterList
  | None => mret tt
  end.

(** The set of parameter names built by the loop of
    [getProductionParametersByName]. *)
Definition collectParameterNames (parameters : list Parameter_) : Dictionary.t bool :=
  foldl (λ parametersByName parameter,
           let parameterNameText := pa_name parameter ≫= id_text in
           if truthy parameterNameText
              && negb (Dictionary.has parametersByName (Js.keyOfText parameterNameText))
           then Dictionary.set parametersByName (Js.keyOfText parameterNameText) true
           else parametersByName)
        (Dictionary.new None) parameters.

Definition getProductionParametersByName (node : Production)
    : Method (option (Dictionary.t bool)) :=
  let id := Js.keyOfNumber (id (pr_info node)) in
  this ← getThis;
  productionParametersByName ← deref (productionParametersByName this);
  if Dictionary.has productionParametersByName id then
    match Dictionary.get productionParametersByName id with
    | Js.Data parametersByName => mret (Some parametersByName)
    | _ => mret None
    end
  else
    let parameterList := pr_parameterList node in
    let parameters := parameterList ≫= pl_elements in
    let parametersByName := collectParameterNames (default [] parameters) in
    setThis (λ this, with_productionParametersByName this
               (Some (Dictionary.set productionParametersByName id parametersByName))) ;;
    mret (Some parametersByName).

(** [Dictionary.has(object, key)] on a value that may be [undefined]. *)
Definition hasKey (object : option (Dictionary.t bool)) (key : option string) : Method bool :=
  object ← deref object;
  mret (Dictionary.has object (Js.keyOfText key)).

(** The body of the two loops of [checkProductionStrict]: a parameter of
    one declaration whose name is not among [names], the parameter names of
    the other declaration, is reported at [location]. *)
Definition checkParameterDeclared (location : DiagnosticLocation)
    (thisProductionNameText : option string) (names : option (Dictionary.t bool))
    (parameter : Parameter_) : Method unit :=
  parameterName ← deref (pa_name parameter);
  let parameterNameText := id_text parameterName in
  found ← hasKey names parameterNameText;
  if negb found
  then reportAt location
         Production_0_is_missing_parameter_1_All_definitions_of_production_0_must_specify_the_same_formal_parameters
         [ArgText thisProductionNameText; ArgText parameterNameText]
  else mret tt.

Definition checkProductionStrict (thisProduction : Production) : Method unit :=
  let thisProductionName := pr_name thisProduction in
  let thisProductionNameText := id_text thisProductionName in
  thisProductionSymbol ← checkIdentifier thisProductionName;
  let thisProductionParameterList := pr_parameterList thisProduction in
  let thisProductionParameters := thisProductionParameterList ≫= pl_elements in
  let thisProductionParameterCount := length (default [] thisProductionParameters) in
  this ← getThis;
  let firstProduction :=
    head (BindingTable.getDeclarations (bindings this) thisProductionSymbol) in
  (if bool_decide (thisProductionParameterCount ≠ 0%nat)
   then parameterList ← deref thisProductionParameterList; checkParameterList parameterList
   else mret tt) ;;
  if from_option (λ first, sameNode (infoOfNode first) (pr_info thisProduction))
       false firstProduction
  then mret tt
  else
    (* the [debugger] statement of the source reads [this.sourceFile.filename] *)
    this ← getThis;
    _ ← deref (sourceFile this);
    thisProductionParameterNames ← getProductionParametersByName thisProduction;
    firstProduction ← deref (asProduction firstProduction);
    let firstProductionParameterList := pr_parameterList firstProduction in
    let firstProductionParameters := firstProductionParameterList ≫= pl_elements in
    firstProductionParameterNames ← getProductionParametersByName firstProduction;
    forOf (checkParameterDeclared (atIdentifier thisProductionName) thisProductionNameText
             thisProductionParameterNames)
          (default [] firstProductionParameters) ;;
    forOf (checkParameterDeclared (AtNode SyntaxKind.Production (pr_info firstProduction))
             thisProductionNameText firstProductionParameterNames)
          (default [] thisProductionParameters).

Definition checkGrammarProduction (node : Production) : Method bool :=
  let pos0 := end_ (id_info (pr_name node)) in
  let pos1 := match pr_parameterList node with
              | Some parameterList => end_ (pl_info parameterList)
              | None => pos0
              end in
  match pr_colonToken node with
  | None => reportGrammarError pos1 _0_expected (tokenToString SyntaxKind.ColonToken)
  | Some colonToken =>
      let pos2 := (pos1 + end_ (tk_info colonToken))%Z in        (* pos += node.colonToken.end *)
      match pr_body node with
      | None => reportGrammarError pos2 _0_expected
                  (formatList [SyntaxKind.OneOfList; SyntaxKind.RightHandSide])
      | Some body =>
          match body with
          | BodyOneOfList _ | BodyRightHandSide _ | BodyRightHandSideList _ => mret false
          | BodyOther _ _ =>
              reportGrammarError pos2 _0_expected
                (formatList [SyntaxKind.OneOfList; SyntaxKind.RightHandSide])
          end
      end
  end.

Definition checkGrammarOptionalSymbol (questionToken : option Token) (allowOptional : bool)
    : Method bool :=
  match questionToken with
  | Some questionToken =>
      if negb allowOptional || negb (bool_decide (tk_kind questionToken = SyntaxKind.QuestionToken))
      then reportGrammarErrorForNode (atToken questionToken) Unexpected_token_0_
             (tokenToString (tk_kind questionToken))
      else mret false
  | None => mret false
  end.

Definition checkGrammarTerminal (node : Terminal) : Method bool :=
  if negb (truthy (te_text node))
  then reportGrammarErrorForNode (AtNode SyntaxKind.Terminal (te_info node)) _0_expected
         (tokenToString SyntaxKind.Terminal)
  else mret false.

Definition checkTerminal (node : Terminal) (allowOptional : bool) : Method unit :=
  orElse (checkGrammarOptionalSymbol (te_questionToken node) allowOptional)
         (checkGrammarTerminal node) ;;
  mret tt.

Definition checkGrammarUnicodeCharacterLiteral (node : UnicodeCharacterLiteral) : Method bool :=
  if negb (truthy (uc_text node))
  then reportGrammarErrorForNode (AtNode SyntaxKind.UnicodeCharacterLiteral (uc_info node))
         _0_expected (tokenToString SyntaxKind.UnicodeCharacterLiteral)
  else mret false.

Definition checkUnicodeCharacterLiteral (node : option UnicodeCharacterLiteral)
    (allowOptional : bool) : Method unit :=
  node ← deref node;
  orElse (checkGrammarOptionalSymbol (uc_questionToken node) allowOptional)
         (checkGrammarUnicodeCharacterLiteral node) ;;
  mret tt.

Definition atLiteral (u : UnicodeCharacterLiteral) : DiagnosticLocation :=
  AtNode SyntaxKind.UnicodeCharacterLiteral (uc_info u).

Definition checkGrammarUnicodeCharacterRange (info : NodeInfo)
    (left : option UnicodeCharacterLiteral) (throughKeyword : option Token)
    (right : option UnicodeCharacterLiteral) : Method bool :=
  let self := AtNode SyntaxKind.UnicodeCharacterRange info in
  match left, throughKeyword, right with
  | None, _, _ =>
      reportGrammarErrorForNode
        (match throughKeyword, right with
         | Some t, _ => atToken t
         | None, Some r => atLiteral r
         | None, None => self
         end)
        _0_expected (tokenToString SyntaxKind.UnicodeCharacterLiteral)
  | Some _, None, _ =>
      reportGrammarErrorForNode (from_option atLiteral self right)
        _0_expected (tokenToString SyntaxKind.ThroughKeyword)
  | Some _, Some _, None =>
      reportGrammarError (end_ info) _0_expected
        (tokenToString SyntaxKind.UnicodeCharacterLiteral)
  | Some _, Some _, Some _ => mret false
  end.

Definition checkUnicodeCharacterRange (info : NodeInfo)
    (left : option UnicodeCharacterLiteral) (throughKeyword : option Token)
    (right : option UnicodeCharacterLiteral) : Method unit :=
  checkGrammarUnicodeCharacterRange info left throughKeyword right ;;
  checkUnicodeCharacterLiteral left false ;;
  checkUnicodeCharacterLiteral right false.

Definition checkPlaceholder (node : NodeInfo) : Method unit := mret tt.

Definition checkGrammarArgument (node : Argument) : Method bool :=
  this ← getThis;
  match ar_operatorToken node with
  | Some operatorToken =>
      if negb (bool_decide (tk_kind operatorToken = SyntaxKind.QuestionToken))
         && negb (bool_decide (tk_kind operatorToken = SyntaxKind.PlusToken))
         && negb (bool_decide (tk_kind operatorToken = SyntaxKind.TildeToken))
      then reportGrammarErrorForNode (atToken operatorToken) Unexpected_token_0_
             (tokenToString (tk_kind operatorToken))
      else mret false
  | None =>
      if negb (noStrictParametricProductions this)
      then reportGrammarError (pos (ar_info node)) _0_expected
             (formatList [SyntaxKind.QuestionToken; SyntaxKind.PlusToken; SyntaxKind.TildeToken])
      else mret false
  end.

Definition checkArgument (node : Argument) : Method unit :=
  checkGrammarArgument node ;;
  checkIdentifier (ar_name node) ;;
  mret tt.

Definition checkGrammarArgumentList (node : ArgumentList) : Method bool :=
  match al_openParenToken node with
  | None => reportGrammarError (pos (al_info node)) _0_expected
              (tokenToString SyntaxKind.OpenBracketToken)
  | Some openParenToken =>
      if bool_decide (tk_kind openParenToken = SyntaxKind.OpenParenToken)
      then reportGrammarErrorForNode (atToken openParenToken) Obsolete_0_
             (ArgText (Some "Support for using parenthesis to enclose an argument list is deprecated and may be removed in a future update. Please switch to bracket's ('[', ']') when enclosing argument lists."))
      else
        match al_elements node, al_closeParenToken node with
        | None, _ => reportGrammarError (pos (al_info node)) _0_expected
                       (tokenToString SyntaxKind.Identifier)
        | Some _, None => reportGrammarError (pos (al_info node)) _0_expected
                            (tokenToString SyntaxKind.CloseBracketToken)
        | Some _, Some _ => mret false
        end
  end.

Definition checkArgumentList (node : ArgumentList) : Method unit :=
  checkGrammarArgumentList node ;;
  match al_elements node with
  | Some elements => forOf checkArgument elements
  | None => mret tt
  end.

Definition checkNonterminalNonStrict (node : Nonterminal) : Method unit :=
  name ← deref (nt_name node);
  checkIdentifier name ;;
  match nt_argumentList node with
  | Some argumentList => checkArgumentList argumentList
  | None => mret tt
  end.

(** The body of the first loop of [checkNonterminalStrict], over the
    arguments, [nameSet] being the local variable. *)
Definition checkArgumentName (production : Production) (productionSymbol : Symbol)
    (nameSet : Dictionary.t bool) (argument : Argument) : Method (Dictionary.t bool) :=
  let argumentName := ar_name argument in
  let argumentNameText := id_text argumentName in
  if Dictionary.has nameSet (Js.keyOfText argumentNameText)
  then
    reportAt (atIdentifier argumentName)
      Argument_0_cannot_be_specified_multiple_times [ArgText argumentNameText] ;;
    mret nameSet
  else
    let nameSet := Dictionary.set nameSet (Js.keyOfText argumentNameText) true in
    parameterSymbol ← resolveSymbol (Some (NodeProduction production))
                        argumentNameText SymbolKind_Parameter None;
    match parameterSymbol with
    | None =>
        reportAt (atIdentifier argumentName)
          Production_0_does_not_have_a_parameter_named_1_
          [ArgText (Some (sy_name productionSymbol)); ArgText argumentNameText] ;;
        mret nameSet
    | Some _ => mret nameSet
    end.

(** The body of the second loop of [checkNonterminalStrict], over the
    parameters. *)
Definition checkParameterCovered (nonterminalName : Identifier)
    (nameSet : Dictionary.t bool) (parameter : Parameter_) : Method unit :=
  parameterName ← deref (pa_name parameter);
  let parameterNameText := id_text parameterName in
  if negb (Dictionary.has nameSet (Js.keyOfText parameterNameText))
  then reportAt (atIdentifier nonterminalName)
         There_is_no_argument_given_for_parameter_0_ [ArgText parameterNameText]
  else mret tt.

Definition checkNonterminalStrict (node : Nonterminal) : Method unit :=
  nonterminalName ← deref (nt_name node);
  productionSymbol ← checkIdentifier nonterminalName;
  match productionSymbol with
  | Some productionSymbol =>
      this ← getThis;
      production ← deref (asProduction
                     (head (BindingTable.getDeclarations (bindings this) (Some productionSymbol))));
      parameters ← match pr_parameterList production with
                   | Some parameterList => deref (pl_elements parameterList)
                   | None => mret []
                   end;
      arguments ← match nt_argumentList node with
                  | Some argumentList => deref (al_elements argumentList)
                  | None => mret []
                  end;
      (* Check each argument has a matching parameter. *)
      nameSet ← forOfWith (checkArgumentName production productionSymbol)
                  (Dictionary.new None) arguments;
      (* Check each parameter has a matching argument. *)
      forOf (checkParameterCovered nonterminalName nameSet) parameters
  | None => mret tt
  end ;;
  match nt_argumentList node with
  | Some argumentList => checkArgumentList argumentList
  | None => mret tt
  end.

Definition checkNonterminal (node : Nonterminal) (allowOptional : bool) : Method unit :=
  checkGrammarOptionalSymbol (nt_questionToken node) allowOptional ;;
  this ← getThis;
  if noStrictParametricProductions this
  then checkNonterminalNonStrict node
  else checkNonterminalStrict node.

Definition reportInvalidSymbol (node : LexicalSymbol) : Method unit :=
  reportGrammarErrorForNode (atSymbol node) _0_expected
    (formatList [SyntaxKind.Terminal; SyntaxKind.Identifier;
                 SyntaxKind.OpenBracketToken; SyntaxKind.OneKeyword]) ;;
  mret tt.

Definition checkPrimarySymbol (node : LexicalSymbol) (allowOptional : bool) : Method unit :=
  match node with
  | SymTerminal t => checkTerminal t allowOptional
  | SymUnicodeCharacterLiteral u => checkUnicodeCharacterLiteral (Some u) allowOptional
  | SymUnicodeCharacterRange info nodeLeft throughKeyword nodeRight =>
      checkUnicodeCharacterRange info nodeLeft throughKeyword nodeRight
  | SymNonterminal n => checkNonterminal n allowOptional
  | SymPlaceholder info => checkPlaceholder info
  | _ => reportInvalidSymbol node
  end.

Definition checkOptionalSymbolOrHigher (node : LexicalSymbol) : Method unit :=
  checkPrimarySymbol node true.

Definition checkGrammarOneOfSymbol (info : NodeInfo) (oneKeyword ofKeyword : option Token)
    (symbols : option (list LexicalSymbol)) : Method bool :=
  match oneKeyword, ofKeyword with
  | None, _ => reportGrammarError (pos info) _0_expected (tokenToString SyntaxKind.OneKeyword)
  | Some oneKeyword, None =>
      reportGrammarError (end_ (tk_info oneKeyword)) _0_expected
        (tokenToString SyntaxKind.OfKeyword)
  | Some _, Some _ =>
      if bool_decide (length (default [] symbols) = 0%nat)
      then reportGrammarError (end_ info) _0_expected
             (formatList [SyntaxKind.Identifier; SyntaxKind.Terminal;
                          SyntaxKind.UnicodeCharacterLiteral])
      else mret false
  end.

Definition checkOneOfSymbol (info : NodeInfo) (oneKeyword ofKeyword : option Token)
    (symbols : option (list LexicalSymbol)) : Method unit :=
  checkGrammarOneOfSymbol info oneKeyword ofKeyword symbols ;;
  match symbols with
  | Some symbols => forOf (λ symbol, checkPrimarySymbol symbol false) symbols
  | None => mret tt
  end.

Definition checkUnarySymbolOrHigher (node : LexicalSymbol) : Method unit :=
  match node with
  | SymOneOf info oneKeyword ofKeyword symbols =>
      checkOneOfSymbol info oneKeyword ofKeyword symbols
  | _ => checkOptionalSymbolOrHigher node
  end.

Definition checkGrammarButNotSymbol (info : NodeInfo) (butKeyword notKeyword : option Token)
    (right : option LexicalSymbol) : Method bool :=
  match butKeyword, notKeyword, right with
  | None, _, _ =>
      reportGrammarErrorForNode
        (match notKeyword, right with
         | Some t, _ => atToken t
         | None, Some r => atSymbol r
         | None, None => AtNothing
         end)
        _0_expected (tokenToString SyntaxKind.ButKeyword)
  | Some _, None, _ =>
      reportGrammarErrorForNode (from_option atSymbol AtNothing right)
        _0_expected (tokenToString SyntaxKind.NotKeyword)
  | Some _, Some _, None =>
      reportGrammarError (end_ info) _0_expected
        (formatList [SyntaxKind.Identifier; SyntaxKind.Terminal;
                     SyntaxKind.UnicodeCharacterLiteral; SyntaxKind.OneKeyword])
  | Some _, Some _, Some _ => mret false
  end.

Definition checkButNotSymbol (info : NodeInfo) (left : LexicalSymbol)
    (butKeyword notKeyword : option Token) (right : option LexicalSymbol) : Method unit :=
  checkGrammarButNotSymbol info butKeyword notKeyword right ;;
  checkUnarySymbolOrHigher left ;;
  right ← deref right;
  checkUnarySymbolOrHigher right.

Definition checkButNotSymbolOrHigher (node : LexicalSymbol) : Method unit :=
  match node with
  | SymButNot info nodeLeft butKeyword notKeyword nodeRight =>
      checkButNotSymbol info nodeLeft butKeyword notKeyword nodeRight
  | _ => checkUnarySymbolOrHigher node
  end.

Definition checkProseFragmentLiteral (node : ProseFragmentLiteral) : Method unit :=
  match pf_text node with
  | None =>
      reportGrammarErrorForNode (AtNode (pf_kind node) (pf_info node)) _0_expected
        (tokenToString SyntaxKind.UnicodeCharacterLiteral) ;;
      mret tt
  | Some _ => mret tt
  end.

Definition checkProseFragment (fragment : ProseFragment) : Method unit :=
  match fragment with
  | FragmentNonterminal n => checkNonterminal n false
  | FragmentTerminal t => checkTerminal t false
  | FragmentLiteral l => checkProseFragmentLiteral l
  | FragmentIdentifier _ => mret tt
  end.

Definition checkProse (fragments : list ProseFragment) : Method unit :=
  forOf checkProseFragment fragments.

Definition isAssertion (node : option LexicalSymbol) : bool :=
  match node with
  | Some (SymEmptyAssertion _ _)
  | Some (SymLookaheadAssertion _ _ _ _)
  | Some (SymLexicalGoalAssertion _ _ _ _)
  | Some (SymNoSymbolHereAssertion _ _ _ _)
  | Some (SymParameterValueAssertion _ _ _)
  | Some (SymProseAssertion _ _)
  | Some (SymInvalidAssertion _) => true
  | _ => false
  end.

Definition checkGrammarAssertionHead (node : AssertionBrackets) : Method bool :=
  match as_openBracketToken node with
  | None => reportGrammarError (pos (as_info node)) _0_expected
              (tokenToString SyntaxKind.OpenBracketToken)
  | Some _ => mret false
  end.

Definition checkGrammarAssertionTail (node : AssertionBrackets) : Method bool :=
  match as_closeBracketToken node with
  | None => reportGrammarError (end_ (as_info node)) _0_expected
              (tokenToString SyntaxKind.CloseBracketToken)
  | Some _ => mret false
  end.

(** The method has no [return] at its end: with the keyword present it
    answers [undefined]. *)
Definition checkGrammarEmptyAssertion (node : AssertionBrackets)
    (emptyKeyword : option Token) : Method (option bool) :=
  match emptyKeyword with
  | None =>
      openBracketToken ← deref (as_openBracketToken node);
      answered (reportGrammarError (end_ (tk_info openBracketToken)) _0_expected
                  (tokenToStringQuoted SyntaxKind.EmptyKeyword))
  | Some _ => mret None
  end.

Definition checkEmptyAssertion (node : AssertionBrackets) (emptyKeyword : option Token)
    : Method unit :=
  orElse (checkGrammarAssertionHead node)
    (orElseAnswer (checkGrammarEmptyAssertion node emptyKeyword)
                  (checkGrammarAssertionTail node)) ;;
  mret tt.

Definition kindOfLookahead (l : Lookahead) : SyntaxKind.t :=
  match l with
  | LookaheadSet _ _ _ _ => SyntaxKind.SymbolSet
  | LookaheadSpan _ => SyntaxKind.SymbolSpan
  end.

Definition lookaheadOperators : list SyntaxKind.t :=
  [SyntaxKind.EqualsEqualsToken; SyntaxKind.ExclamationEqualsToken;
   SyntaxKind.LessThanMinusToken; SyntaxKind.LessThanExclamationToken].

Definition checkGrammarLookaheadAssertion (node : AssertionBrackets)
    (lookaheadKeyword operatorToken : option Token) (lookahead : option Lookahead)
    : Method bool :=
  let self := AtNode SyntaxKind.LookaheadAssertion (as_info node) in
  match lookaheadKeyword, operatorToken with
  | None, _ =>
      reportGrammarErrorForNode self _0_expected
        (tokenToStringQuoted SyntaxKind.LookaheadKeyword)
  | Some _, None =>
      reportGrammarErrorForNode self _0_expected (formatList lookaheadOperators)
  | Some _, Some operatorToken =>
      let equality :=
        bool_decide (tk_kind operatorToken = SyntaxKind.EqualsEqualsToken)
        || bool_decide (tk_kind operatorToken = SyntaxKind.ExclamationEqualsToken) in
      let membership :=
        bool_decide (tk_kind operatorToken = SyntaxKind.LessThanMinusToken)
        || bool_decide (tk_kind operatorToken = SyntaxKind.LessThanExclamationToken) in
      if negb (equality || membership)
      then reportGrammarErrorForNode self _0_expected (formatList lookaheadOperators)
      else
        match lookahead with
        | None =>
            if equality
            then reportGrammarError (end_ (tk_info operatorToken)) _0_expected
                   (tokenToString SyntaxKind.Terminal)
            else reportGrammarError (end_ (tk_info operatorToken)) _0_expected
                   (tokenToString SyntaxKind.OpenBraceToken)
        | Some lookahead =>
            if equality
            then
              if negb (bool_decide (kindOfLookahead lookahead = SyntaxKind.SymbolSpan))
              then reportGrammarErrorForNode self _0_expected
                     (formatList [SyntaxKind.Terminal; SyntaxKind.Identifier;
                                  SyntaxKind.UnicodeCharacterLiteral])
              else mret false
            else
              if negb (bool_decide (kindOfLookahead lookahead = SyntaxKind.SymbolSet))
              then reportGrammarErrorForNode self _0_expected
                     (tokenToString SyntaxKind.OpenBraceToken)
              else mret false
        end
  end.

Definition checkGrammarSymbolSet (info : NodeInfo) (openBraceToken : option Token)
    (elements : option (list SymbolSpan)) (closeBraceToken : option Token) : Method bool :=
  match openBraceToken, elements, closeBraceToken with
  | None, _, _ =>
      reportGrammarError (pos info) _0_expected (tokenToString SyntaxKind.OpenBraceToken)
  | Some openBraceToken, None, _ =>
      reportGrammarError (end_ (tk_info openBraceToken)) _0_expected
        (formatList [SyntaxKind.Identifier; SyntaxKind.Terminal;
                     SyntaxKind.UnicodeCharacterLiteral])
  | Some _, Some _, None =>
      reportGrammarError (end_ info) _0_expected (tokenToString SyntaxKind.CloseBraceToken)
  | Some _, Some _, Some _ => mret false
  end.

Definition checkGrammarLexicalGoalAssertion (node : AssertionBrackets)
    (lexicalKeyword goalKeyword : option Token) (symbol : option Identifier) : Method bool :=
  match lexicalKeyword, goalKeyword, symbol with
  | None, _, _ =>
      reportGrammarError (pos (as_info node)) _0_expected
        (tokenToString SyntaxKind.LexicalKeyword)
  | Some lexicalKeyword, None, _ =>
      reportGrammarError (end_ (tk_info lexicalKeyword)) _0_expected
        (tokenToString SyntaxKind.GoalKeyword)
  | Some _, Some _, None =>
      reportGrammarError (end_ (as_info node)) _0_expected
        (tokenToString SyntaxKind.Identifier)
  | Some _, Some _, Some _ => mret false
  end.

Definition checkLexicalGoalAssertion (node : AssertionBrackets)
    (lexicalKeyword goalKeyword : option Token) (symbol : option Identifier) : Method unit :=
  orElse (checkGrammarAssertionHead node)
    (orElse (checkGrammarLexicalGoalAssertion node lexicalKeyword goalKeyword symbol)
            (checkGrammarAssertionTail node)) ;;
  match symbol with
  | Some symbol => checkIdentifier symbol ;; mret tt
  | None => mret tt
  end.

Definition checkGrammarNoSymbolHereAssertion (node : AssertionBrackets)
    (noKeyword : option Token) (symbols : option (list LexicalSymbol))
    (hereKeyword : option Token) : Method bool :=
  match noKeyword with
  | None =>
      reportGrammarError (pos (as_info node)) _0_expected (tokenToString SyntaxKind.NoKeyword)
  | Some noKeyword =>
      if bool_decide (length (default [] symbols) = 0%nat)
      then reportGrammarError (end_ (tk_info noKeyword)) _0_expected
             (formatList [SyntaxKind.Identifier; SyntaxKind.Terminal;
                          SyntaxKind.UnicodeCharacterLiteral])
      else
        match hereKeyword with
        | None => reportGrammarError (end_ (as_info node)) _0_expected
                    (tokenToString SyntaxKind.HereKeyword)
        | Some _ => mret false
        end
  end.

Definition checkNoSymbolHereAssertion (node : AssertionBrackets)
    (noKeyword : option Token) (symbols : option (list LexicalSymbol))
    (hereKeyword : option Token) : Method unit :=
  orElse (checkGrammarAssertionHead node)
    (orElse (checkGrammarNoSymbolHereAssertion node noKeyword symbols hereKeyword)
            (checkGrammarAssertionTail node)) ;;
  match symbols with
  | Some symbols => forOf (λ symbol, checkPrimarySymbol symbol false) symbols
  | None => mret tt
  end.

Definition checkGrammarParameterValueAssertion (operatorToken : option Token) : Method bool :=
  match operatorToken with
  | Some operatorToken =>
      if bool_decide (tk_kind operatorToken = SyntaxKind.TildeToken)
         || bool_decide (tk_kind operatorToken = SyntaxKind.PlusToken)
      then mret false
      else reportGrammarErrorForNode (atToken operatorToken) Unexpected_token_0_
             (tokenToString (tk_kind operatorToken))
  | None => mret false
  end.

Definition checkParameterValueAssertion (node : AssertionBrackets)
    (operatorToken : option Token) (name : option Identifier) : Method unit :=
  orElse (checkGrammarAssertionHead node)
    (orElse (checkGrammarParameterValueAssertion operatorToken)
            (checkGrammarAssertionTail node)) ;;
  match name with
  | Some name => checkIdentifier name ;; mret tt
  | None => mret tt
  end.

Definition checkGrammarProseAssertionHead (node : AssertionBrackets) : Method bool :=
  match as_openBracketToken node with
  | None => reportGrammarError (pos (as_info node)) _0_expected
              (tokenToString SyntaxKind.OpenBracketGreaterThanToken)
  | Some _ => mret false
  end.

Definition checkProseAssertion (node : AssertionBrackets) (fragments : list ProseFragment)
    : Method unit :=
  orElse (checkGrammarProseAssertionHead node) (checkGrammarAssertionTail node) ;;
  forOf checkProseFragment fragments.

Definition reportInvalidAssertion (node : AssertionBrackets) : Method unit :=
  reported ← checkGrammarAssertionHead node;
  if (reported : bool) then mret tt
  else
    openBracketToken ← deref (as_openBracketToken node);
    reportGrammarError (end_ (tk_info openBracketToken)) _0_expected
      (formatList [SyntaxKind.LookaheadKeyword; SyntaxKind.LexicalKeyword;
                   SyntaxKind.NoKeyword; SyntaxKind.TildeToken; SyntaxKind.PlusToken]) ;;
    mret tt.

Definition checkGrammarSymbolSpanRest (node : SymbolSpan) : Method bool :=
  match ss_symbol node with
  | None =>
      reportGrammarError (pos (ss_info node)) _0_expected
        (formatList [SyntaxKind.UnicodeCharacterLiteral; SyntaxKind.Terminal;
                     SyntaxKind.Identifier; SyntaxKind.OpenBracketToken;
                     SyntaxKind.LineTerminatorToken])
  | Some symbol =>
      if bool_decide (kindOfSymbol symbol = SyntaxKind.Prose)
      then reportGrammarError (pos (infoOfSymbol symbol)) _0_expected
             (tokenToString SyntaxKind.LineTerminatorToken)
      else
        match ss_next node with
        | Some next =>
            (* [node.next.kind === SyntaxKind.Prose]: the kind of a span is SymbolSpan *)
            if bool_decide (SyntaxKind.SymbolSpan = SyntaxKind.Prose)
            then reportGrammarError (pos (ss_info next)) _0_expected
                   (tokenToString SyntaxKind.LineTerminatorToken)
            else mret false
        | None => mret false
        end
  end.

(** [checkSymbolOrHigher] and [checkSymbolSpanRest] call each other through
    [checkAssertion], [checkLookaheadAssertion] and [checkSymbolSet], whose
    bodies are written in place. *)
Fixpoint checkSymbolOrHigher (node : LexicalSymbol) : Method unit :=
  match node with
  (* checkAssertion *)
  | SymEmptyAssertion b emptyKeyword => checkEmptyAssertion b emptyKeyword
  | SymLookaheadAssertion b lookaheadKeyword operatorToken lookahead =>
      (* checkLookaheadAssertion *)
      orElse (checkGrammarAssertionHead b)
        (orElse (checkGrammarLookaheadAssertion b lookaheadKeyword operatorToken lookahead)
                (checkGrammarAssertionTail b)) ;;
      match lookahead with
      | Some (LookaheadSet info openBraceToken elements closeBraceToken) =>
          (* checkSymbolSet *)
          checkGrammarSymbolSet info openBraceToken elements closeBraceToken ;;
          match elements with
          | Some elements => forOf checkSymbolSpanRest elements
          | None => mret tt
          end
      | Some (LookaheadSpan span) => checkSymbolSpanRest span
      | None => mret tt
      end
  | SymLexicalGoalAssertion b lexicalKeyword goalKeyword symbol =>
      checkLexicalGoalAssertion b lexicalKeyword goalKeyword symbol
  | SymNoSymbolHereAssertion b noKeyword symbols hereKeyword =>
      checkNoSymbolHereAssertion b noKeyword symbols hereKeyword
  | SymParameterValueAssertion b operatorToken name =>
      checkParameterValueAssertion b operatorToken name
  | SymProseAssertion b fragments => checkProseAssertion b fragments
  | SymInvalidAssertion b => reportInvalidAssertion b
  | _ => checkButNotSymbolOrHigher node
  end
with checkSymbolSpanRest (node : SymbolSpan) : Method unit :=
  match node with
  | MkSymbolSpan info symbol next =>
      checkGrammarSymbolSpanRest node ;;
      match symbol with
      | Some symbol => checkSymbolOrHigher symbol
      | None => throw TypeError
      end ;;
      match next with
      | Some next => checkSymbolSpanRest next
      | None => mret tt
      end
  end.

Definition checkGrammarSymbolSpan (node : SymbolSpan) : Method bool :=
  match ss_symbol node with
  | None =>
      reportGrammarError (pos (ss_info node)) _0_expected
        (formatList [SyntaxKind.UnicodeCharacterLiteral; SyntaxKind.Terminal;
                     SyntaxKind.Identifier; SyntaxKind.OpenBracketToken; SyntaxKind.Prose])
  | Some symbol =>
      match ss_next node with
      | Some _ =>
          if bool_decide (kindOfSymbol symbol = SyntaxKind.Prose)
          then reportGrammarError (end_ (infoOfSymbol symbol)) _0_expected
                 (tokenToString SyntaxKind.LineTerminatorToken)
          else mret false
      | None => mret false
      end
  end.

Definition checkSymbolSpanOrHigher (node : option LexicalSymbol) : Method unit :=
  node ← deref node;
  match node with
  | SymProse _ fragments => checkProse fragments
  | _ => checkSymbolOrHigher node
  end.

Definition checkSymbolSpan (node : SymbolSpan) : Method unit :=
  checkGrammarSymbolSpan node ;;
  checkSymbolSpanOrHigher (ss_symbol node) ;;
  match ss_next node with
  | Some next => checkSymbolSpanRest next
  | None => mret tt
  end.

Definition checkGrammarLinkReference (node : LinkReference) : Method bool :=
  if negb (truthy (lr_text node))
  then reportGrammarErrorForNode (AtNode SyntaxKind.LinkReference (lr_info node))
         _0_expected (ArgText (Some "string"))
  else mret false.

Definition checkLinkReference (node : LinkReference) : Method unit :=
  checkGrammarLinkReference node ;; mret tt.

Definition checkRightHandSide (node : RightHandSide) : Method unit :=
  checkSymbolSpan (rhs_head node) ;;
  match rhs_reference node with
  | Some reference => checkLinkReference reference
  | None => mret tt
  end.

Definition checkGrammarRightHandSideList (node : RightHandSideList) : Method bool :=
  let self := AtNode SyntaxKind.RightHandSideList (rl_info node) in
  match rl_openIndentToken node with
  | None => reportGrammarErrorForNode self _0_expected (tokenToString SyntaxKind.IndentToken)
  | Some _ =>
      if bool_decide (length (default [] (rl_elements node)) = 0%nat)
      then reportGrammarErrorForNode self _0_expected
             (formatList [SyntaxKind.Terminal; SyntaxKind.Identifier;
                          SyntaxKind.OpenBracketToken])
      else
        match rl_closeIndentToken node with
        | None => reportGrammarError (end_ (rl_info node)) _0_expected
                    (tokenToString SyntaxKind.DedentToken)
        | Some _ => mret false
        end
  end.

Definition checkRightHandSideList (node : RightHandSideList) : Method unit :=
  checkGrammarRightHandSideList node ;;
  match rl_elements node with
  | Some elements => forOf checkRightHandSide elements
  | None => mret tt
  end.

Definition checkGrammarOneOfList (node : OneOfList) : Method bool :=
  match ol_oneKeyword node, ol_ofKeyword node, ol_terminals node with
  | None, _, _ =>
      reportGrammarError (pos (ol_info node)) _0_expected
        (tokenToString SyntaxKind.OneKeyword)
  | Some oneKeyword, None, _ =>
      reportGrammarError (end_ (tk_info oneKeyword)) _0_expected
        (tokenToString SyntaxKind.OfKeyword)
  | Some _, Some ofKeyword, None =>
      reportGrammarError (end_ (tk_info ofKeyword)) _0_expected
        (tokenToString SyntaxKind.Terminal)
  | Some _, Some _, Some _ =>
      match ol_openIndentToken node, ol_closeIndentToken node with
      | Some _, None =>
          reportGrammarError (end_ (ol_info node)) _0_expected
            (tokenToString SyntaxKind.DedentToken)
      | _, _ => mret false
      end
  end.

(** The body of the loop of [checkOneOfList] over the terminals,
    [terminalSet] being the local variable of the loop. *)
Definition checkOneOfTerminal (terminalSet : Dictionary.t bool) (terminal : Terminal)
    : Method (Dictionary.t bool) :=
  let text := te_text terminal in
  if Dictionary.has terminalSet (Js.keyOfText text)
  then
    reportAt (AtNode SyntaxKind.Terminal (te_info terminal))
      Duplicate_terminal_0_ [ArgText text] ;;
    mret terminalSet
  else
    let terminalSet := Dictionary.set terminalSet (Js.keyOfText text) true in
    checkTerminal terminal false ;;
    mret terminalSet.

Definition checkOneOfList (node : OneOfList) : Method unit :=
  checkGrammarOneOfList node ;;
  match ol_terminals node with
  | Some terminals =>
      forOfWith checkOneOfTerminal (Dictionary.new None) terminals ;; mret tt
  | None => mret tt
  end.

Definition checkProduction (node : Production) : Method unit :=
  checkGrammarProduction node ;;
  this ← getThis;
  (if noStrictParametricProductions this
   then checkProductionNonStrict node
   else checkProductionStrict node) ;;
  match pr_body node with
  | Some (BodyOneOfList body) => checkOneOfList body
  | Some (BodyRightHandSideList body) => checkRightHandSideList body
  | Some (BodyRightHandSide body) => checkRightHandSide body
  | _ => mret tt
  end.

Definition reportInvalidSourceElement (info : NodeInfo) : Method unit :=
  reportGrammarErrorForNode (AtNode SyntaxKind.InvalidSourceElement info) _0_expected
    (formatList [SyntaxKind.Production]) ;;
  mret tt.

Definition checkSourceElement (node : SourceElement) : Method unit :=
  match node with
  | ElementProduction p => checkProduction p
  | ElementInvalid info => reportInvalidSourceElement info
  | _ => mret tt
  end.

(** The method has no [return] at its end: for a directive with a key
    and a value it answers [undefined]. *)
Definition checkGrammarDefine (node : Define) : Method (option bool) :=
  match de_key node with
  | Some key =>
      if truthy (id_text key) then
        match de_valueToken node with
        | None => answered
                    (reportGrammarError (end_ (id_info key)) _0_expected
                       (formatList [SyntaxKind.TrueKeyword; SyntaxKind.FalseKeyword]))
        | Some _ => mret None
        end
      else answered
             (reportGrammarError (end_ (tk_info (de_defineKeyword node))) _0_expected
                (tokenToString SyntaxKind.Identifier))
  | None => answered
              (reportGrammarError (end_ (tk_info (de_defineKeyword node))) _0_expected
                 (tokenToString SyntaxKind.Identifier))
  end.

Definition preprocessDefine (node : Define) : Method unit :=
  reported ← checkGrammarDefine node;
  if negb (isTruthy reported) then
    nodeKey ← deref (de_key node);
    let nodeKeyText := id_text nodeKey in
    if bool_decide (nodeKeyText = Some "noStrictParametricProductions") then
      valueToken ← deref (de_valueToken node);
      setThis (λ this, with_noStrictParametricProductions this
                 (bool_decide (tk_kind valueToken = SyntaxKind.TrueKeyword)))
    else
      reportAt (atIdentifier nodeKey) Cannot_find_name_0_ [ArgText nodeKeyText]
  else mret tt.

Definition preprocessSourceElement (node : SourceElement) : Method unit :=
  match node with
  | ElementDefine d => preprocessDefine d
  | _ => mret tt
  end.

(** [this.cancellationToken.throwIfCancellationRequested()] *)
Definition throwIfCancellationRequested : Method unit :=
  this ← getThis;
  if cancellationRequested (cancellationToken this) then throw CancelError else mret tt.

Definition checkSourceFile (file : SourceFile) : Method unit :=
  this ← getThis;
  if negb (Dictionary.has (checkedFileSet this) (filename file)) then
    let savedNoStrictParametricProductions := noStrictParametricProductions this in
    throwIfCancellationRequested ;;
    setThis (λ this, with_productionParametersByName this (Some (Dictionary.new None))) ;;
    setThis (λ this, with_sourceFile this (Some file)) ;;
    (this ← getThis; setSourceFile (sourceFile this)) ;;
    forOf preprocessSourceElement (elements file) ;;
    forOf checkSourceElement (elements file) ;;
    setThis (λ this, with_sourceFile this None) ;;
    setThis (λ this, with_productionParametersByName this None) ;;
    setThis (λ this, with_noStrictParametricProductions this
               savedNoStrictParametricProductions) ;;
    setThis (λ this, with_checkedFileSet this
               (Dictionary.set (checkedFileSet this) (filename file) true))
  else mret tt.

(** [new Checker(bindings, diagnostics, options?, cancellationToken)], the
    token defaulting to [CancellationToken.none]. *)
Definition newChecker (bindings : BindingTable.t) (diagnostics : DiagnosticMessages)
    (options : option CompilerOptions) (cancellationToken : option CancellationToken)
    : Checker :=
  {| checkedFileSet := Dictionary.new None;
     bindings := bindings;
     diagnostics := diagnostics;
     sourceFile := None;
     noStrictParametricProductions :=
       default false (options ≫= opt_noStrictParametricProductions);
     productionParametersByName := None;
     cancellationToken := default {| cancellationRequested := false |} cancellationToken |}.

(** ** SHA-1 (the [createHash("sha1")] of the host's crypto module)

    Words are 32-bit integers in [Z] with the wrap-around written out; a
    text is hashed as the sequence of its bytes. *)

Module Sha1.
Local Open Scope Z_scope.

Definition word (x : Z) : Z := x mod 2 ^ 32.
Definition add (x y : Z) : Z := word (x + y).
Definition rotl (n x : Z) : Z :=
  word (Z.lor (Z.shiftl x n) (Z.shiftr x (32 - n))).
Definition not32 (x : Z) : Z := Z.lxor x 4294967295.

Definition padding (len : nat) : list Z :=
  128 :: replicate ((119 - len mod 64) mod 64)%nat 0.

Definition bigEndian (n : nat) (x : Z) : list Z :=
  map (λ i, Z.land (Z.shiftr x (8 * Z.of_nat i)) 255) (rev (seq 0 n)).

Definition pad (message : list Z) : list Z :=
  message ++ padding (length message) ++ bigEndian 8 (8 * Z.of_nat (length message)).

Fixpoint words (fuel : nat) (bytes : list Z) : list Z :=
  match fuel, bytes with
  | S fuel, a :: b :: c :: d :: rest =>
      (Z.shiftl a 24 + Z.shiftl b 16 + Z.shiftl c 8 + d) :: words fuel rest
  | _, _ => []
  end.

(** The message schedule, latest word first. *)
Fixpoint schedule (n : nat) (w : list Z) : list Z :=
  match n with
  | O => w
  | S n =>
      schedule n
        (rotl 1 (Z.lxor (Z.lxor (nth 2 w 0) (nth 7 w 0))
                        (Z.lxor (nth 13 w 0) (nth 15 w 0))) :: w)
  end.

Definition State : Type := Z * Z * Z * Z * Z.

Definition round (t : nat) (s : State) (w : Z) : State :=
  let '(a, b, c, d, e) := s in
  let '(f, k) :=
    if (t <? 20)%nat then (Z.lor (Z.land b c) (Z.land (not32 b) d), 1518500249)
    else if (t <? 40)%nat then (Z.lxor (Z.lxor b c) d, 1859775393)
    else if (t <? 60)%nat
         then (Z.lor (Z.lor (Z.land b c) (Z.land b d)) (Z.land c d), 2400959708)
    else (Z.lxor (Z.lxor b c) d, 3395469782) in
  (add (add (add (add (rotl 5 a) f) e) k) w, a, rotl 30 b, c, d).

Fixpoint rounds (t : nat) (s : State) (ws : list Z) : State :=
  match ws with
  | [] => s
  | w :: ws => rounds (S t) (round t s w) ws
  end.

Definition compress (h : State) (block : list Z) : State :=
  let w := rev (schedule 64 (rev (words 16 block))) in
  let '(a, b, c, d, e) := rounds 0 h w in
  let '(h0, h1, h2, h3, h4) := h in
  (add h0 a, add h1 b, add h2 c, add h3 d, add h4 e).

Fixpoint blocks (fuel : nat) (h : State) (bytes : list Z) : State :=
  match fuel, bytes with
  | S fuel, _ :: _ => blocks fuel (compress h (take 64 bytes)) (drop 64 bytes)
  | _, _ => h
  end.

Definition initial : State :=
  (1732584193, 4023233417, 2562383102, 271733878, 3285377520).

Definition digest (message : list Z) : State :=
  let bytes := pad message in
  blocks (length bytes) initial bytes.

Definition hexDigit (n : Z) : ascii :=
  nth (Z.to_nat n) (list_ascii_of_string "0123456789abcdef") "0"%char.

Definition hexWord (w : Z) : list ascii :=
  map (λ i, hexDigit (Z.land (Z.shiftr w (4 * Z.of_nat i)) 15)) (rev (seq 0 8)).

Definition bytesOfString (s : string) : list Z :=
  map (λ c, Z.of_N (N_of_ascii c)) (list_ascii_of_string s).

(** [hash.update(text, "utf8"); hash.digest("hex")] *)
Definition hex (text : string) : string :=
  let '(h0, h1, h2, h3, h4) := digest (bytesOfString text) in
  string_of_list_ascii
    (hexWord h0 ++ hexWord h1 ++ hexWord h2 ++ hexWord h3 ++ hexWord h4).

End Sha1.

(** ** Strings of the host, as far as the resolver uses them

    A text is the sequence of its UTF-8 bytes.  The operations below treat
    every byte outside the ASCII letters and digits alike, so they agree
    with the host's operations on UTF-16 code units. *)

Definition isLowerAlphanumeric (c : ascii) : bool :=
  let n := nat_of_ascii c in
  ((97 <=? n) && (n <=? 122) || (48 <=? n) && (n <=? 57))%nat.

(** [text.replace(/[^a-z0-9]+/g, '-')]: [inRun] tells that the previous
    character was already replaced. *)
Fixpoint replaceRuns (inRun : bool) (text : string) : string :=
  match text with
  | EmptyString => EmptyString
  | String c rest =>
      if isLowerAlphanumeric c then String c (replaceRuns false rest)
      else if inRun then replaceRuns true rest
      else String "-" (replaceRuns true rest)
  end.

Definition replaceNonAlphanumeric (text : string) : string := replaceRuns false text.

(** [text.toLowerCase()], on the ASCII letters (it is applied to a
    hexadecimal digest only). *)
Definition toLowerCase (text : string) : string :=
  string_of_list_ascii
    (map (λ c, let n := nat_of_ascii c in
               if ((65 <=? n) && (n <=? 90))%nat then ascii_of_nat (n + 32) else c)
         (list_ascii_of_string text)).

(** String concatenation with a value that may be [undefined]. *)
Definition toStringValue (text : option string) : string := Js.keyOfText text.

(** ** [StringWriter] (stringwriter.ts) *)

Module StringWriter.

(** Modelled from the spec: stringwriter.ts is not among the sources; the
    digest uses the writer as a text buffer that is appended to. *)
Record t := { text : string }.

Definition new : t := {| text := "" |}.
Definition size (w : t) : nat := String.length (text w).
Definition write (w : t) (s : string) : t := {| text := text w +:+ s |}.
Definition toString (w : t) : string := text w.

End StringWriter.

(** ** The class [RightHandSideDigest] *)

Record RightHandSideDigest := {
  spaceRequested : bool;                       (* [undefined] counts as false *)
  writer : option StringWriter.t }.

Abbreviation Writing := (Stateful RightHandSideDigest).

Definition setSpaceRequested (v : bool) : Writing unit :=
  setThis (λ this, {| spaceRequested := v; writer := writer this |}).

Definition writerWrite (s : string) : Writing unit :=
  this ← getThis;
  w ← deref (writer this);
  setThis (λ this, {| spaceRequested := spaceRequested this;
                      writer := Some (StringWriter.write w s) |}).

Definition write (text : option string) : Writing unit :=
  if truthy text then
    this ← getThis;
    w ← deref (writer this);
    (if spaceRequested this && bool_decide (StringWriter.size w ≠ 0%nat)
     then setSpaceRequested false ;; writerWrite " "
     else mret tt) ;;
    writerWrite (default "" text)
  else mret tt.

Section Digest.

(** tokens.ts is not among the sources: the text of a token kind
    ([tokenToString]) and the test that a kind lies between
    [FirstKeyword] and [LastKeyword] or between [FirstPunctuation] and
    [LastPunctuation] are parameters. *)
Variable tokenText : SyntaxKind.t → option string.
Variable isKeywordOrPunctuation : SyntaxKind.t → bool.

Definition writeToken (kind : SyntaxKind.t) : Writing unit :=
  write (tokenText kind) ;;
  setSpaceRequested true.

(** [writeNode] on a token: the default branch of its [switch]; a token
    has no children for [forEachChild] to visit. *)
Definition writeTokenNode (node : option Token) : Writing unit :=
  match node with
  | Some t => if isKeywordOrPunctuation (tk_kind t) then writeToken (tk_kind t) else mret tt
  | None => mret tt
  end.

Definition writeIdentifier (node : option Identifier) : Writing unit :=
  match node with
  | Some node => write (id_text node)
  | None => mret tt
  end.

Definition writeTerminal (node : Terminal) : Writing unit :=
  write (Some "`") ;;
  write (te_text node) ;;
  write (Some "`") ;;
  writeTokenNode (te_questionToken node) ;;
  setSpaceRequested true.

Definition writeUnicodeCharacterLiteral (node : option UnicodeCharacterLiteral)
    : Writing unit :=
  match node with
  | Some node =>
      write (Some "<") ;;
      write (uc_text node) ;;
      write (Some ">") ;;
      writeTokenNode (uc_questionToken node) ;;
      setSpaceRequested true
  | None => mret tt
  end.

Definition writeArgument (node : Argument) : Writing unit :=
  writeTokenNode (ar_operatorToken node) ;;
  writeIdentifier (Some (ar_name node)).

Definition writeArgumentList (node : option ArgumentList) : Writing unit :=
  match node with
  | Some node =>
      write (Some "[") ;;
      elements ← deref (al_elements node);
      forIndexed (λ later element,
                    (if (later : bool) then write (Some ", ") else mret tt) ;;
                    writeArgument element)
                 elements ;;
      write (Some "]")
  | None => mret tt
  end.

Definition writeNonterminal (node : Nonterminal) : Writing unit :=
  writeIdentifier (nt_name node) ;;
  writeArgumentList (nt_argumentList node) ;;
  writeTokenNode (nt_questionToken node) ;;
  setSpaceRequested true.

Definition writeProseFragmentLiteral (node : ProseFragmentLiteral) : Writing unit :=
  write (pf_text node).

Definition isProseLiteralKind (kind : SyntaxKind.t) : bool :=
  bool_decide (kind = SyntaxKind.ProseFull) || bool_decide (kind = SyntaxKind.ProseHead)
  || bool_decide (kind = SyntaxKind.ProseMiddle) || bool_decide (kind = SyntaxKind.ProseTail).

(** [writeNode] on a fragment of prose. *)
Definition writeFragment (fragment : ProseFragment) : Writing unit :=
  match fragment with
  | FragmentNonterminal n => writeNonterminal n
  | FragmentTerminal t => writeTerminal t
  | FragmentLiteral l =>
      if isProseLiteralKind (pf_kind l) then writeProseFragmentLiteral l
      else if isKeywordOrPunctuation (pf_kind l) then writeToken (pf_kind l)
      else mret tt
  | FragmentIdentifier i => writeIdentifier (Some i)
  end.

Definition writeProse (fragments : list ProseFragment) : Writing unit :=
  write (Some "> ") ;;
  forOf writeFragment fragments.

Definition writeEmptyAssertion : Writing unit :=
  write (Some "[empty]") ;;
  setSpaceRequested true.

Definition writeLexicalGoalAssertion (symbol : option Identifier) : Writing unit :=
  write (Some "[lexical goal ") ;;
  writeIdentifier symbol ;;
  setSpaceRequested false ;;
  write (Some "]") ;;
  setSpaceRequested true.

Definition writeParameterValueAssertion (operatorToken : option Token)
    (name : option Identifier) : Writing unit :=
  write (Some "[") ;;
  operatorToken ← deref operatorToken;
  writeToken (tk_kind operatorToken) ;;
  setSpaceRequested false ;;
  writeIdentifier name ;;
  write (Some "]") ;;
  setSpaceRequested true.

Definition writeProseAssertion (fragments : list ProseFragment) : Writing unit :=
  write (Some "[>") ;;
  setSpaceRequested false ;;
  forOf (λ fragment,
           match fragment with
           | FragmentIdentifier _ =>
               write (Some "|") ;;
               writeFragment fragment ;;
               setSpaceRequested false ;;
               write (Some "|")
           | _ => writeFragment fragment
           end)
        fragments ;;
  write (Some "]") ;;
  setSpaceRequested true.

Definition writeUnicodeCharacterRange (left : option UnicodeCharacterLiteral)
    (throughKeyword : option Token) (right : option UnicodeCharacterLiteral)
    : Writing unit :=
  writeUnicodeCharacterLiteral left ;;
  writeTokenNode throughKeyword ;;
  writeUnicodeCharacterLiteral right ;;
  setSpaceRequested true.

(** Modelled from the spec: [forEachChild] (nodes.ts is not among the
    sources) on the node kinds that reach the default branch of
    [writeNode]: an invalid assertion has its brackets as children, an
    invalid symbol has none. *)
Definition childrenOfInvalidAssertion (b : AssertionBrackets) : list (option Token) :=
  [as_openBracketToken b; as_closeBracketToken b].

(** [writeNode], on the symbols, spans and lookaheads of a right-hand
    side; the [write...] methods that recur are written in place. *)
Fixpoint writeSymbol (node : LexicalSymbol) : Writing unit :=
  match node with
  | SymTerminal t => writeTerminal t
  | SymUnicodeCharacterLiteral u => writeUnicodeCharacterLiteral (Some u)
  | SymUnicodeCharacterRange _ nodeLeft throughKeyword nodeRight =>
      writeUnicodeCharacterRange nodeLeft throughKeyword nodeRight
  | SymNonterminal n => writeNonterminal n
  | SymPlaceholder _ =>
      if isKeywordOrPunctuation SyntaxKind.AtToken
      then writeToken SyntaxKind.AtToken
      else mret tt
  | SymInvalid _ => mret tt
  | SymButNot _ nodeLeft butKeyword notKeyword nodeRight =>
      (* writeButNotSymbol *)
      writeSymbol nodeLeft ;;
      writeTokenNode butKeyword ;;
      writeTokenNode notKeyword ;;
      match nodeRight with
      | Some nodeRight => writeSymbol nodeRight
      | None => mret tt
      end ;;
      setSpaceRequested true
  | SymOneOf _ _ _ symbols =>
      (* writeOneOfSymbol *)
      write (Some "one of ") ;;
      match symbols with
      | Some symbols =>
          forIndexed (λ later symbol,
                        (if (later : bool) then write (Some " or ") else mret tt) ;;
                        writeSymbol symbol ;;
                        setSpaceRequested false)
                     symbols
      | None => throw TypeError
      end ;;
      setSpaceRequested true
  | SymProse _ fragments => writeProse fragments
  | SymEmptyAssertion _ _ => writeEmptyAssertion
  | SymLookaheadAssertion _ _ operatorToken lookahead =>
      (* writeLookaheadAssertion *)
      write (Some "[lookahead ") ;;
      writeTokenNode operatorToken ;;
      match lookahead with
      | Some (LookaheadSet _ _ elements _) =>
          (* writeSymbolSet *)
          write (Some "{ ") ;;
          match elements with
          | Some elements =>
              forIndexed (λ later element,
                            (if (later : bool) then write (Some ", ") else mret tt) ;;
                            writeSymbolSpan element ;;
                            setSpaceRequested false)
                         elements
          | None => throw TypeError
          end ;;
          write (Some " }") ;;
          setSpaceRequested true
      | Some (LookaheadSpan span) => writeSymbolSpan span
      | None => mret tt
      end ;;
      setSpaceRequested false ;;
      write (Some "]") ;;
      setSpaceRequested true
  | SymLexicalGoalAssertion _ _ _ symbol => writeLexicalGoalAssertion symbol
  | SymNoSymbolHereAssertion _ _ symbols _ =>
      (* writeNoSymbolHereAssertion *)
      write (Some "[no ") ;;
      match symbols with
      | Some symbols =>
          forIndexed (λ later symbol,
                        (if (later : bool) then write (Some " or ") else mret tt) ;;
                        writeSymbol symbol ;;
                        setSpaceRequested false)
                     symbols
      | None => throw TypeError
      end ;;
      write (Some " here]")
  | SymParameterValueAssertion _ operatorToken name =>
      writeParameterValueAssertion operatorToken name
  | SymProseAssertion _ fragments => writeProseAssertion fragments
  | SymInvalidAssertion b => forOf writeTokenNode (childrenOfInvalidAssertion b)
  end
with writeSymbolSpan (node : SymbolSpan) : Writing unit :=
  match node with
  | MkSymbolSpan _ symbol next =>
      match symbol with
      | Some symbol => writeSymbol symbol
      | None => mret tt
      end ;;
      match next with
      | Some next => writeSymbolSpan next
      | None => mret tt
      end
  end.

Definition newRightHandSideDigest : RightHandSideDigest :=
  {| spaceRequested := false; writer := None |}.

(** The first eight characters of the hexadecimal SHA-1 digest. *)
Definition digestPrefix (text : string) : string :=
  String.substring 0 8 (Sha1.hex text).

Definition computeHash (node : RightHandSide) : Writing string :=
  setThis (λ this, {| spaceRequested := spaceRequested this;
                      writer := Some StringWriter.new |}) ;;
  writeSymbolSpan (rhs_head node) ;;
  this ← getThis;
  w ← deref (writer this);
  mret (digestPrefix (StringWriter.toString w)).

(** ** The class [Resolver] *)

Definition getProductionLinkId (bindings : BindingTable.t) (node : Identifier)
    : option string :=
  sy_name <$> BindingTable.resolveSymbol bindings (Some (NodeIdentifier node))
                (id_text node) SymbolKind_Production.

Definition getRightHandSideLinkId (bindings : BindingTable.t) (node : RightHandSide)
    (includePrefix : bool) : Completion string :=
  let linkId : Completion string :=
    match rhs_reference node with
    | Some reference =>
        if truthy (lr_text reference)
        then Normal (replaceNonAlphanumeric (default "" (lr_text reference)))
        else
          match computeHash node newRightHandSideDigest with
          | (Normal hash, _) => Normal (toLowerCase hash)
          | (Throw e, _) => Throw e
          end
    | None =>
        match computeHash node newRightHandSideDigest with
        | (Normal hash, _) => Normal (toLowerCase hash)
        | (Throw e, _) => Throw e
        end
    end in
  match linkId with
  | Normal linkId =>
      if includePrefix then
        match asProduction (BindingTable.getAncestor bindings (rhs_info node)
                              SyntaxKind.Production) with
        | Some production =>
            let productionId := getProductionLinkId bindings (pr_name production) in
            Normal (toStringValue productionId +:+ "-" +:+ linkId)
        | None => Throw TypeError
        end
      else Normal linkId
  | Throw e => Throw e
  end.

End Digest.

(** ** Vocabulary of the properties *)

Definition fileOf (this : Checker) : option string := dm_sourceFile (diagnostics this).

Definition messagesOf (this : Checker) : list DiagnosticRecord :=
  dm_messages (diagnostics this).

(** The state [this] after [records] were reported. *)
Definition addMessages (this : Checker) (records : list DiagnosticRecord) : Checker :=
  with_diagnostics this
    {| dm_sourceFile := fileOf this; dm_messages := messagesOf this ++ records |}.

(** The records that a method adds when run on [this]. *)
Definition emitted {A} (m : Method A) (this : Checker) : list DiagnosticRecord :=
  drop (length (messagesOf this)) (messagesOf (m this).2).

Definition mkRecord (file : option string) (location : DiagnosticLocation)
    (message : Diagnostic) (arguments : list DiagnosticArgument) : DiagnosticRecord :=
  {| dr_filename := file; dr_location := location;
     dr_message := message; dr_arguments := arguments |}.

(** Each element of a list together with the elements before it. *)
Fixpoint withEarlierFrom {A} (earlier l : list A) : list (list A * A) :=
  match l with
  | [] => []
  | x :: rest => (earlier, x) :: withEarlierFrom (earlier ++ [x]) rest
  end.

Definition withEarlier {A} (l : list A) : list (list A * A) := withEarlierFrom [] l.

(** The key under which a name or text is stored in a dictionary. *)
Definition terminalKey (t : Terminal) : string := Js.keyOfText (te_text t).
Definition argumentText (a : Argument) : option string := id_text (ar_name a).
Definition argumentKey (a : Argument) : string := Js.keyOfText (argumentText a).
Definition parameterText (p : Parameter_) : option string := pa_name p ≫= id_text.
Definition parameterKey (p : Parameter_) : string := Js.keyOfText (parameterText p).

(** The parameters of a production, none when it has no parameter list. *)
Definition parametersOf (p : Production) : list Parameter_ :=
  default [] (pr_parameterList p ≫= pl_elements).

(** The set of names that [getProductionParametersByName] computes. *)
Definition parameterNames (p : Production) : Dictionary.t bool :=
  collectParameterNames (parametersOf p).

Definition hasMessage (message : Diagnostic) (record : DiagnosticRecord) : Prop :=
  dr_message record = message.

Global Instance hasMessage_dec message record : Decision (hasMessage message record).
Proof. unfold hasMessage. apply _. Defined.

(** *** The comparison of two declarations of a production *)

Definition missingParameter : Diagnostic :=
  Production_0_is_missing_parameter_1_All_definitions_of_production_0_must_specify_the_same_formal_parameters.

(** One record at [location] for each parameter of [parameters] whose name
    is not in [names]. *)
Definition missingParameterRecords (file : option string) (location : DiagnosticLocation)
    (productionName : option string) (names : Dictionary.t bool)
    (parameters : list Parameter_) : list DiagnosticRecord :=
  flat_map (λ parameter,
              if Dictionary.has names (parameterKey parameter) then []
              else [mkRecord file location missingParameter
                      [ArgText productionName; ArgText (parameterText parameter)]])
           parameters.

(** What the comparison of the declaration [this_] with the first
    declaration [first] reports. *)
Definition comparisonRecords (file : option string) (this_ first : Production)
    : list DiagnosticRecord :=
  missingParameterRecords file (atIdentifier (pr_name this_)) (id_text (pr_name this_))
    (parameterNames this_) (parametersOf first)
  ++ missingParameterRecords file (AtNode SyntaxKind.Production (pr_info first))
       (id_text (pr_name this_)) (parameterNames first) (parametersOf this_).

(** *** The arguments of a nonterminal against the parameters *)

(** What the loop over the arguments reports: for a name met before at the
    call site the argument is a duplicate; otherwise it must resolve to a
    parameter of the production. *)
Definition argumentRecords (file : option string) (bindings : BindingTable.t)
    (production : Production) (productionSymbol : Symbol) (arguments : list Argument)
    : list DiagnosticRecord :=
  flat_map (λ '(earlier, argument),
              if bool_decide (argumentKey argument ∈ argumentKey <$> earlier)
              then [mkRecord file (atIdentifier (ar_name argument))
                      Argument_0_cannot_be_specified_multiple_times
                      [ArgText (argumentText argument)]]
              else
                match BindingTable.resolveSymbol bindings (Some (NodeProduction production))
                        (argumentText argument) SymbolKind_Parameter with
                | None => [mkRecord file (atIdentifier (ar_name argument))
                             Production_0_does_not_have_a_parameter_named_1_
                             [ArgText (Some (sy_name productionSymbol));
                              ArgText (argumentText argument)]]
                | Some _ => []
                end)
           (withEarlier arguments).

(** What the loop over the parameters reports: one record at the name of
    the nonterminal for each parameter that no argument names. *)
Definition coverageRecords (file : option string) (nonterminalName : Identifier)
    (arguments : list Argument) (parameters : list Parameter_) : list DiagnosticRecord :=
  flat_map (λ parameter,
              if bool_decide (parameterKey parameter ∈ argumentKey <$> arguments) then []
              else [mkRecord file (atIdentifier nonterminalName)
                      There_is_no_argument_given_for_parameter_0_
                      [ArgText (parameterText parameter)]])
           parameters.

(** *** The terminals of a one-of list *)

(** What the loop over the terminals reports: a duplicate for a text met
    before in the list, and otherwise what the validation of the terminal
    reports. *)
Definition oneOfTerminalRecords (this : Checker) (terminals : list Terminal)
    : list DiagnosticRecord :=
  flat_map (λ '(earlier, terminal),
              if bool_decide (terminalKey terminal ∈ terminalKey <$> earlier)
              then [mkRecord (fileOf this) (AtNode SyntaxKind.Terminal (te_info terminal))
                      Duplicate_terminal_0_ [ArgText (te_text terminal)]]
              else emitted (checkTerminal terminal false) this)
           (withEarlier terminals).

(** *** The digest *)

Definition isLowerHex (c : ascii) : Prop := c ∈ list_ascii_of_string "0123456789abcdef".

(** The canonical text of the head of a right-hand side, as a fresh digest
    writes it. *)
Definition canonicalText (tokenText : SyntaxKind.t → option string)
    (isKeywordOrPunctuation : SyntaxKind.t → bool) (head : SymbolSpan) : Completion string :=
  match writeSymbolSpan tokenText isKeywordOrPunctuation head
          {| spaceRequested := false; writer := Some StringWriter.new |} with
  | (Normal _, {| writer := Some w |}) => Normal (StringWriter.toString w)
  | (Normal _, {| writer := None |}) => Throw TypeError
  | (Throw e, _) => Throw e
  end.

(** *** Methods that report

    Predicates on methods, by which the lemmas below follow what a method
    adds to the diagnostics. *)

(** A method that only reports, the records depending on nothing but the
    file being checked. *)
Definition Reporter {A} (m : Method A) : Prop :=
  ∀ this1 this2, fileOf this1 = fileOf this2 →
    ∃ a ds, m this1 = (Normal a, addMessages this1 ds)
            ∧ m this2 = (Normal a, addMessages this2 ds).

(** [this'] is [this] after records with allowed messages were reported
    (and anything but the sink was changed). *)
Definition reportsOnly (allowed : Diagnostic → Prop) (this this' : Checker) : Prop :=
  fileOf this' = fileOf this
  ∧ ∃ ds, messagesOf this' = messagesOf this ++ ds
          ∧ Forall (λ r, allowed (dr_message r)) ds.

(** However it completes, the method reports allowed messages only. *)
Definition Emits (allowed : Diagnostic → Prop) {A} (m : Method A) : Prop :=
  ∀ this, reportsOnly allowed this (m this).2.

(** *** The memo of parameter names *)

(** The memo of parameter names holds, for a production, nothing or the
    set that [getProductionParametersByName] computes for it. *)
Definition memoized (memo : Dictionary.t (Dictionary.t bool)) (p : Production) : Prop :=
  ∀ names, Dictionary.get memo (Js.keyOfNumber (id (pr_info p))) = Js.Data names →
           names = parameterNames p.

(** The record does not tell of a missing parameter. *)
Definition notMissingParameter (r : DiagnosticRecord) : Prop := ¬ hasMessage missingParameter r.

(** A method that completes and reports nothing about missing parameters,
    whatever was reported before. *)
Definition Harmless {A} (m : Method A) (this : Checker) : Prop :=
  ∀ reported, ∃ a ds, m (addMessages this reported) = (Normal a, addMessages this (reported ++ ds))
                      ∧ Forall notMissingParameter ds.

(** The parameters of a declaration are bound: each has a name, whose
    parent in the binding table is a parameter. *)
Definition parametersBound (bt : BindingTable.t) (parameters : list Parameter_) : Prop :=
  Forall (λ p, ∃ name parent,
            pa_name p = Some name
            ∧ BindingTable.getParent bt (id_info name) = Some (NodeParameter parent))
         parameters.

(** *** The arguments and the messages of a nonterminal *)

(** The arguments of a nonterminal, none when it has no argument list. *)
Definition argumentsOf (node : Nonterminal) : list Argument :=
  default [] (nt_argumentList node ≫= al_elements).

(** The messages that the loops of [checkNonterminalStrict], and nothing
    else in the check of a nonterminal, report. *)
Definition matchingMessage (message : Diagnostic) : Prop :=
  message = Argument_0_cannot_be_specified_multiple_times
  ∨ message = There_is_no_argument_given_for_parameter_0_.

(** Any other message. *)
Definition otherMessage (message : Diagnostic) : Prop := ¬ matchingMessage message.

(** *** The grammar of a production *)

(** The end of what precedes the colon of a production: of the parameter
    list when there is one, of the name otherwise. *)
Definition endOfHead (node : Production) : Z :=
  match pr_parameterList node with
  | Some parameterList => end_ (pl_info parameterList)
  | None => end_ (id_info (pr_name node))
  end.

(** The body of a production is absent or of a kind that is not allowed. *)
Definition bodyRejected (node : Production) : bool :=
  match pr_body node with
  | None | Some (BodyOther _ _) => true
  | Some _ => false
  end.

(** *** The checks of the grammar *)

(** The method reports nothing and answers false, or reports one record
    and answers true. *)
Definition reportsAtMostOnce (m : Method bool) : Prop :=
  ∀ this, m this = (Normal false, this)
          ∨ ∃ record, m this = (Normal true, addMessages this [record]).

(** The same for a method without [return] at its end: it reports nothing
    and answers [undefined], or reports one record and answers true. *)
Definition reportsOnceOrUndefined (m : Method (option bool)) : Prop :=
  ∀ this, m this = (Normal None, this)
          ∨ ∃ record, m this = (Normal (Some true), addMessages this [record]).

(** *** What the checks of the elements leave alone *)

(** The messages of the strict checks of parameters and arguments. *)
Definition strictOnly (message : Diagnostic) : Prop :=
  message = missingParameter ∨ matchingMessage message.

(** The messages that may be reported under a value of the flag
    [noStrictParametricProductions]. *)
Definition allowedUnder (noStrict : bool) (message : Diagnostic) : Prop :=
  noStrict = true → ¬ strictOnly message.

(** [this'] is [this] after checks: messages that the flag allows were
    added, for the same file; the set of checked files, the cancellation
    token, the source file and the flag are the same. *)
Definition checked (this this' : Checker) : Prop :=
  checkedFileSet this' = checkedFileSet this
  ∧ cancellationToken this' = cancellationToken this
  ∧ sourceFile this' = sourceFile this
  ∧ noStrictParametricProductions this' = noStrictParametricProductions this
  ∧ reportsOnly (allowedUnder (noStrictParametricProductions this)) this this'.

(** Started under the flag [noStrict], and however it completes, the
    method leaves a state that is [checked]. *)
Definition Checks (noStrict : bool) {A} (m : Method A) : Prop :=
  ∀ this, noStrictParametricProductions this = noStrict → checked this (m this).2.

(** [this'] is [this] with more messages; the set of checked files and
    the cancellation token are the same. *)
Definition advanced (this this' : Checker) : Prop :=
  checkedFileSet this' = checkedFileSet this
  ∧ cancellationToken this' = cancellationToken this
  ∧ ∃ records, messagesOf this' = messagesOf this ++ records.

(** How a call of [checkSourceFile] on [file] from [this] can end: thrown
    out of, with nothing but more messages; or completed, with the file
    added to the checked ones. *)
Definition ended (file : SourceFile) (this : Checker) (result : Completion unit * Checker)
    : Prop :=
  match result.1 with
  | Normal _ =>
      checkedFileSet result.2 = Dictionary.set (checkedFileSet this) (filename file) true
      ∧ cancellationToken result.2 = cancellationToken this
      ∧ ∃ records, messagesOf result.2 = messagesOf this ++ records
  | Throw _ => advanced this result.2
  end.

(** *** The directives of a file *)

(** The value that a source element gives to the flag
    [noStrictParametricProductions]: a [Define] of that name with a value
    token gives whether the token is [true]. *)
Definition directive (node : SourceElement) : option bool :=
  match node with
  | ElementDefine d =>
      match de_key d, de_valueToken d with
      | Some key, Some valueToken =>
          if bool_decide (id_text key = Some "noStrictParametricProductions")
          then Some (bool_decide (tk_kind valueToken = SyntaxKind.TrueKeyword))
          else None
      | _, _ => None
      end
  | _ => None
  end.

(** The flag after the directives of [elements], from [noStrict]: the last
    directive decides. *)
Definition strictnessAfter (elements : list SourceElement) (noStrict : bool) : bool :=
  foldl (λ noStrict element, default noStrict (directive element)) noStrict elements.

(** *** The same symbols at another place

    The syntax tree with every node given the id and the offsets that [f]
    makes of its own: the same text found elsewhere, in another file or
    after an edit before it. *)

Section Moved.

Variable f : NodeInfo → NodeInfo.

Definition movedToken (t : Token) : Token :=
  {| tk_kind := tk_kind t; tk_info := f (tk_info t) |}.

Definition movedIdentifier (i : Identifier) : Identifier :=
  {| id_info := f (id_info i); id_text := id_text i |}.

Definition movedArgument (a : Argument) : Argument :=
  {| ar_info := f (ar_info a);
     ar_operatorToken := movedToken <$> ar_operatorToken a;
     ar_name := movedIdentifier (ar_name a) |}.

Definition movedArgumentList (l : ArgumentList) : ArgumentList :=
  {| al_info := f (al_info l);
     al_openParenToken := movedToken <$> al_openParenToken l;
     al_elements := map movedArgument <$> al_elements l;
     al_closeParenToken := movedToken <$> al_closeParenToken l |}.

Definition movedNonterminal (n : Nonterminal) : Nonterminal :=
  {| nt_info := f (nt_info n);
     nt_name := movedIdentifier <$> nt_name n;
     nt_argumentList := movedArgumentList <$> nt_argumentList n;
     nt_questionToken := movedToken <$> nt_questionToken n |}.

Definition movedTerminal (t : Terminal) : Terminal :=
  {| te_info := f (te_info t);
     te_text := te_text t;
     te_questionToken := movedToken <$> te_questionToken t |}.

Definition movedUnicodeCharacterLiteral (u : UnicodeCharacterLiteral)
    : UnicodeCharacterLiteral :=
  {| uc_info := f (uc_info u);
     uc_text := uc_text u;
     uc_questionToken := movedToken <$> uc_questionToken u |}.

Definition movedProseFragment (fragment : ProseFragment) : ProseFragment :=
  match fragment with
  | FragmentNonterminal n => FragmentNonterminal (movedNonterminal n)
  | FragmentTerminal t => FragmentTerminal (movedTerminal t)
  | FragmentLiteral l =>
      FragmentLiteral {| pf_kind := pf_kind l; pf_info := f (pf_info l); pf_text := pf_text l |}
  | FragmentIdentifier i => FragmentIdentifier (movedIdentifier i)
  end.

Definition movedBrackets (b : AssertionBrackets) : AssertionBrackets :=
  {| as_info := f (as_info b);
     as_openBracketToken := movedToken <$> as_openBracketToken b;
     as_closeBracketToken := movedToken <$> as_closeBracketToken b |}.

Fixpoint movedSymbol (node : LexicalSymbol) : LexicalSymbol :=
  match node with
  | SymTerminal t => SymTerminal (movedTerminal t)
  | SymUnicodeCharacterLiteral u => SymUnicodeCharacterLiteral (movedUnicodeCharacterLiteral u)
  | SymUnicodeCharacterRange info nodeLeft throughKeyword nodeRight =>
      SymUnicodeCharacterRange (f info) (movedUnicodeCharacterLiteral <$> nodeLeft)
        (movedToken <$> throughKeyword) (movedUnicodeCharacterLiteral <$> nodeRight)
  | SymNonterminal n => SymNonterminal (movedNonterminal n)
  | SymPlaceholder info => SymPlaceholder (f info)
  | SymInvalid info => SymInvalid (f info)
  | SymButNot info nodeLeft butKeyword notKeyword nodeRight =>
      SymButNot (f info) (movedSymbol nodeLeft) (movedToken <$> butKeyword)
        (movedToken <$> notKeyword)
        (match nodeRight with
         | Some nodeRight => Some (movedSymbol nodeRight)
         | None => None
         end)
  | SymOneOf info oneKeyword ofKeyword symbols =>
      SymOneOf (f info) (movedToken <$> oneKeyword) (movedToken <$> ofKeyword)
        (match symbols with
         | Some symbols => Some (map movedSymbol symbols)
         | None => None
         end)
  | SymProse info fragments => SymProse (f info) (movedProseFragment <$> fragments)
  | SymEmptyAssertion b emptyKeyword =>
      SymEmptyAssertion (movedBrackets b) (movedToken <$> emptyKeyword)
  | SymLookaheadAssertion b lookaheadKeyword operatorToken lookahead =>
      SymLookaheadAssertion (movedBrackets b) (movedToken <$> lookaheadKeyword)
        (movedToken <$> operatorToken)
        (match lookahead with
         | Some (LookaheadSet info openBraceToken elements closeBraceToken) =>
             Some (LookaheadSet (f info) (movedToken <$> openBraceToken)
                     (match elements with
                      | Some elements => Some (map movedSymbolSpan elements)
                      | None => None
                      end)
                     (movedToken <$> closeBraceToken))
         | Some (LookaheadSpan span) => Some (LookaheadSpan (movedSymbolSpan span))
         | None => None
         end)
  | SymLexicalGoalAssertion b lexicalKeyword goalKeyword symbol =>
      SymLexicalGoalAssertion (movedBrackets b) (movedToken <$> lexicalKeyword)
        (movedToken <$> goalKeyword) (movedIdentifier <$> symbol)
  | SymNoSymbolHereAssertion b noKeyword symbols hereKeyword =>
      SymNoSymbolHereAssertion (movedBrackets b) (movedToken <$> noKeyword)
        (match symbols with
         | Some symbols => Some (map movedSymbol symbols)
         | None => None
         end)
        (movedToken <$> hereKeyword)
  | SymParameterValueAssertion b operatorToken name =>
      SymParameterValueAssertion (movedBrackets b) (movedToken <$> operatorToken)
        (movedIdentifier <$> name)
  | SymProseAssertion b fragments =>
      SymProseAssertion (movedBrackets b) (movedProseFragment <$> fragments)
  | SymInvalidAssertion b => SymInvalidAssertion (movedBrackets b)
  end
with movedSymbolSpan (node : SymbolSpan) : SymbolSpan :=
  match node with
  | MkSymbolSpan info symbol next =>
      MkSymbolSpan (f info)
        (match symbol with
         | Some symbol => Some (movedSymbol symbol)
         | None => None
         end)
        (match next with
         | Some next => Some (movedSymbolSpan next)
         | None => None
         end)
  end.

Definition movedRightHandSide (node : RightHandSide) : RightHandSide :=
  {| rhs_info := f (rhs_info node);
     rhs_head := movedSymbolSpan (rhs_head node);
     rhs_reference :=
       (λ reference, {| lr_info := f (lr_info reference); lr_text := lr_text reference |})
       <$> rhs_reference node |}.

End Moved.

(** ** Example grammars

    Small syntax trees with the binding tables that go with them, used to
    run the definitions above.  Offsets are those of the text shown with
    each grammar; the tables list the parent of every node on the way from
    an identifier to its production. *)

Module Examples.

Definition node (i : N) (p e : Z) : NodeInfo := {| id := i; pos := p; end_ := e |}.

Definition name (i : N) (p e : Z) (text : string) : Identifier :=
  {| id_info := node i p e; id_text := Some text |}.

Definition token (kind : SyntaxKind.t) (i : N) (p e : Z) : Token :=
  {| tk_kind := kind; tk_info := node i p e |}.

Definition terminal (i : N) (p e : Z) (text : string) : Terminal :=
  {| te_info := node i p e; te_text := Some text; te_questionToken := None |}.

(** A right-hand side that is one terminal; ids [i], [i + 1], [i + 2]. *)
Definition terminalRightHandSide (i : N) (p e : Z) (text : string) : RightHandSide :=
  {| rhs_info := node i p e;
     rhs_head := MkSymbolSpan (node (i + 1) p e)
                   (Some (SymTerminal (terminal (i + 2) p e text))) None;
     rhs_reference := None |}.

Definition noMessages : DiagnosticMessages := {| dm_sourceFile := None; dm_messages := [] |}.

Definition noBindings : BindingTable.t :=
  {| BindingTable.parentMap := ∅; BindingTable.symbolMap := ∅;
     BindingTable.globalScope := ∅; BindingTable.parameterScopes := ∅;
     BindingTable.declarationMap := ∅; BindingTable.referenceMap := ∅ |}.

(** A checker after cancellation was requested. *)
Definition cancelled (this : Checker) : Checker :=
  {| checkedFileSet := checkedFileSet this; bindings := bindings this;
     diagnostics := diagnostics this; sourceFile := sourceFile this;
     noStrictParametricProductions := noStrictParametricProductions this;
     productionParametersByName := productionParametersByName this;
     cancellationToken := {| cancellationRequested := true |} |}.

(** A token table for the digest. *)
Definition tokenText (kind : SyntaxKind.t) : option string :=
  match kind with
  | SyntaxKind.AtToken => Some "@"
  | SyntaxKind.PlusToken => Some "+"
  | SyntaxKind.TildeToken => Some "~"
  | SyntaxKind.QuestionToken => Some "?"
  | SyntaxKind.ButKeyword => Some "but"
  | SyntaxKind.NotKeyword => Some "not"
  | SyntaxKind.ThroughKeyword => Some "through"
  | _ => None
  end.

Definition isKeywordOrPunctuation (kind : SyntaxKind.t) : bool :=
  bool_decide (is_Some (tokenText kind)).

(** *** directive.grammar
<<
@define noStrictParametricProductions true
@define unknownOption false
A : `a`
>> *)
Module Directive.

Definition strictness : Define :=
  {| de_info := node 1 0 42;
     de_defineKeyword := token SyntaxKind.DefineKeyword 2 0 7;
     de_key := Some (name 3 8 37 "noStrictParametricProductions");
     de_valueToken := Some (token SyntaxKind.TrueKeyword 4 38 42) |}.

Definition unknown : Define :=
  {| de_info := node 5 43 70;
     de_defineKeyword := token SyntaxKind.DefineKeyword 6 43 50;
     de_key := Some (name 7 51 64 "unknownOption");
     de_valueToken := Some (token SyntaxKind.FalseKeyword 8 65 70) |}.

Definition productionA : Production :=
  {| pr_info := node 9 71 78;
     pr_name := name 10 71 72 "A";
     pr_parameterList := None;
     pr_colonToken := Some (token SyntaxKind.ColonToken 11 73 74);
     pr_body := Some (BodyRightHandSide (terminalRightHandSide 12 75 78 "a")) |}.

Definition file : SourceFile :=
  {| sf_info := node 0 0 78;
     filename := "directive.grammar";
     elements := [ElementDefine strictness; ElementDefine unknown;
                  ElementProduction productionA] |}.

Definition symbolA : Symbol :=
  {| sy_id := 100; sy_name := "A"; sy_kind := SymbolKind_Production |}.

Definition table : BindingTable.t :=
  {| BindingTable.parentMap :=
       list_to_map [(1%N, NodeOther SyntaxKind.SourceFile (node 0 0 78));
                    (3%N, NodeOther SyntaxKind.Define (node 1 0 42));
                    (5%N, NodeOther SyntaxKind.SourceFile (node 0 0 78));
                    (7%N, NodeOther SyntaxKind.Define (node 5 43 70));
                    (9%N, NodeOther SyntaxKind.SourceFile (node 0 0 78));
                    (10%N, NodeProduction productionA)];
     BindingTable.symbolMap := {[ 9%N := symbolA ]};
     BindingTable.globalScope := {[ "A" := symbolA ]};
     BindingTable.parameterScopes := ∅;
     BindingTable.declarationMap := {[ 100%N := [NodeProduction productionA] ]};
     BindingTable.referenceMap := ∅ |}.

(** A checker in strict mode that has checked nothing yet. *)
Definition checker : Checker := newChecker table noMessages None None.

(** A second file, empty. *)
Definition other : SourceFile :=
  {| sf_info := node 200 0 0; filename := "other.grammar"; elements := [] |}.

End Directive.

(** *** declarations.grammar
<<
P[x] : `a`
P[y] : `b`
>> *)
Module Declarations.

Definition parameterX : Parameter_ :=
  {| pa_info := node 5 2 3; pa_name := Some (name 6 2 3 "x") |}.

Definition first : Production :=
  {| pr_info := node 1 0 10;
     pr_name := name 2 0 1 "P";
     pr_parameterList :=
       Some {| pl_info := node 3 1 4;
               pl_openParenToken := Some (token SyntaxKind.OpenBracketToken 4 1 2);
               pl_elements := Some [parameterX];
               pl_closeParenToken := Some (token SyntaxKind.CloseBracketToken 7 3 4) |};
     pr_colonToken := Some (token SyntaxKind.ColonToken 8 5 6);
     pr_body := Some (BodyRightHandSide (terminalRightHandSide 9 7 10 "a")) |}.

Definition parameterY : Parameter_ :=
  {| pa_info := node 25 13 14; pa_name := Some (name 26 13 14 "y") |}.

Definition second : Production :=
  {| pr_info := node 21 11 21;
     pr_name := name 22 11 12 "P";
     pr_parameterList :=
       Some {| pl_info := node 23 12 15;
               pl_openParenToken := Some (token SyntaxKind.OpenBracketToken 24 12 13);
               pl_elements := Some [parameterY];
               pl_closeParenToken := Some (token SyntaxKind.CloseBracketToken 27 14 15) |};
     pr_colonToken := Some (token SyntaxKind.ColonToken 28 16 17);
     pr_body := Some (BodyRightHandSide (terminalRightHandSide 29 18 21 "b")) |}.

Definition file : SourceFile :=
  {| sf_info := node 0 0 21;
     filename := "declarations.grammar";
     elements := [ElementProduction first; ElementProduction second] |}.

Definition symbolP : Symbol :=
  {| sy_id := 100; sy_name := "P"; sy_kind := SymbolKind_Production |}.
Definition symbolX : Symbol :=
  {| sy_id := 101; sy_name := "x"; sy_kind := SymbolKind_Parameter |}.
Definition symbolY : Symbol :=
  {| sy_id := 102; sy_name := "y"; sy_kind := SymbolKind_Parameter |}.

Definition table : BindingTable.t :=
  {| BindingTable.parentMap :=
       list_to_map [(1%N, NodeOther SyntaxKind.SourceFile (node 0 0 21));
                    (2%N, NodeProduction first);
                    (3%N, NodeProduction first);
                    (5%N, NodeOther SyntaxKind.ParameterList (node 3 1 4));
                    (6%N, NodeParameter parameterX);
                    (21%N, NodeOther SyntaxKind.SourceFile (node 0 0 21));
                    (22%N, NodeProduction second);
                    (23%N, NodeProduction second);
                    (25%N, NodeOther SyntaxKind.ParameterList (node 23 12 15));
                    (26%N, NodeParameter parameterY)];
     BindingTable.symbolMap :=
       list_to_map [(1%N, symbolP); (21%N, symbolP); (5%N, symbolX); (25%N, symbolY)];
     BindingTable.globalScope := {[ "P" := symbolP ]};
     BindingTable.parameterScopes :=
       {[ 100%N := list_to_map [("x", symbolX); ("y", symbolY)] ]};
     BindingTable.declarationMap :=
       list_to_map [(100%N, [NodeProduction first; NodeProduction second]);
                    (101%N, [NodeParameter parameterX]);
                    (102%N, [NodeParameter parameterY])];
     BindingTable.referenceMap := ∅ |}.

(** The checker at the start of the checking pass over the file. *)
Definition checker : Checker :=
  {| checkedFileSet := Dictionary.new None;
     bindings := table;
     diagnostics := {| dm_sourceFile := Some "declarations.grammar"; dm_messages := [] |};
     sourceFile := Some file;
     noStrictParametricProductions := false;
     productionParametersByName := Some (Dictionary.new None);
     cancellationToken := {| cancellationRequested := false |} |}.

End Declarations.

(** *** repeated.grammar
<<
P[x, x] : `a`
P : `b`
>> *)
Module Repeated.

Definition parameterX1 : Parameter_ :=
  {| pa_info := node 5 2 3; pa_name := Some (name 6 2 3 "x") |}.
Definition parameterX2 : Parameter_ :=
  {| pa_info := node 7 5 6; pa_name := Some (name 8 5 6 "x") |}.

Definition first : Production :=
  {| pr_info := node 1 0 13;
     pr_name := name 2 0 1 "P";
     pr_parameterList :=
       Some {| pl_info := node 3 1 7;
               pl_openParenToken := Some (token SyntaxKind.OpenBracketToken 4 1 2);
               pl_elements := Some [parameterX1; parameterX2];
               pl_closeParenToken := Some (token SyntaxKind.CloseBracketToken 9 6 7) |};
     pr_colonToken := Some (token SyntaxKind.ColonToken 10 8 9);
     pr_body := Some (BodyRightHandSide (terminalRightHandSide 11 10 13 "a")) |}.

Definition second : Production :=
  {| pr_info := node 21 14 21;
     pr_name := name 22 14 15 "P";
     pr_parameterList := None;
     pr_colonToken := Some (token SyntaxKind.ColonToken 23 16 17);
     pr_body := Some (BodyRightHandSide (terminalRightHandSide 24 18 21 "b")) |}.

Definition file : SourceFile :=
  {| sf_info := node 0 0 21;
     filename := "repeated.grammar";
     elements := [ElementProduction first; ElementProduction second] |}.

Definition symbolP : Symbol :=
  {| sy_id := 100; sy_name := "P"; sy_kind := SymbolKind_Production |}.
Definition symbolX : Symbol :=
  {| sy_id := 101; sy_name := "x"; sy_kind := SymbolKind_Parameter |}.

Definition table : BindingTable.t :=
  {| BindingTable.parentMap :=
       list_to_map [(1%N, NodeOther SyntaxKind.SourceFile (node 0 0 21));
                    (2%N, NodeProduction first);
                    (3%N, NodeProduction first);
                    (5%N, NodeOther SyntaxKind.ParameterList (node 3 1 7));
                    (6%N, NodeParameter parameterX1);
                    (7%N, NodeOther SyntaxKind.ParameterList (node 3 1 7));
                    (8%N, NodeParameter parameterX2);
                    (21%N, NodeOther SyntaxKind.SourceFile (node 0 0 21));
                    (22%N, NodeProduction second)];
     BindingTable.symbolMap :=
       list_to_map [(1%N, symbolP); (21%N, symbolP); (5%N, symbolX); (7%N, symbolX)];
     BindingTable.globalScope := {[ "P" := symbolP ]};
     BindingTable.parameterScopes := {[ 100%N := {[ "x" := symbolX ]} ]};
     BindingTable.declarationMap :=
       list_to_map [(100%N, [NodeProduction first; NodeProduction second]);
                    (101%N, [NodeParameter parameterX1; NodeParameter parameterX2])];
     BindingTable.referenceMap := ∅ |}.

Definition checker : Checker :=
  {| checkedFileSet := Dictionary.new None;
     bindings := table;
     diagnostics := {| dm_sourceFile := Some "repeated.grammar"; dm_messages := [] |};
     sourceFile := Some file;
     noStrictParametricProductions := false;
     productionParametersByName := Some (Dictionary.new None);
     cancellationToken := {| cancellationRequested := false |} |}.

End Repeated.

(** *** calls.grammar
<<
Q[a, b] : `q`
R : Q[+a]
S : Q[+a, +a]
T : Q[+z]
>> *)
Module Calls.

Definition parameterA : Parameter_ :=
  {| pa_info := node 5 2 3; pa_name := Some (name 6 2 3 "a") |}.
Definition parameterB : Parameter_ :=
  {| pa_info := node 7 5 6; pa_name := Some (name 8 5 6 "b") |}.

Definition productionQ : Production :=
  {| pr_info := node 1 0 13;
     pr_name := name 2 0 1 "Q";
     pr_parameterList :=
       Some {| pl_info := node 3 1 7;
               pl_openParenToken := Some (token SyntaxKind.OpenBracketToken 4 1 2);
               pl_elements := Some [parameterA; parameterB];
               pl_closeParenToken := Some (token SyntaxKind.CloseBracketToken 9 6 7) |};
     pr_colonToken := Some (token SyntaxKind.ColonToken 10 8 9);
     pr_body := Some (BodyRightHandSide (terminalRightHandSide 11 10 13 "q")) |}.

Definition argument (i : N) (p : Z) (text : string) : Argument :=
  {| ar_info := node i p (p + 2);
     ar_operatorToken := Some (token SyntaxKind.PlusToken (i + 1) p (p + 1));
     ar_name := name (i + 2) (p + 1) (p + 2) text |}.

(** [Q[+a]] in the production R. *)
Definition missingB : Nonterminal :=
  {| nt_info := node 31 18 23;
     nt_name := Some (name 32 18 19 "Q");
     nt_argumentList :=
       Some {| al_info := node 33 19 23;
               al_openParenToken := Some (token SyntaxKind.OpenBracketToken 34 19 20);
               al_elements := Some [argument 35 20 "a"];
               al_closeParenToken := Some (token SyntaxKind.CloseBracketToken 38 22 23) |};
     nt_questionToken := None |}.

(** [Q[+a, +a]] in the production S. *)
Definition duplicateA : Nonterminal :=
  {| nt_info := node 41 28 37;
     nt_name := Some (name 42 28 29 "Q");
     nt_argumentList :=
       Some {| al_info := node 43 29 37;
               al_openParenToken := Some (token SyntaxKind.OpenBracketToken 44 29 30);
               al_elements := Some [argument 45 30 "a"; argument 48 34 "a"];
               al_closeParenToken := Some (token SyntaxKind.CloseBracketToken 51 36 37) |};
     nt_questionToken := None |}.

(** [Q[+z]] in the production T. *)
Definition unknownZ : Nonterminal :=
  {| nt_info := node 61 42 47;
     nt_name := Some (name 62 42 43 "Q");
     nt_argumentList :=
       Some {| al_info := node 63 43 47;
               al_openParenToken := Some (token SyntaxKind.OpenBracketToken 64 43 44);
               al_elements := Some [argument 65 44 "z"];
               al_closeParenToken := Some (token SyntaxKind.CloseBracketToken 68 46 47) |};
     nt_questionToken := None |}.

Definition symbolQ : Symbol :=
  {| sy_id := 100; sy_name := "Q"; sy_kind := SymbolKind_Production |}.
Definition symbolA : Symbol :=
  {| sy_id := 101; sy_name := "a"; sy_kind := SymbolKind_Parameter |}.
Definition symbolB : Symbol :=
  {| sy_id := 102; sy_name := "b"; sy_kind := SymbolKind_Parameter |}.

Definition table : BindingTable.t :=
  {| BindingTable.parentMap :=
       list_to_map [(2%N, NodeProduction productionQ);
                    (3%N, NodeProduction productionQ);
                    (5%N, NodeOther SyntaxKind.ParameterList (node 3 1 7));
                    (6%N, NodeParameter parameterA);
                    (7%N, NodeOther SyntaxKind.ParameterList (node 3 1 7));
                    (8%N, NodeParameter parameterB);
                    (32%N, NodeNonterminal missingB);
                    (33%N, NodeNonterminal missingB);
                    (35%N, NodeOther SyntaxKind.ArgumentList (node 33 19 23));
                    (37%N, NodeArgument (argument 35 20 "a"));
                    (42%N, NodeNonterminal duplicateA);
                    (43%N, NodeNonterminal duplicateA);
                    (45%N, NodeOther SyntaxKind.ArgumentList (node 43 29 37));
                    (47%N, NodeArgument (argument 45 30 "a"));
                    (48%N, NodeOther SyntaxKind.ArgumentList (node 43 29 37));
                    (50%N, NodeArgument (argument 48 34 "a"));
                    (62%N, NodeNonterminal unknownZ);
                    (63%N, NodeNonterminal unknownZ);
                    (65%N, NodeOther SyntaxKind.ArgumentList (node 63 43 47));
                    (67%N, NodeArgument (argument 65 44 "z"))];
     BindingTable.symbolMap :=
       list_to_map [(1%N, symbolQ); (5%N, symbolA); (7%N, symbolB)];
     BindingTable.globalScope := {[ "Q" := symbolQ ]};
     BindingTable.parameterScopes :=
       {[ 100%N := list_to_map [("a", symbolA); ("b", symbolB)] ]};
     BindingTable.declarationMap :=
       list_to_map [(100%N, [NodeProduction productionQ]);
                    (101%N, [NodeParameter parameterA]);
                    (102%N, [NodeParameter parameterB])];
     BindingTable.referenceMap := ∅ |}.

Definition checker : Checker :=
  {| checkedFileSet := Dictionary.new None;
     bindings := table;
     diagnostics := {| dm_sourceFile := Some "calls.grammar"; dm_messages := [] |};
     sourceFile := None;
     noStrictParametricProductions := false;
     productionParametersByName := Some (Dictionary.new None);
     cancellationToken := {| cancellationRequested := false |} |}.

End Calls.

(** *** A one-of list: [one of `a` `b` `a`] *)
Definition oneOfABA : OneOfList :=
  {| ol_info := node 1 0 18;
     ol_oneKeyword := Some (token SyntaxKind.OneKeyword 2 0 3);
     ol_ofKeyword := Some (token SyntaxKind.OfKeyword 3 4 6);
     ol_openIndentToken := None;
     ol_terminals := Some [terminal 4 7 10 "a"; terminal 5 11 14 "b"; terminal 6 15 18 "a"];
     ol_closeIndentToken := None |}.

(** *** A one-of list of a terminal without text and the terminal
    [`undefined`] *)
Definition withoutText : Terminal :=
  {| te_info := node 4 7 7; te_text := None; te_questionToken := None |}.

Definition oneOfUndefined : OneOfList :=
  {| ol_info := node 1 0 19;
     ol_oneKeyword := Some (token SyntaxKind.OneKeyword 2 0 3);
     ol_ofKeyword := Some (token SyntaxKind.OfKeyword 3 4 6);
     ol_openIndentToken := None;
     ol_terminals := Some [withoutText; terminal 5 8 19 "undefined"];
     ol_closeIndentToken := None |}.

(** *** A production without body: [A :] *)
Definition withoutBody : Production :=
  {| pr_info := node 1 0 3;
     pr_name := name 2 0 1 "A";
     pr_parameterList := None;
     pr_colonToken := Some (token SyntaxKind.ColonToken 3 2 3);
     pr_body := None |}.

(** *** labelled.grammar: a right-hand side with a link reference
<<
P : `a` #My Label
>> *)
Module Labelled.

Definition alternative : RightHandSide :=
  {| rhs_info := node 4 4 17;
     rhs_head := MkSymbolSpan (node 5 4 7) (Some (SymTerminal (terminal 6 4 7 "a"))) None;
     rhs_reference := Some {| lr_info := node 7 8 17; lr_text := Some "My Label" |} |}.

Definition productionP : Production :=
  {| pr_info := node 1 0 17;
     pr_name := name 2 0 1 "P";
     pr_parameterList := None;
     pr_colonToken := Some (token SyntaxKind.ColonToken 3 2 3);
     pr_body := Some (BodyRightHandSide alternative) |}.

Definition symbolP : Symbol :=
  {| sy_id := 100; sy_name := "P"; sy_kind := SymbolKind_Production |}.

Definition table : BindingTable.t :=
  {| BindingTable.parentMap :=
       list_to_map [(2%N, NodeProduction productionP); (4%N, NodeProduction productionP)];
     BindingTable.symbolMap := {[ 1%N := symbolP ]};
     BindingTable.globalScope := {[ "P" := symbolP ]};
     BindingTable.parameterScopes := ∅;
     BindingTable.declarationMap := {[ 100%N := [NodeProduction productionP] ]};
     BindingTable.referenceMap := ∅ |}.

(** The same alternative without its link reference. *)
Definition unlabelled : RightHandSide :=
  {| rhs_info := node 4 4 7;
     rhs_head := rhs_head alternative;
     rhs_reference := None |}.

End Labelled.

End Examples.

(** The checker after directive.grammar was checked. *)
Definition afterDirective : Checker :=
  (checkSourceFile Examples.Directive.file Examples.Directive.checker).2.

(** *** broken.grammar: a right-hand side that ends in a span without symbol
<<
@define noStrictParametricProductions true
A : `a`
>> *)
Module Broken.

Definition strictness : Define :=
  {| de_info := Examples.node 1 0 42;
     de_defineKeyword := Examples.token SyntaxKind.DefineKeyword 2 0 7;
     de_key := Some (Examples.name 3 8 37 "noStrictParametricProductions");
     de_valueToken := Some (Examples.token SyntaxKind.TrueKeyword 4 38 42) |}.

Definition alternative : RightHandSide :=
  {| rhs_info := Examples.node 8 47 50;
     rhs_head :=
       MkSymbolSpan (Examples.node 9 47 50)
         (Some (SymTerminal (Examples.terminal 10 47 50 "a")))
         (Some (MkSymbolSpan (Examples.node 11 50 50) None None));
     rhs_reference := None |}.

Definition productionA : Production :=
  {| pr_info := Examples.node 5 43 50;
     pr_name := Examples.name 6 43 44 "A";
     pr_parameterList := None;
     pr_colonToken := Some (Examples.token SyntaxKind.ColonToken 7 45 46);
     pr_body := Some (BodyRightHandSide alternative) |}.

Definition file : SourceFile :=
  {| sf_info := Examples.node 0 0 50;
     filename := "broken.grammar";
     elements := [ElementDefine strictness; ElementProduction productionA] |}.

Definition symbolA : Symbol :=
  {| sy_id := 100; sy_name := "A"; sy_kind := SymbolKind_Production |}.

Definition table : BindingTable.t :=
  {| BindingTable.parentMap :=
       list_to_map [(3%N, NodeOther SyntaxKind.Define (Examples.node 1 0 42));
                    (6%N, NodeProduction productionA)];
     BindingTable.symbolMap := {[ 5%N := symbolA ]};
     BindingTable.globalScope := {[ "A" := symbolA ]};
     BindingTable.parameterScopes := ∅;
     BindingTable.declarationMap := {[ 100%N := [NodeProduction productionA] ]};
     BindingTable.referenceMap := ∅ |}.

(** A checker in strict mode that has checked nothing yet. *)
Definition checker : Checker := newChecker table Examples.noMessages None None.

End Broken.

#[local] Set Warnings "-clear-no-such-hyp".

(** * Properties *)

(** ** [Dictionary] *)

Section DictionaryFacts.
Context {T : Type}.
Implicit Types (d : Dictionary.t T) (key : string).

Lemma Dictionary_set_props d key (v : T) :
  Dictionary.props (Dictionary.set d key v) = <[key := v]> (Dictionary.props d).
Proof.
  unfold Dictionary.set, Dictionary.ofObject, Js.set, Dictionary.toObject; simpl.
  by destruct (Dictionary.props d !! key).
Qed.

Lemma Dictionary_has_lookup d key :
  Dictionary.has d key = true ↔ is_Some (Dictionary.props d !! key).
Proof. unfold Dictionary.has, Js.hasOwnProperty; simpl. apply bool_decide_eq_true. Qed.

Lemma Dictionary_get_lookup d key :
  Dictionary.get d key =
  match Dictionary.props d !! key with Some v => Js.Data v | None => Js.Undefined end.
Proof.
  unfold Dictionary.get. destruct (Dictionary.has d key) eqn:E.
  - apply Dictionary_has_lookup in E as [v Hv].
    unfold Js.get, Dictionary.toObject; simpl. by rewrite Hv.
  - destruct (Dictionary.props d !! key) eqn:Hv; [|done].
    assert (Dictionary.has d key = true) by (apply Dictionary_has_lookup; eauto).
    congruence.
Qed.

Lemma Js_get_own d key (v : T) :
  Dictionary.props d !! key = Some v → Js.get (Dictionary.toObject d) key = Js.Data v.
Proof. intros H. unfold Js.get, Dictionary.toObject; simpl. by rewrite H. Qed.

Lemma Dictionary_has_set d key (v : T) key' :
  Dictionary.has (Dictionary.set d key v) key' =
  bool_decide (key = key') || Dictionary.has d key'.
Proof.
  apply eq_true_iff_eq.
  rewrite orb_true_iff, !Dictionary_has_lookup, bool_decide_eq_true, Dictionary_set_props.
  rewrite lookup_insert_is_Some. destruct (decide (key = key')); tauto.
Qed.

Lemma Dictionary_has_new key : Dictionary.has (Dictionary.new (T := T) None) key = false.
Proof.
  unfold Dictionary.has, Js.hasOwnProperty; simpl.
  apply bool_decide_eq_false. rewrite lookup_empty. by intros [].
Qed.

Lemma filter_all {A} (P : A → Prop) `{∀ x, Decision (P x)} (l : list A) :
  Forall P l → filter P l = l.
Proof.
  induction 1 as [|x l Hx _ IH]; [done|].
  by rewrite filter_cons_True, IH.
Qed.

Lemma Dictionary_ownKeys_props d :
  Dictionary.ownKeys d = (map_to_list (Dictionary.props d)).*1.
Proof.
  unfold Dictionary.ownKeys, Js.forIn, Dictionary.toObject; simpl.
  rewrite app_nil_r. apply filter_all, Forall_forall.
  intros key [[k v] [-> Hin]]%list_elem_of_fmap; simpl.
  apply Dictionary_has_lookup. apply elem_of_map_to_list in Hin. eauto.
Qed.

Lemma foldl_snoc {A B} (f : A → B) (l : list A) (acc : list B) :
  foldl (λ result x, result ++ [f x]) acc l = acc ++ (f <$> l).
Proof.
  revert acc; induction l as [|x l IH]; intros acc; simpl.
  - by rewrite app_nil_r.
  - by rewrite IH, <- app_assoc.
Qed.

Lemma Dictionary_keys_props d : Dictionary.keys d = (map_to_list (Dictionary.props d)).*1.
Proof.
  unfold Dictionary.keys. rewrite (foldl_snoc (λ key : string, key)); simpl.
  rewrite list_fmap_id. apply Dictionary_ownKeys_props.
Qed.

Lemma Dictionary_get_of_entry d kv :
  kv ∈ map_to_list (Dictionary.props d) → Dictionary.get d kv.1 = Js.Data kv.2.
Proof.
  destruct kv as [k v]. intros Hin%elem_of_map_to_list; simpl.
  by rewrite Dictionary_get_lookup, Hin.
Qed.

Lemma Dictionary_entries_props d :
  Dictionary.entries d = (λ kv, (kv.1, Js.Data kv.2)) <$> map_to_list (Dictionary.props d).
Proof.
  unfold Dictionary.entries.
  rewrite (foldl_snoc (λ key, (key, Dictionary.get d key))); simpl.
  rewrite Dictionary_ownKeys_props, <- list_fmap_compose.
  apply Forall_fmap_ext, Forall_forall. intros kv Hin; simpl.
  by rewrite Dictionary_get_of_entry.
Qed.

Lemma Dictionary_values_props d :
  Dictionary.values d = (λ kv, Js.Data kv.2) <$> map_to_list (Dictionary.props d).
Proof.
  unfold Dictionary.values.
  rewrite (foldl_snoc (λ key, Dictionary.get d key)); simpl.
  rewrite Dictionary_ownKeys_props, <- list_fmap_compose.
  apply Forall_fmap_ext, Forall_forall. intros kv Hin; simpl.
  by rewrite Dictionary_get_of_entry.
Qed.

Lemma Dictionary_forEach_props {A} d (f : A → T → string → A) (a : A) :
  Dictionary.forEach d f a =
  foldl (λ a kv, f a kv.2 kv.1) a (map_to_list (Dictionary.props d)).
Proof.
  unfold Dictionary.forEach. rewrite Dictionary_ownKeys_props.
  assert (∀ l, l ⊆ map_to_list (Dictionary.props d) → ∀ a,
            foldl (λ a key,
                     match Js.get (Dictionary.toObject d) key with
                     | Js.Data value => f a value key
                     | _ => a
                     end) a l.*1
            = foldl (λ a kv, f a kv.2 kv.1) a l) as Hl.
  { induction l as [|[k v] l IH]; intros Hsub a'; [done|]. simpl.
    assert (Dictionary.props d !! k = Some v) as Hk.
    { apply elem_of_map_to_list, Hsub. left. }
    rewrite (Js_get_own _ _ _ Hk). apply IH.
    intros x Hx. apply Hsub. by right. }
  by apply Hl.
Qed.

(** The keys explicitly set on a dictionary built from the empty one. *)
Lemma Dictionary_props_sets (sets : list (string * T)) d :
  dom (Dictionary.props (foldl (λ d kv, Dictionary.set d kv.1 kv.2) d sets))
  = dom (Dictionary.props d) ∪ list_to_set sets.*1.
Proof.
  revert d; induction sets as [|[k v] sets IH]; intros d; simpl.
  - set_solver.
  - rewrite IH, Dictionary_set_props, dom_insert_L. set_solver.
Qed.

Lemma Dictionary_new_copy d : Dictionary.props (Dictionary.new (Some d)) = Dictionary.props d.
Proof.
  unfold Dictionary.new. rewrite Dictionary_ownKeys_props.
  assert (∀ l acc, NoDup l.*1 → l ⊆ map_to_list (Dictionary.props d) →
            Dictionary.props
              (foldl (λ this key,
                        match Js.get (Dictionary.toObject d) key with
                        | Js.Data v => Dictionary.set this key v
                        | _ => this
                        end) acc l.*1)
            = list_to_map l ∪ Dictionary.props acc) as Hl.
  { induction l as [|[k v] l IH]; intros acc Hnd Hsub; simpl.
    - by rewrite (left_id_L ∅ (∪)).
    - assert (Dictionary.props d !! k = Some v) as Hk.
      { apply elem_of_map_to_list, Hsub. left. }
      rewrite (Js_get_own _ _ _ Hk).
      apply NoDup_cons in Hnd as [Hnotin Hnd].
      rewrite IH; [|done|intros x Hx; apply Hsub; by right].
      rewrite Dictionary_set_props.
      rewrite insert_union_singleton_l, insert_union_singleton_l.
      rewrite (assoc_L (∪)). f_equal.
      apply map_union_comm, map_disjoint_singleton_r_2.
      by apply not_elem_of_list_to_map_1. }
  rewrite Hl; [|apply NoDup_fst_map_to_list|done]. simpl.
  by rewrite (right_id_L ∅ (∪)), list_to_map_to_list.
Qed.

End DictionaryFacts.

(** C9: a dictionary holds the keys that were set on it and no others.  A
    fresh dictionary has no key at all, in particular none of the built-in
    member names of objects, for which [has] is false and [get] is
    [undefined]; a dictionary copied from another one has the keys of that
    one; a key is present exactly from the moment it is set; and [keys],
    [values], [entries] and [forEach] visit each key that was set once and
    nothing else. *)
Theorem Dictionary_holds_exactly_the_keys_set (T : Type) :
  (∀ key, Dictionary.has (Dictionary.new (T := T) None) key = false
          ∧ Dictionary.get (Dictionary.new (T := T) None) key = Js.Undefined) ∧
  (∀ (d : Dictionary.t T) key,
     Dictionary.has (Dictionary.new (Some d)) key = Dictionary.has d key) ∧
  (∀ (d : Dictionary.t T) key v key',
     Dictionary.has (Dictionary.set d key v) key'
     = bool_decide (key = key') || Dictionary.has d key') ∧
  (∀ sets : list (string * T),
     let d := foldl (λ d kv, Dictionary.set d kv.1 kv.2) (Dictionary.new None) sets in
     (∀ key, Dictionary.has d key = true ↔ key ∈ sets.*1) ∧
     (∀ key, key ∉ sets.*1 → Dictionary.get d key = Js.Undefined) ∧
     (∀ key, key ∈ Dictionary.keys d ↔ key ∈ sets.*1) ∧
     NoDup (Dictionary.keys d) ∧
     (Dictionary.entries d).*1 = Dictionary.keys d ∧
     (Dictionary.entries d).*2 = Dictionary.values d ∧
     Dictionary.forEach d (λ visited value key, visited ++ [(key, Js.Data value)]) []
     = Dictionary.entries d).
Proof.
  split; [|split; [|split]].
  - intros key. split; [apply Dictionary_has_new|].
    rewrite Dictionary_get_lookup. simpl. by rewrite lookup_empty.
  - intros d key. apply eq_true_iff_eq.
    by rewrite !Dictionary_has_lookup, Dictionary_new_copy.
  - apply Dictionary_has_set.
  - intros sets d.
    assert (∀ key, is_Some (Dictionary.props d !! key) ↔ key ∈ sets.*1) as Hdom.
    { intros key. rewrite <- elem_of_dom. unfold d.
      rewrite Dictionary_props_sets. simpl. rewrite dom_empty_L. set_solver. }
    split_and!.
    + intros key. rewrite Dictionary_has_lookup. apply Hdom.
    + intros key Hnotin. rewrite Dictionary_get_lookup.
      destruct (Dictionary.props d !! key) eqn:E; [|done].
      exfalso. apply Hnotin, Hdom. eauto.
    + intros key. rewrite Dictionary_keys_props, <- Hdom. split.
      * intros [[k v] [-> Hin]]%list_elem_of_fmap.
        apply elem_of_map_to_list in Hin. eauto.
      * intros [v Hv]. apply list_elem_of_fmap. exists (key, v). split; [done|].
        by apply elem_of_map_to_list.
    + rewrite Dictionary_keys_props. apply NoDup_fst_map_to_list.
    + by rewrite Dictionary_entries_props, Dictionary_keys_props, <- list_fmap_compose.
    + by rewrite Dictionary_entries_props, Dictionary_values_props, <- list_fmap_compose.
    + rewrite Dictionary_forEach_props, Dictionary_entries_props.
      by rewrite (foldl_snoc (λ kv : string * T, (kv.1, Js.Data kv.2))).
Qed.

(** On a plain object of the host the same names are found by [in] and by an
    unguarded read, which is what the guard by [has] rules out. *)
Example plain_object_inherits_toString :
  let o : Js.Object bool := {| Js.own := ∅; Js.prototype := Js.objectPrototype |} in
  Js.hasProperty o "toString" = true
  ∧ Js.hasOwnProperty o "toString" = false
  ∧ Js.get o "toString" ≠ Js.Undefined.
Proof. vm_compute. repeat split; congruence. Qed.

(** ** Running methods *)

Section StatefulFacts.
Context {S : Type}.

Lemma bind_Normal {A B} (m : Stateful S A) (f : A → Stateful S B) s a s1 :
  m s = (Normal a, s1) → (m ≫= f) s = f a s1.
Proof. intros H. unfold mbind, Stateful_bind. by rewrite H. Qed.

Lemma bind_Throw {A B} (m : Stateful S A) (f : A → Stateful S B) s e s1 :
  m s = (Throw e, s1) → (m ≫= f) s = (Throw e, s1).
Proof. intros H. unfold mbind, Stateful_bind. by rewrite H. Qed.

Lemma bind_inv_Normal {A B} (m : Stateful S A) (f : A → Stateful S B) s b s' :
  (m ≫= f) s = (Normal b, s') → ∃ a s1, m s = (Normal a, s1) ∧ f a s1 = (Normal b, s').
Proof.
  unfold mbind, Stateful_bind. destruct (m s) as [[a|e] s1]; [eauto|discriminate].
Qed.

Lemma bind_getThis {B} (f : S → Stateful S B) s : (getThis ≫= f) s = f s s.
Proof. reflexivity. Qed.

Lemma bind_setThis {B} (g : S → S) (f : unit → Stateful S B) s :
  (setThis g ≫= f) s = f tt (g s).
Proof. reflexivity. Qed.

Lemma bind_mret {A B} (a : A) (f : A → Stateful S B) s : (mret a ≫= f) s = f a s.
Proof. reflexivity. Qed.

Lemma bind_throw {A B} e (f : A → Stateful S B) s : (throw e ≫= f) s = (Throw e, s).
Proof. reflexivity. Qed.

Lemma bind_assoc {A B C} (m : Stateful S A) (f : A → Stateful S B) (g : B → Stateful S C) s :
  ((m ≫= f) ≫= g) s = (m ≫= λ a, f a ≫= g) s.
Proof. unfold mbind, Stateful_bind. by destruct (m s) as [[a|e] s1]. Qed.

Lemma bind_deref_Some {A B} (a : A) (f : A → Stateful S B) s :
  (deref (Some a) ≫= f) s = f a s.
Proof. reflexivity. Qed.

Lemma forOf_nil {A} (body : A → Stateful S unit) : forOf body [] = mret tt.
Proof. reflexivity. Qed.

Lemma forOf_cons {A} (body : A → Stateful S unit) x l :
  forOf body (x :: l) = (body x ;; forOf body l).
Proof. reflexivity. Qed.

Lemma forOfWith_nil {A L} (body : L → A → Stateful S L) local :
  forOfWith body local [] = mret local.
Proof. reflexivity. Qed.

Lemma forOfWith_cons {A L} (body : L → A → Stateful S L) local x l :
  forOfWith body local (x :: l) = (local' ← body local x; forOfWith body local' l).
Proof. reflexivity. Qed.

End StatefulFacts.

(** ** [checkSourceFile] *)

(** C3: once a call of [checkSourceFile] on a file has completed, a second
    call on the same file completes at once and leaves the whole state of
    the checker, the diagnostics included, as the first call left it. *)
Theorem checkSourceFile_twice_is_once (file : SourceFile) (this this' : Checker) :
  checkSourceFile file this = (Normal tt, this') →
  checkSourceFile file this' = (Normal tt, this').
Proof.
  unfold checkSourceFile. rewrite !bind_getThis.
  destruct (Dictionary.has (checkedFileSet this) (filename file)) eqn:Hchecked; simpl.
  - intros [= <-]. by rewrite Hchecked.
  - intros H.
    repeat (apply bind_inv_Normal in H as (? & ? & _ & H)).
    unfold setThis in H. injection H as <-. simpl.
    by rewrite Dictionary_has_set, bool_decide_eq_true_2.
Qed.

(** C4: when cancellation is requested and the file has not been checked
    yet, [checkSourceFile] throws the cancellation error and leaves the
    state as it was: no diagnostic is added, those of the files checked
    before are kept, and the file is not marked as checked. *)
Theorem checkSourceFile_cancelled (file : SourceFile) (this : Checker) :
  cancellationRequested (cancellationToken this) = true →
  Dictionary.has (checkedFileSet this) (filename file) = false →
  checkSourceFile file this = (Throw CancelError, this).
Proof.
  intros Hcancel Hunchecked. unfold checkSourceFile.
  rewrite bind_getThis, Hunchecked; simpl.
  apply bind_Throw. unfold throwIfCancellationRequested.
  by rewrite bind_getThis, Hcancel.
Qed.

(** C8: when [checkSourceFile] returns, the strictness flag is the one it
    was entered with, whatever the directives of the file did to it; the
    check of a second file therefore starts from the flag that the check of
    the first file started from. *)
Theorem checkSourceFile_restores_strictness (file : SourceFile) (this this' : Checker) :
  checkSourceFile file this = (Normal tt, this') →
  noStrictParametricProductions this' = noStrictParametricProductions this.
Proof.
  unfold checkSourceFile. rewrite !bind_getThis.
  destruct (Dictionary.has (checkedFileSet this) (filename file)) eqn:Hchecked; simpl.
  - by intros [= <-].
  - intros H.
    repeat (apply bind_inv_Normal in H as (? & ? & ? & H)).
    unfold setThis in *. by simplify_eq.
Qed.

(** ** The digest *)

(** The digest on the test vectors of the standard (FIPS 180), the second
    of which takes two blocks. *)
Example Sha1_hex_test_vectors :
  Sha1.hex "abc" = "a9993e364706816aba3e25717850c26c9cd0d89d"
  ∧ Sha1.hex "abcdbcdecdefdefgefghfghighijhijkijkljklmklmnlmnomnopnopq"
    = "84983e441c3bd26ebaae4aa1f95129e5e54670f1"
  ∧ Sha1.hex EmptyString = "da39a3ee5e6b4b0d3255bfef95601890afd80709".
Proof. vm_compute. done. Qed.

Lemma hexDigit_lower (x : Z) : isLowerHex (Sha1.hexDigit (Z.land x 15)).
Proof.
  unfold isLowerHex, Sha1.hexDigit.
  change 15%Z with (Z.ones 4). rewrite Z.land_ones by lia.
  assert (Z.to_nat (x mod 2 ^ 4) < 16)%nat as Hlt.
  { pose proof (Z.mod_pos_bound x (2 ^ 4)). lia. }
  apply list_elem_of_In, nth_In. exact Hlt.
Qed.

Lemma hexWord_lower (w : Z) : Forall isLowerHex (Sha1.hexWord w).
Proof.
  unfold Sha1.hexWord; simpl.
  repeat (apply Forall_cons; split; [apply hexDigit_lower|]). apply Forall_nil_2.
Qed.

Lemma hexWord_length (w : Z) : length (Sha1.hexWord w) = 8%nat.
Proof. reflexivity. Qed.

Lemma substring_prefix (l k : list ascii) :
  String.substring 0 (length l) (string_of_list_ascii (l ++ k)) = string_of_list_ascii l.
Proof. induction l as [|c l IH]; simpl; [by destruct (string_of_list_ascii k)|by rewrite IH]. Qed.

(** The identifier is the first word of the digest in hexadecimal. *)
Lemma digestPrefix_first_word (text : string) :
  digestPrefix text
  = string_of_list_ascii (Sha1.hexWord (Sha1.digest (Sha1.bytesOfString text)).1.1.1.1).
Proof.
  unfold digestPrefix, Sha1.hex.
  destruct (Sha1.digest (Sha1.bytesOfString text)) as [[[[h0 h1] h2] h3] h4]; simpl fst.
  apply (substring_prefix (Sha1.hexWord h0)).
Qed.

Lemma digestPrefix_shape (text : string) :
  String.length (digestPrefix text) = 8%nat
  ∧ Forall isLowerHex (list_ascii_of_string (digestPrefix text)).
Proof.
  rewrite digestPrefix_first_word. split.
  - reflexivity.
  - rewrite list_ascii_of_string_of_list_ascii. apply hexWord_lower.
Qed.

Lemma hex_length (text : string) : String.length (Sha1.hex text) = 40%nat.
Proof.
  unfold Sha1.hex.
  by destruct (Sha1.digest (Sha1.bytesOfString text)) as [[[[h0 h1] h2] h3] h4].
Qed.

Lemma hex_lower (text : string) : Forall isLowerHex (list_ascii_of_string (Sha1.hex text)).
Proof.
  unfold Sha1.hex.
  destruct (Sha1.digest (Sha1.bytesOfString text)) as [[[[h0 h1] h2] h3] h4].
  rewrite list_ascii_of_string_of_list_ascii.
  repeat (apply Forall_app; split); apply hexWord_lower.
Qed.

Section DigestFacts.
Variable tokenText : SyntaxKind.t → option string.
Variable isKeywordOrPunctuation : SyntaxKind.t → bool.

Lemma computeHash_canonicalText (node : RightHandSide) :
  (computeHash tokenText isKeywordOrPunctuation node newRightHandSideDigest).1
  = match canonicalText tokenText isKeywordOrPunctuation (rhs_head node) with
    | Normal text => Normal (digestPrefix text)
    | Throw e => Throw e
    end.
Proof.
  unfold computeHash, canonicalText. rewrite bind_setThis; simpl.
  unfold mbind, Stateful_bind.
  destruct (writeSymbolSpan _ _ _ _) as [[[]|e] [space [w|]]]; reflexivity.
Qed.

End DigestFacts.

Lemma toLowerCase_lower_hex (text : string) :
  Forall isLowerHex (list_ascii_of_string text) → toLowerCase text = text.
Proof.
  unfold toLowerCase. intros Hall.
  rewrite <- (string_of_list_ascii_of_string text) at 2. f_equal.
  induction Hall as [|c l Hc _ IH]; [done|]. cbn [map]. rewrite IH. f_equal.
  unfold isLowerHex in Hc. cbn [list_ascii_of_string] in Hc.
  repeat (apply elem_of_cons in Hc as [->|Hc]; [reflexivity|]).
  by apply elem_of_nil in Hc.
Qed.

Section LinkIdFacts.
Variable tokenText : SyntaxKind.t → option string.
Variable isKeywordOrPunctuation : SyntaxKind.t → bool.



End LinkIdFacts.


(** ** Reporting *)

Lemma addMessages_nil this : addMessages this [] = this.
Proof.
  destruct this as [? ? [? ?] ? ? ? ?]. unfold addMessages, with_diagnostics, messagesOf; simpl.
  by rewrite app_nil_r.
Qed.

Lemma addMessages_app this a b :
  addMessages (addMessages this a) b = addMessages this (a ++ b).
Proof.
  unfold addMessages, with_diagnostics, messagesOf, fileOf; simpl. by rewrite app_assoc.
Qed.

Lemma messagesOf_addMessages this ds : messagesOf (addMessages this ds) = messagesOf this ++ ds.
Proof. reflexivity. Qed.

Lemma fileOf_addMessages this ds : fileOf (addMessages this ds) = fileOf this.
Proof. reflexivity. Qed.

Lemma reportAt_run location message arguments this :
  reportAt location message arguments this
  = (Normal tt, addMessages this [mkRecord (fileOf this) location message arguments]).
Proof. reflexivity. Qed.

Lemma emitted_addMessages {A} (m : Method A) this a ds :
  m this = (Normal a, addMessages this ds) → emitted m this = ds.
Proof.
  intros H. unfold emitted. rewrite H; simpl. rewrite messagesOf_addMessages.
  by rewrite drop_app_length.
Qed.

Lemma Reporter_mret {A} (a : A) : Reporter (mret a).
Proof. intros this1 this2 _. exists a, []. by rewrite !addMessages_nil. Qed.

Lemma Reporter_reportAt location message arguments :
  Reporter (reportAt location message arguments).
Proof.
  intros this1 this2 Hfile. exists tt, [mkRecord (fileOf this1) location message arguments].
  by rewrite !reportAt_run, Hfile.
Qed.

Lemma Reporter_bind {A B} (m : Method A) (k : A → Method B) :
  Reporter m → (∀ a, Reporter (k a)) → Reporter (m ≫= k).
Proof.
  intros Hm Hk this1 this2 Hfile.
  destruct (Hm this1 this2 Hfile) as (a & ds & H1 & H2).
  destruct (Hk a (addMessages this1 ds) (addMessages this2 ds)) as (b & ds' & H1' & H2').
  { by rewrite !fileOf_addMessages. }
  exists b, (ds ++ ds').
  rewrite (bind_Normal _ _ _ _ _ H1), (bind_Normal _ _ _ _ _ H2), H1', H2'.
  by rewrite !addMessages_app.
Qed.

Lemma Reporter_orElse (a b : Method bool) : Reporter a → Reporter b → Reporter (orElse a b).
Proof.
  intros Ha Hb. apply Reporter_bind; [done|]. intros []; [apply Reporter_mret|done].
Qed.

Lemma Reporter_run {A} (m : Method A) this :
  Reporter m → ∃ a, m this = (Normal a, addMessages this (emitted m this)).
Proof.
  intros Hm. destruct (Hm this this eq_refl) as (a & ds & H & _).
  exists a. by rewrite (emitted_addMessages _ _ _ _ H).
Qed.

Lemma Reporter_emitted {A} (m : Method A) this ds :
  Reporter m → emitted m (addMessages this ds) = emitted m this.
Proof.
  intros Hm. destruct (Hm (addMessages this ds) this) as (a & ds' & H1 & H2); [done|].
  by rewrite (emitted_addMessages _ _ _ _ H1), (emitted_addMessages _ _ _ _ H2).
Qed.

Ltac reporter :=
  repeat
    lazymatch goal with
    | |- Reporter (mret _) => apply Reporter_mret
    | |- Reporter (reportAt _ _ _) => apply Reporter_reportAt
    | |- Reporter (orElse _ _) => apply Reporter_orElse
    | |- Reporter (_ ≫= _) => apply Reporter_bind; [|intros ?]
    | |- Reporter (match ?x with _ => _ end) => destruct x
    end.

Lemma Reporter_checkTerminal node allowOptional : Reporter (checkTerminal node allowOptional).
Proof.
  unfold checkTerminal, checkGrammarOptionalSymbol, checkGrammarTerminal,
    reportGrammarErrorForNode.
  reporter.
Qed.

Lemma Reporter_checkGrammarOneOfList node : Reporter (checkGrammarOneOfList node).
Proof. unfold checkGrammarOneOfList, reportGrammarError, report. reporter. Qed.

(** ** One-of lists *)

Lemma checkOneOfTerminal_run (this : Checker) (reported : list DiagnosticRecord)
    (terminalSet : Dictionary.t bool) (terminal : Terminal) :
  checkOneOfTerminal terminalSet terminal (addMessages this reported)
  = if Dictionary.has terminalSet (terminalKey terminal)
    then (Normal terminalSet,
          addMessages this
            (reported ++ [mkRecord (fileOf this)
                            (AtNode SyntaxKind.Terminal (te_info terminal))
                            Duplicate_terminal_0_ [ArgText (te_text terminal)]]))
    else (Normal (Dictionary.set terminalSet (terminalKey terminal) true),
          addMessages this (reported ++ emitted (checkTerminal terminal false) this)).
Proof.
  unfold checkOneOfTerminal; cbv zeta. fold (terminalKey terminal).
  destruct (Dictionary.has terminalSet (terminalKey terminal)).
  - erewrite bind_Normal by apply reportAt_run.
    by rewrite addMessages_app, fileOf_addMessages.
  - destruct (Reporter_run (checkTerminal terminal false) (addMessages this reported)
                (Reporter_checkTerminal _ _)) as [[] Hterminal].
    rewrite Reporter_emitted in Hterminal by apply Reporter_checkTerminal.
    erewrite bind_Normal by apply Hterminal. by rewrite addMessages_app.
Qed.

Lemma checkOneOfTerminals_loop (this : Checker) (terminals : list Terminal) :
  ∀ (earlier : list Terminal) (terminalSet : Dictionary.t bool) (reported : list DiagnosticRecord),
    (∀ key, Dictionary.has terminalSet key = true ↔ key ∈ terminalKey <$> earlier) →
    ∃ terminalSet',
      forOfWith checkOneOfTerminal terminalSet terminals (addMessages this reported)
      = (Normal terminalSet',
         addMessages this
           (reported ++
            flat_map (λ '(earlier, terminal),
                        if bool_decide (terminalKey terminal ∈ terminalKey <$> earlier)
                        then [mkRecord (fileOf this)
                                (AtNode SyntaxKind.Terminal (te_info terminal))
                                Duplicate_terminal_0_ [ArgText (te_text terminal)]]
                        else emitted (checkTerminal terminal false) this)
                     (withEarlierFrom earlier terminals))).
Proof.
  induction terminals as [|terminal terminals IH]; intros earlier terminalSet reported Hset.
  - exists terminalSet. rewrite forOfWith_nil; simpl. by rewrite app_nil_r.
  - rewrite forOfWith_cons. cbn [withEarlierFrom flat_map].
    pose proof (checkOneOfTerminal_run this reported terminalSet terminal) as Hbody.
    destruct (Dictionary.has terminalSet (terminalKey terminal)) eqn:Hhas.
    + rewrite bool_decide_eq_true_2 by by apply Hset.
      destruct (IH (earlier ++ [terminal]) terminalSet
                  (reported ++ [mkRecord (fileOf this)
                                  (AtNode SyntaxKind.Terminal (te_info terminal))
                                  Duplicate_terminal_0_ [ArgText (te_text terminal)]]))
        as [terminalSet' Hrun].
      { intros key. rewrite Hset, fmap_app, elem_of_app, list_fmap_singleton,
          list_elem_of_singleton.
        split; [tauto|]. intros [H| ->]; [done|by apply Hset]. }
      exists terminalSet'. erewrite bind_Normal by apply Hbody.
      by rewrite Hrun, <- app_assoc.
    + rewrite bool_decide_eq_false_2
        by (intros H; apply Hset in H; congruence).
      destruct (IH (earlier ++ [terminal])
                  (Dictionary.set terminalSet (terminalKey terminal) true)
                  (reported ++ emitted (checkTerminal terminal false) this))
        as [terminalSet' Hrun].
      { intros key. rewrite Dictionary_has_set, orb_true_iff, bool_decide_eq_true, Hset.
        rewrite fmap_app, elem_of_app, list_fmap_singleton, list_elem_of_singleton.
        split; intros [H|H]; auto. }
      exists terminalSet'. erewrite bind_Normal by apply Hbody.
      by rewrite Hrun, <- app_assoc.
Qed.

(** Texts that are there are compared as they are when they are compared
    as keys. *)
Lemma keyOfText_elem_of (text : option string) (texts : list (option string)) :
  is_Some text → Forall is_Some texts →
  Js.keyOfText text ∈ Js.keyOfText <$> texts ↔ text ∈ texts.
Proof.
  intros [s ->] Hall. rewrite list_elem_of_fmap. split.
  - intros (t & Hkey & Hin). rewrite Forall_forall in Hall.
    destruct (Hall t Hin) as [s' ->]. simpl in Hkey. by subst.
  - intros Hin. by exists (Some s).
Qed.

(** C10, as amended: the check of a one-of list whose terminals are present
    completes and reports, after the diagnostic on the shape of the list if
    any, for each terminal in turn: a duplicate-terminal diagnostic on the
    terminal, and nothing else, when its key is the key of an earlier
    terminal of the list; and otherwise what the validation of the terminal
    reports, once.  The key of a terminal is that under which the set of
    texts seen stores its text: for terminals that have a text the keys are
    the same exactly when the texts are, and a terminal without text has
    the key [undefined], as a terminal with that text has. *)
Theorem checkOneOfList_reports_duplicates (info : NodeInfo)
    (oneKeyword ofKeyword openIndentToken closeIndentToken : option Token)
    (terminals : list Terminal) (this : Checker) :
  let node := {| ol_info := info; ol_oneKeyword := oneKeyword; ol_ofKeyword := ofKeyword;
                 ol_openIndentToken := openIndentToken; ol_terminals := Some terminals;
                 ol_closeIndentToken := closeIndentToken |} in
  checkOneOfList node this
  = (Normal tt,
     addMessages this
       (emitted (checkGrammarOneOfList node) this ++ oneOfTerminalRecords this terminals))
  ∧ (∀ earlier terminal,
       Forall (λ t, is_Some (te_text t)) (terminal :: earlier) →
       (terminalKey terminal ∈ terminalKey <$> earlier
        ↔ te_text terminal ∈ te_text <$> earlier))
  ∧ (∀ terminal, te_text terminal = None → terminalKey terminal = "undefined").
Proof.
  intros node. split_and!; [| |by unfold terminalKey; intros terminal ->].
  - unfold checkOneOfList.
    destruct (Reporter_run (checkGrammarOneOfList node) this
                (Reporter_checkGrammarOneOfList _)) as [reported Hgrammar].
    erewrite bind_Normal; [|apply Hgrammar]. simpl.
    destruct (checkOneOfTerminals_loop this terminals [] (Dictionary.new None)
                (emitted (checkGrammarOneOfList node) this)) as [terminalSet' Hrun].
    { intros key. rewrite Dictionary_has_new. simpl. split; [done|]. by intros ?%elem_of_nil. }
    erewrite bind_Normal; [|apply Hrun]. reflexivity.
  - intros earlier terminal Hall. apply Forall_cons in Hall as [[text Htext] Hall].
    unfold terminalKey. rewrite Htext; simpl. rewrite !list_elem_of_fmap. split.
    + intros (t & Hkey & Hin). exists t. split; [|done].
      rewrite Forall_forall in Hall. destruct (Hall t Hin) as [text' Htext'].
      rewrite Htext' in *. simpl in Hkey. by subst.
    + intros (t & Hkey & Hin). exists t. split; [|done]. by rewrite <- Hkey.
Qed.

(** ** Declarations of a production *)

Lemma keyOfNumber_inj (a b : N) : Js.keyOfNumber a = Js.keyOfNumber b → a = b.
Proof. apply pretty_N_inj. Qed.

Lemma Dictionary_get_has {T} (d : Dictionary.t T) key :
  Dictionary.has d key = true → ∃ v, Dictionary.get d key = Js.Data v.
Proof.
  intros [v Hv]%Dictionary_has_lookup. exists v. by rewrite Dictionary_get_lookup, Hv.
Qed.

Lemma Dictionary_get_set {T} (d : Dictionary.t T) key (v : T) key' :
  Dictionary.get (Dictionary.set d key v) key'
  = if decide (key = key') then Js.Data v else Dictionary.get d key'.
Proof.
  rewrite !Dictionary_get_lookup, Dictionary_set_props, lookup_insert.
  by destruct (decide (key = key')).
Qed.

Lemma checkIdentifier_of_production (node : Identifier) (parent : Production) this :
  truthy (id_text node) = true →
  BindingTable.getParent (bindings this) (id_info node) = Some (NodeProduction parent) →
  checkIdentifier node this
  = (Normal (BindingTable.getSymbol (bindings this) (pr_info parent)), this).
Proof.
  intros Htext Hparent. unfold checkIdentifier, checkGrammarIdentifier.
  rewrite Htext; simpl. rewrite bind_mret, bind_getThis, Hparent. reflexivity.
Qed.

Lemma Harmless_mret {A} (a : A) this : Harmless (mret a) this.
Proof. intros reported. exists a, []. by rewrite app_nil_r. Qed.

Lemma Harmless_reportAt location message arguments this :
  message ≠ missingParameter → Harmless (reportAt location message arguments) this.
Proof.
  intros Hne reported. eexists tt, [_]. rewrite reportAt_run, addMessages_app. split; [done|].
  apply Forall_singleton. exact Hne.
Qed.

Lemma Harmless_bind {A B} (m : Method A) (k : A → Method B) this :
  Harmless m this → (∀ a, Harmless (k a) this) → Harmless (m ≫= k) this.
Proof.
  intros Hm Hk reported.
  destruct (Hm reported) as (a & ds & Hrun & Hds).
  destruct (Hk a (reported ++ ds)) as (b & ds' & Hrun' & Hds').
  exists b, (ds ++ ds'). erewrite bind_Normal by apply Hrun.
  rewrite Hrun', app_assoc. split; [done|]. by apply Forall_app.
Qed.

Lemma Harmless_forOf {A} (body : A → Method unit) (l : list A) this :
  Forall (λ x, Harmless (body x) this) l → Harmless (forOf body l) this.
Proof.
  induction 1 as [|x l Hx _ IH].
  - apply Harmless_mret.
  - rewrite forOf_cons. apply Harmless_bind; [done|]. by intros _.
Qed.

Lemma Harmless_getThis {B} (k : Checker → Method B) this :
  (∀ reported, Harmless (k (addMessages this reported)) this) → Harmless (getThis ≫= k) this.
Proof. intros Hk reported. rewrite bind_getThis. apply Hk. Qed.

Lemma Harmless_checkGrammarIdentifier node this : Harmless (checkGrammarIdentifier node) this.
Proof.
  unfold checkGrammarIdentifier, reportGrammarErrorForNode.
  destruct (negb _); [|apply Harmless_mret].
  apply Harmless_bind; [by apply Harmless_reportAt|intros _; apply Harmless_mret].
Qed.

Lemma Harmless_mret_bind {A B} (a : A) (k : A → Method B) this :
  Harmless (k a) this → Harmless (mret a ≫= k) this.
Proof. intros H reported. apply H. Qed.

Lemma Harmless_checkParameter (p : Parameter_) (name : Identifier) (parent : Parameter_) this :
  pa_name p = Some name →
  BindingTable.getParent (bindings this) (id_info name) = Some (NodeParameter parent) →
  Harmless (checkParameter p) this.
Proof.
  intros Hname Hparent. unfold checkParameter. rewrite Hname; simpl.
  apply Harmless_mret_bind.
  apply Harmless_bind; [|intros _; apply Harmless_mret].
  unfold checkIdentifier.
  apply Harmless_bind; [apply Harmless_checkGrammarIdentifier|intros _].
  destruct (truthy (id_text name)); [|apply Harmless_mret].
  apply Harmless_getThis. intros reported. simpl. rewrite Hparent.
  unfold resolveSymbol. apply Harmless_bind.
  - apply Harmless_getThis. intros reported'.
    destruct (BindingTable.resolveSymbol _ _ _ _); apply Harmless_mret.
  - intros symbol. apply Harmless_getThis. intros reported'.
    apply Harmless_bind; [|intros _; apply Harmless_mret].
    destruct (negb _); [by apply Harmless_reportAt|apply Harmless_mret].
Qed.

Lemma Harmless_checkGrammarParameterList node this :
  Harmless (checkGrammarParameterList node) this.
Proof.
  unfold checkGrammarParameterList, reportGrammarError, reportGrammarErrorForNode, report.
  repeat first
    [ apply Harmless_mret
    | apply Harmless_reportAt; discriminate
    | apply Harmless_bind; [|intros ?]
    | match goal with
      | |- Harmless (match ?x with _ => _ end) _ => destruct x
      end ].
Qed.

Lemma Harmless_checkParameterList node elements this :
  pl_elements node = Some elements →
  parametersBound (bindings this) elements →
  Harmless (checkParameterList node) this.
Proof.
  intros Helements Hbound. unfold checkParameterList.
  apply Harmless_bind; [apply Harmless_checkGrammarParameterList|intros _].
  rewrite Helements; simpl. apply Harmless_mret_bind.
  apply Harmless_forOf. eapply Forall_impl; [exact Hbound|].
  intros p (name & parent & Hname & Hparent). by eapply Harmless_checkParameter.
Qed.

Lemma getProductionParametersByName_run (p : Production) this memo :
  productionParametersByName this = Some memo →
  memoized memo p →
  ∃ memo',
    getProductionParametersByName p this
    = (Normal (Some (parameterNames p)), with_productionParametersByName this (Some memo'))
    ∧ memoized memo' p
    ∧ ∀ q, id (pr_info q) ≠ id (pr_info p) → memoized memo q → memoized memo' q.
Proof.
  intros Hmemo Hp. unfold getProductionParametersByName; cbv zeta.
  rewrite bind_getThis, Hmemo. unfold deref. rewrite (bind_mret memo).
  destruct (Dictionary.has memo _) eqn:Hhas.
  - destruct (Dictionary_get_has _ _ Hhas) as [names Hnames].
    rewrite Hnames, (Hp _ Hnames). exists memo. split_and!; [|done|done].
    destruct this; simpl in *. by rewrite Hmemo.
  - exists (Dictionary.set memo (Js.keyOfNumber (id (pr_info p))) (parameterNames p)).
    split_and!.
    + reflexivity.
    + intros names. rewrite Dictionary_get_set, decide_True by done. by intros [= <-].
    + intros q Hne Hq names. rewrite Dictionary_get_set, decide_False; [apply Hq|].
      intros Heq%keyOfNumber_inj. congruence.
Qed.

Lemma checkParameterDeclared_run location text names (p : Parameter_) this reported :
  is_Some (pa_name p) →
  checkParameterDeclared location text (Some names) p (addMessages this reported)
  = (Normal tt,
     addMessages this
       (reported ++ missingParameterRecords (fileOf this) location text names [p])).
Proof.
  intros [name Hname].
  unfold checkParameterDeclared, hasKey, missingParameterRecords, parameterKey, parameterText.
  cbn [flat_map]. rewrite Hname. cbn [mbind option_bind deref].
  rewrite !app_nil_r, bind_mret, bind_assoc, !bind_mret.
  destruct (Dictionary.has names (Js.keyOfText (id_text name))); cbn [negb].
  - by rewrite app_nil_r.
  - by rewrite reportAt_run, addMessages_app.
Qed.

Lemma missingParameterRecords_cons file location text names p parameters :
  missingParameterRecords file location text names (p :: parameters)
  = missingParameterRecords file location text names [p]
    ++ missingParameterRecords file location text names parameters.
Proof. unfold missingParameterRecords; simpl. by rewrite app_nil_r. Qed.

Lemma checkParameterDeclared_loop location text names (parameters : list Parameter_) this :
  Forall (λ p, is_Some (pa_name p)) parameters →
  ∀ reported,
    forOf (checkParameterDeclared location text (Some names)) parameters
      (addMessages this reported)
    = (Normal tt,
       addMessages this
         (reported ++ missingParameterRecords (fileOf this) location text names parameters)).
Proof.
  induction 1 as [|p parameters Hname _ IH]; intros reported.
  - rewrite forOf_nil; simpl. by rewrite app_nil_r.
  - rewrite forOf_cons, missingParameterRecords_cons.
    erewrite bind_Normal by by apply checkParameterDeclared_run.
    by rewrite IH, <- app_assoc.
Qed.

Lemma with_productionParametersByName_same this memo :
  productionParametersByName this = memo → with_productionParametersByName this memo = this.
Proof. intros <-. by destruct this. Qed.

Lemma parametersOf_nonempty (p : Production) :
  length (default [] (pr_parameterList p ≫= pl_elements)) ≠ 0%nat →
  ∃ parameterList, pr_parameterList p = Some parameterList
                   ∧ pl_elements parameterList = Some (parametersOf p).
Proof.
  unfold parametersOf. destruct (pr_parameterList p) as [parameterList|]; simpl; [|done].
  destruct (pl_elements parameterList) eqn:E; simpl; [|done]. eauto.
Qed.

Lemma truthy_Some (text : option string) :
  truthy text = true ↔ ∃ s, text = Some s ∧ s ≠ EmptyString.
Proof.
  destruct text as [s|]; simpl.
  - rewrite negb_true_iff, bool_decide_eq_false. split; [eauto|]. by intros (? & [= <-] & ?).
  - split; [done|]. by intros (? & ? & ?).
Qed.

Lemma collectParameterNames_has (parameters : list Parameter_) (key : string) :
  Dictionary.has (collectParameterNames parameters) key = true
  ↔ key ≠ EmptyString ∧ ∃ parameter, parameter ∈ parameters ∧ parameterText parameter = Some key.
Proof.
  unfold collectParameterNames.
  induction parameters as [|p parameters IH] using rev_ind.
  - cbn [foldl]. rewrite Dictionary_has_new. split; [done|].
    by intros (_ & ? & ?%elem_of_nil & _).
  - rewrite foldl_app. cbn [foldl]. cbv zeta.
    fold (parameterText p).
    set (earlier := foldl _ (Dictionary.new None) parameters) in *.
    destruct (truthy (parameterText p)) eqn:Htext; cbn [andb].
    + apply truthy_Some in Htext as (s & Hs & Hnonempty). rewrite Hs. simpl Js.keyOfText.
      destruct (Dictionary.has earlier s) eqn:Hhas; cbn [negb].
      * rewrite IH. split.
        -- intros (? & q & Hin & Hq). split; [done|]. exists q. split; [|done].
           apply elem_of_app. by left.
        -- intros (? & q & [Hin|Hin%list_elem_of_singleton]%elem_of_app & Hq).
           ++ split; [done|]. eauto.
           ++ subst q. rewrite Hs in Hq. injection Hq as <-. by apply IH.
      * rewrite Dictionary_has_set, orb_true_iff, bool_decide_eq_true, IH. split.
        -- intros [<-|(? & q & Hin & Hq)].
           ++ split; [done|]. exists p. split; [|done]. apply elem_of_app. right. by left.
           ++ split; [done|]. exists q. split; [|done]. apply elem_of_app. by left.
        -- intros (? & q & [Hin|Hin%list_elem_of_singleton]%elem_of_app & Hq).
           ++ right. split; [done|]. eauto.
           ++ subst q. rewrite Hs in Hq. injection Hq as <-. by left.
    + rewrite IH. split.
      * intros (? & q & Hin & Hq). split; [done|]. exists q. split; [|done].
        apply elem_of_app. by left.
      * intros (? & q & [Hin|Hin%list_elem_of_singleton]%elem_of_app & Hq).
        -- split; [done|]. eauto.
        -- subst q. exfalso. rewrite Hq in Htext. simpl in Htext.
           apply negb_false_iff, bool_decide_eq_true in Htext. done.
Qed.

Lemma parameterNames_has (production : Production) (key : string) :
  Dictionary.has (parameterNames production) key = true
  ↔ key ≠ EmptyString
    ∧ ∃ parameter, parameter ∈ parametersOf production ∧ parameterText parameter = Some key.
Proof. apply collectParameterNames_has. Qed.

Lemma missingParameterRecords_nil file location productionName names parameters :
  Forall (λ parameter, Dictionary.has names (parameterKey parameter) = true) parameters →
  missingParameterRecords file location productionName names parameters = [].
Proof.
  unfold missingParameterRecords. induction 1 as [|p l Hp _ IH]; [done|].
  cbn [flat_map]. by rewrite Hp, IH.
Qed.

(** C1, as amended: in strict mode the check of a declaration of a
    production completes (the binding table giving the declaration as
    parent of its name, parameters as parents of the names of its
    parameters, and a first declaration of the symbol).  Against a first
    declaration that is another node it reports one missing-parameter
    diagnostic at the name of this declaration for each parameter of the
    first declaration, each time it occurs in the list, whose name is not
    in the set of names of this declaration, then one at the first
    declaration for each parameter of this declaration whose name is not
    in the set of names of the first.  When the declaration is itself the
    first one, no such diagnostic is reported at all.

    The set of names of a declaration holds the texts, the empty one
    apart, of the names of its parameters, whatever their order.  A name
    without text is looked up in a set as [undefined], and an empty text
    is in no set: a parameter with such a name is reported even when the
    two sets are equal.  When all the parameters of the two declarations
    have a name that is not empty, equal sets give no such diagnostic. *)
Theorem checkProductionStrict_compares_with_first
    (declaration first : Production) (this : Checker) (file : SourceFile)
    (memo : Dictionary.t (Dictionary.t bool)) :
  truthy (id_text (pr_name declaration)) = true →
  BindingTable.getParent (bindings this) (id_info (pr_name declaration))
  = Some (NodeProduction declaration) →
  head (BindingTable.getDeclarations (bindings this)
          (BindingTable.getSymbol (bindings this) (pr_info declaration)))
  = Some (NodeProduction first) →
  sourceFile this = Some file →
  productionParametersByName this = Some memo →
  memoized memo declaration →
  memoized memo first →
  parametersBound (bindings this) (parametersOf declaration) →
  Forall (λ p, is_Some (pa_name p)) (parametersOf first) →
  (∃ others memo',
     checkProductionStrict declaration this
     = (Normal tt,
        with_productionParametersByName
          (addMessages this
             (others ++
              if sameNode (pr_info first) (pr_info declaration) then []
              else comparisonRecords (fileOf this) declaration first))
          (Some memo'))
     ∧ Forall notMissingParameter others)
  ∧ (∀ production key,
       Dictionary.has (parameterNames production) key = true
       ↔ key ≠ EmptyString
         ∧ ∃ parameter, parameter ∈ parametersOf production
                        ∧ parameterText parameter = Some key)
  ∧ (∀ production other,
       parametersOf other ≡ₚ parametersOf production →
       ∀ key, Dictionary.has (parameterNames other) key
              = Dictionary.has (parameterNames production) key)
  ∧ (∀ production parameter,
       (parameterText parameter = None → parameterKey parameter = "undefined")
       ∧ (parameterText parameter = Some EmptyString →
          Dictionary.has (parameterNames production) (parameterKey parameter) = false))
  ∧ (Forall (λ parameter, truthy (parameterText parameter) = true)
       (parametersOf declaration ++ parametersOf first) →
     (∀ key, Dictionary.has (parameterNames declaration) key
             = Dictionary.has (parameterNames first) key) →
     comparisonRecords (fileOf this) declaration first = []).
Proof.
  intros Htext Hparent Hfirst Hfile Hmemo Hdeclaration Hcanonical Hbound Hnamed.
  split; [|split_and!].
  2:{ apply parameterNames_has. }
  2:{ intros production other Hpermutation key. apply eq_true_iff_eq.
      rewrite !parameterNames_has. by setoid_rewrite Hpermutation. }
  2:{ intros production parameter. split; [by unfold parameterKey; intros ->|].
      intros Hempty. apply not_true_is_false. rewrite parameterNames_has.
      unfold parameterKey. rewrite Hempty. simpl. by intros [? _]. }
  2:{ intros Hnonempty Hequal. apply Forall_app in Hnonempty as [Hthis Hthat].
      unfold comparisonRecords.
      assert (∀ production parameter,
                parameter ∈ parametersOf production →
                truthy (parameterText parameter) = true →
                Dictionary.has (parameterNames production) (parameterKey parameter) = true)
        as Hown.
      { intros production parameter Hin (text & Hparameter & Hne)%truthy_Some.
        apply parameterNames_has. unfold parameterKey. rewrite Hparameter. eauto. }
      rewrite Forall_forall in Hthis. rewrite Forall_forall in Hthat.
      rewrite !missingParameterRecords_nil; [done| |]; apply Forall_forall.
      - intros parameter Hin. rewrite <- Hequal. auto.
      - intros parameter Hin. rewrite Hequal. auto. }
  unfold checkProductionStrict; cbv zeta.
  erewrite bind_Normal by by apply checkIdentifier_of_production.
  rewrite bind_getThis, Hfirst.
  (* the parameter list of the declaration *)
  assert (Harmless
            (if bool_decide (length (default [] (pr_parameterList declaration ≫= pl_elements))
                             ≠ 0%nat)
             then parameterList ← deref (pr_parameterList declaration);
                  checkParameterList parameterList
             else mret tt) this) as Hlist.
  { case_bool_decide as Hcount; [|apply Harmless_mret].
    destruct (parametersOf_nonempty _ Hcount) as (parameterList & -> & Helements).
    apply Harmless_mret_bind. by eapply Harmless_checkParameterList. }
  destruct (Hlist []) as ([] & others & Hrun & Hothers).
  rewrite addMessages_nil in Hrun. simpl in Hrun.
  erewrite bind_Normal by apply Hrun.
  exists others. cbn [from_option infoOfNode].
  destruct (sameNode (pr_info first) (pr_info declaration)) eqn:Hsame.
  - exists memo. split; [|done].
    rewrite app_nil_r, with_productionParametersByName_same; done.
  - apply bool_decide_eq_false in Hsame.
    rewrite bind_getThis. cbn [sourceFile addMessages with_diagnostics].
    rewrite Hfile, bind_deref_Some.
    destruct (getProductionParametersByName_run declaration (addMessages this others) memo)
      as (memo1 & Hrun1 & _ & Hkeep); [done|done|].
    erewrite bind_Normal by apply Hrun1.
    cbn [asProduction]. rewrite bind_deref_Some.
    destruct (getProductionParametersByName_run first
                (with_productionParametersByName (addMessages this others) (Some memo1)) memo1)
      as (memo2 & Hrun2 & _ & _); [done|by apply Hkeep|].
    erewrite bind_Normal by apply Hrun2.
    exists memo2. split; [|done].
    change (with_productionParametersByName
              (with_productionParametersByName (addMessages this others) (Some memo1))
              (Some memo2))
      with (addMessages (with_productionParametersByName this (Some memo2)) others).
    fold (parametersOf first). fold (parametersOf declaration).
    erewrite bind_Normal.
    2:{ apply checkParameterDeclared_loop. exact Hnamed. }
    rewrite checkParameterDeclared_loop.
    + unfold comparisonRecords. by rewrite <- !app_assoc.
    + eapply Forall_impl; [exact Hbound|]. intros p (name & _ & -> & _). eauto.
Qed.

(** ** Methods that report messages of some kinds only *)

Section EmitsFacts.
Variable allowed : Diagnostic → Prop.

Lemma reportsOnly_refl this : reportsOnly allowed this this.
Proof. split; [done|]. exists []. by rewrite app_nil_r. Qed.

Lemma reportsOnly_trans this1 this2 this3 :
  reportsOnly allowed this1 this2 → reportsOnly allowed this2 this3 →
  reportsOnly allowed this1 this3.
Proof.
  intros [Hf1 (ds1 & Hm1 & Hd1)] [Hf2 (ds2 & Hm2 & Hd2)]. split; [congruence|].
  exists (ds1 ++ ds2). rewrite Hm2, Hm1, app_assoc. split; [done|]. by apply Forall_app.
Qed.

Lemma Emits_mret {A} (a : A) : Emits allowed (mret a).
Proof. intros this. apply reportsOnly_refl. Qed.

Lemma Emits_throw {A} e : Emits allowed (throw (A := A) e).
Proof. intros this. apply reportsOnly_refl. Qed.

Lemma Emits_deref {A} (value : option A) : Emits allowed (deref value).
Proof. destruct value; [apply Emits_mret|apply Emits_throw]. Qed.

Lemma Emits_bind {A B} (m : Method A) (k : A → Method B) :
  Emits allowed m → (∀ a, Emits allowed (k a)) → Emits allowed (m ≫= k).
Proof.
  intros Hm Hk this. specialize (Hm this). unfold mbind, Stateful_bind.
  destruct (m this) as [[a|e] this1]; simpl in *; [|done].
  eapply reportsOnly_trans; [exact Hm|apply Hk].
Qed.

Lemma Emits_getThis {B} (k : Checker → Method B) :
  (∀ this, Emits allowed (k this)) → Emits allowed (getThis ≫= k).
Proof. intros Hk this. rewrite bind_getThis. apply Hk. Qed.

Lemma Emits_setThis (f : Checker → Checker) :
  (∀ this, fileOf (f this) = fileOf this ∧ messagesOf (f this) = messagesOf this) →
  Emits allowed (setThis f).
Proof.
  intros Hf this. destruct (Hf this) as [Hfile Hmessages]. split; [done|].
  exists []. simpl. by rewrite app_nil_r.
Qed.

Lemma Emits_reportAt location message arguments :
  allowed message → Emits allowed (reportAt location message arguments).
Proof.
  intros Hallowed this. rewrite reportAt_run. split; [done|].
  eexists [_]. split; [done|]. by apply Forall_singleton.
Qed.

Lemma Emits_forOf {A} (body : A → Method unit) (l : list A) :
  (∀ x, Emits allowed (body x)) → Emits allowed (forOf body l).
Proof.
  intros Hbody. induction l as [|x l IH]; [apply Emits_mret|].
  rewrite forOf_cons. apply Emits_bind; [done|]. by intros _.
Qed.

Lemma Emits_orElse (a b : Method bool) :
  Emits allowed a → Emits allowed b → Emits allowed (orElse a b).
Proof. intros Ha Hb. apply Emits_bind; [done|]. intros []; [apply Emits_mret|done]. Qed.

End EmitsFacts.

Ltac emits_step allowed_tac :=
  lazymatch goal with
  | |- Emits _ (mret _) => apply Emits_mret
  | |- Emits _ (throw _) => apply Emits_throw
  | |- Emits _ (deref _) => apply Emits_deref
  | |- Emits _ (reportAt _ _ _) => apply Emits_reportAt; allowed_tac
  | |- Emits _ (setThis _) => apply Emits_setThis; intros ?; split; reflexivity
  | |- Emits _ (getThis ≫= _) => apply Emits_getThis; intros ?
  | |- Emits _ (orElse _ _) => apply Emits_orElse
  | |- Emits _ (forOf _ _) => apply Emits_forOf; intros ?
  | |- Emits _ (_ ≫= _) => apply Emits_bind; [|intros ?]
  | |- Emits _ (match ?x with _ => _ end) => destruct x
  | |- Emits _ (let _ := _ in _) => cbv zeta
  end.

Ltac emits allowed_tac := repeat (emits_step allowed_tac).

Ltac other_message := unfold otherMessage, matchingMessage; intros [?|?]; discriminate.

Lemma Emits_checkIdentifier node : Emits otherMessage (checkIdentifier node).
Proof.
  unfold checkIdentifier, checkGrammarIdentifier, resolveSymbol, reportGrammarErrorForNode.
  cbv zeta. emits other_message.
Qed.

Lemma Emits_checkArgumentList node : Emits otherMessage (checkArgumentList node).
Proof.
  unfold checkArgumentList, checkGrammarArgumentList, reportGrammarError,
    reportGrammarErrorForNode, report.
  emits other_message.
  unfold checkArgument, checkGrammarArgument, reportGrammarError,
    reportGrammarErrorForNode, report.
  emits other_message. apply Emits_checkIdentifier.
Qed.

(** ** Arguments of a nonterminal *)

Lemma checkArgumentName_run production productionSymbol nameSet argument this reported :
  checkArgumentName production productionSymbol nameSet argument (addMessages this reported)
  = if Dictionary.has nameSet (argumentKey argument)
    then (Normal nameSet,
          addMessages this
            (reported ++ [mkRecord (fileOf this) (atIdentifier (ar_name argument))
                            Argument_0_cannot_be_specified_multiple_times
                            [ArgText (argumentText argument)]]))
    else (Normal (Dictionary.set nameSet (argumentKey argument) true),
          addMessages this
            (reported ++
             match BindingTable.resolveSymbol (bindings this)
                     (Some (NodeProduction production)) (argumentText argument)
                     SymbolKind_Parameter with
             | None => [mkRecord (fileOf this) (atIdentifier (ar_name argument))
                          Production_0_does_not_have_a_parameter_named_1_
                          [ArgText (Some (sy_name productionSymbol));
                           ArgText (argumentText argument)]]
             | Some _ => []
             end)).
Proof.
  unfold checkArgumentName; cbv zeta.
  fold (argumentText argument). fold (argumentKey argument).
  destruct (Dictionary.has nameSet (argumentKey argument)).
  - erewrite bind_Normal by apply reportAt_run.
    by rewrite addMessages_app, fileOf_addMessages.
  - unfold resolveSymbol. rewrite bind_assoc, bind_getThis.
    cbn [bindings addMessages with_diagnostics].
    destruct (BindingTable.resolveSymbol _ _ _ _).
    + rewrite !bind_mret. by rewrite app_nil_r.
    + rewrite !bind_mret. erewrite bind_Normal by apply reportAt_run.
      by rewrite addMessages_app, fileOf_addMessages.
Qed.

Lemma checkArgumentName_loop production productionSymbol this (arguments : list Argument) :
  ∀ (earlier : list Argument) (nameSet : Dictionary.t bool) reported,
    (∀ key, Dictionary.has nameSet key = true ↔ key ∈ argumentKey <$> earlier) →
    ∃ nameSet',
      forOfWith (checkArgumentName production productionSymbol) nameSet arguments
        (addMessages this reported)
      = (Normal nameSet',
         addMessages this
           (reported ++
            flat_map (λ '(earlier, argument),
                        if bool_decide (argumentKey argument ∈ argumentKey <$> earlier)
                        then [mkRecord (fileOf this) (atIdentifier (ar_name argument))
                                Argument_0_cannot_be_specified_multiple_times
                                [ArgText (argumentText argument)]]
                        else
                          match BindingTable.resolveSymbol (bindings this)
                                  (Some (NodeProduction production))
                                  (argumentText argument) SymbolKind_Parameter with
                          | None => [mkRecord (fileOf this) (atIdentifier (ar_name argument))
                                       Production_0_does_not_have_a_parameter_named_1_
                                       [ArgText (Some (sy_name productionSymbol));
                                        ArgText (argumentText argument)]]
                          | Some _ => []
                          end)
                     (withEarlierFrom earlier arguments)))
      ∧ ∀ key, Dictionary.has nameSet' key = true
               ↔ key ∈ argumentKey <$> (earlier ++ arguments).
Proof.
  induction arguments as [|argument arguments IH]; intros earlier nameSet reported Hset.
  - exists nameSet. rewrite forOfWith_nil; simpl. by rewrite !app_nil_r.
  - rewrite forOfWith_cons. cbn [withEarlierFrom flat_map].
    pose proof (checkArgumentName_run production productionSymbol nameSet argument
                  this reported) as Hbody.
    destruct (Dictionary.has nameSet (argumentKey argument)) eqn:Hhas.
    + rewrite bool_decide_eq_true_2 by by apply Hset.
      edestruct (IH (earlier ++ [argument]) nameSet) as (nameSet' & Hrun & Hset').
      { intros key. rewrite Hset, fmap_app, elem_of_app, list_fmap_singleton,
          list_elem_of_singleton.
        split; [tauto|]. intros [H| ->]; [done|by apply Hset]. }
      exists nameSet'. erewrite bind_Normal by apply Hbody.
      rewrite Hrun, <- !app_assoc. split; [done|].
      intros key. by rewrite Hset', <- app_assoc.
    + rewrite bool_decide_eq_false_2
        by (intros H; apply Hset in H; congruence).
      edestruct (IH (earlier ++ [argument])
                   (Dictionary.set nameSet (argumentKey argument) true))
        as (nameSet' & Hrun & Hset').
      { intros key. rewrite Dictionary_has_set, orb_true_iff, bool_decide_eq_true, Hset.
        rewrite fmap_app, elem_of_app, list_fmap_singleton, list_elem_of_singleton.
        split; intros [H|H]; auto. }
      exists nameSet'. erewrite bind_Normal by apply Hbody.
      rewrite Hrun, <- !app_assoc. split; [done|].
      intros key. by rewrite Hset', <- app_assoc.
Qed.

Lemma checkParameterCovered_loop nonterminalName nameSet (arguments : list Argument)
    (parameters : list Parameter_) this :
  (∀ key, Dictionary.has nameSet key = true ↔ key ∈ argumentKey <$> arguments) →
  Forall (λ p, is_Some (pa_name p)) parameters →
  ∀ reported,
    forOf (checkParameterCovered nonterminalName nameSet) parameters
      (addMessages this reported)
    = (Normal tt,
       addMessages this
         (reported ++ coverageRecords (fileOf this) nonterminalName arguments parameters)).
Proof.
  intros Hset. induction 1 as [|p parameters [name Hname] _ IH]; intros reported.
  - rewrite forOf_nil; simpl. by rewrite app_nil_r.
  - rewrite forOf_cons. unfold coverageRecords. cbn [flat_map].
    fold (coverageRecords (fileOf this) nonterminalName arguments parameters).
    assert (checkParameterCovered nonterminalName nameSet p (addMessages this reported)
            = (Normal tt,
               addMessages this
                 (reported ++
                  if bool_decide (parameterKey p ∈ argumentKey <$> arguments) then []
                  else [mkRecord (fileOf this) (atIdentifier nonterminalName)
                          There_is_no_argument_given_for_parameter_0_
                          [ArgText (parameterText p)]]))) as Hbody.
    { unfold checkParameterCovered, parameterKey, parameterText. rewrite Hname.
      rewrite bind_deref_Some. cbn [mbind option_bind].
      destruct (Dictionary.has nameSet (Js.keyOfText (id_text name))) eqn:Hhas; cbn [negb].
      - rewrite bool_decide_eq_true_2 by by apply Hset. by rewrite app_nil_r.
      - rewrite bool_decide_eq_false_2 by (intros H; apply Hset in H; congruence).
        by rewrite reportAt_run, addMessages_app. }
    erewrite bind_Normal by apply Hbody. by rewrite IH, <- app_assoc.
Qed.

(** C2, as amended: in strict mode, for a nonterminal whose production
    symbol resolves, the two loops of the check complete and report, in
    this order and one record each: a duplicate-argument diagnostic on each
    argument whose name was already given at the call site; a
    no-such-parameter diagnostic on each other argument whose name does not
    resolve to a parameter of the production; and a missing-argument
    diagnostic at the name of the nonterminal for each parameter of the
    production that no argument names, a parameter named only by a
    duplicated argument being covered.  Nothing else in the check of the
    nonterminal reports a duplicate or a missing argument; the check of the
    argument list that follows may report again that the production has no
    such parameter.

    Names are compared as keys of the set of the names met: for names
    that have a text the keys are the same exactly when the texts are, and
    a name without text has the key [undefined], as a name with that text
    has. *)
Theorem checkNonterminalStrict_matches_arguments (node : Nonterminal)
    (nonterminalName : Identifier) (productionSymbol : Symbol) (production : Production)
    (this this1 : Checker) :
  nt_name node = Some nonterminalName →
  checkIdentifier nonterminalName this = (Normal (Some productionSymbol), this1) →
  head (BindingTable.getDeclarations (bindings this1) (Some productionSymbol))
  = Some (NodeProduction production) →
  pl_elements <$> pr_parameterList production ≠ Some None →
  al_elements <$> nt_argumentList node ≠ Some None →
  Forall (λ p, is_Some (pa_name p)) (parametersOf production) →
  (∃ before after,
     messagesOf (checkNonterminalStrict node this).2
     = messagesOf this ++ before
       ++ argumentRecords (fileOf this) (bindings this1) production productionSymbol
            (argumentsOf node)
       ++ coverageRecords (fileOf this) nonterminalName (argumentsOf node)
            (parametersOf production)
       ++ after
     ∧ Forall (λ r, otherMessage (dr_message r)) before
     ∧ Forall (λ r, otherMessage (dr_message r)) after)
  ∧ (∀ argument earlier,
       Forall (λ a, is_Some (argumentText a)) (argument :: earlier) →
       (argumentKey argument ∈ argumentKey <$> earlier
        ↔ argumentText argument ∈ argumentText <$> earlier))
  ∧ (∀ parameter arguments,
       is_Some (parameterText parameter) →
       Forall (λ a, is_Some (argumentText a)) arguments →
       (parameterKey parameter ∈ argumentKey <$> arguments
        ↔ parameterText parameter ∈ argumentText <$> arguments))
  ∧ (∀ argument, argumentText argument = None → argumentKey argument = "undefined")
  ∧ (∀ parameter, parameterText parameter = None → parameterKey parameter = "undefined").
Proof.
  intros Hname Hsymbol Hfirst Hparameters Harguments Hnamed.
  split; [|split_and!].
  2:{ intros argument earlier [Hargument Hearlier]%Forall_cons.
      unfold argumentKey. rewrite (list_fmap_compose argumentText Js.keyOfText).
      apply keyOfText_elem_of; [done|]. by apply Forall_fmap. }
  2:{ intros parameter arguments Hparameter Harguments'.
      unfold argumentKey, parameterKey. rewrite (list_fmap_compose argumentText Js.keyOfText).
      apply keyOfText_elem_of; [done|]. by apply Forall_fmap. }
  2:{ by unfold argumentKey; intros argument ->. }
  2:{ by unfold parameterKey; intros parameter ->. }
  destruct (Emits_checkIdentifier nonterminalName this) as [Hfile (before & Hbefore & Hother)].
  rewrite Hsymbol in Hfile, Hbefore; simpl in Hfile, Hbefore.
  unfold checkNonterminalStrict. rewrite Hname, bind_deref_Some.
  erewrite bind_Normal by apply Hsymbol. cbv beta iota.
  rewrite !bind_assoc, bind_getThis. cbv beta. rewrite Hfirst. cbn [asProduction].
  rewrite !bind_assoc, bind_deref_Some.
  assert (match pr_parameterList production with
          | Some parameterList => deref (S := Checker) (pl_elements parameterList)
          | None => mret []
          end = mret (parametersOf production)) as ->.
  { unfold parametersOf. destruct (pr_parameterList production) as [parameterList|]; [|done].
    simpl in *. by destruct (pl_elements parameterList). }
  assert (match nt_argumentList node with
          | Some argumentList => deref (S := Checker) (al_elements argumentList)
          | None => mret []
          end = mret (argumentsOf node)) as ->.
  { unfold argumentsOf. destruct (nt_argumentList node) as [argumentList|]; [|done].
    simpl in *. by destruct (al_elements argumentList). }
  rewrite !bind_assoc, bind_mret, !bind_assoc, bind_mret, !bind_assoc.
  edestruct (checkArgumentName_loop production productionSymbol this1 (argumentsOf node) []
               (Dictionary.new None) []) as (nameSet & Hloop & Hset).
  { intros key. rewrite Dictionary_has_new. split; [done|]. by intros ?%elem_of_nil. }
  rewrite addMessages_nil, app_nil_l in Hloop. rewrite app_nil_l in Hset.
  change (flat_map _ (withEarlierFrom [] (argumentsOf node)))
    with (argumentRecords (fileOf this1) (bindings this1) production productionSymbol
            (argumentsOf node)) in Hloop.
  erewrite bind_Normal by apply Hloop.
  erewrite bind_Normal by (apply checkParameterCovered_loop; [exact Hset|exact Hnamed]).
  match goal with
  | |- context [?continuation (addMessages this1 ?records)] =>
      assert (Emits otherMessage continuation) as Hafter
  end.
  { destruct (nt_argumentList node); [apply Emits_checkArgumentList|apply Emits_mret]. }
  destruct (Hafter (addMessages this1
                      (argumentRecords (fileOf this1) (bindings this1) production
                         productionSymbol (argumentsOf node)
                       ++ coverageRecords (fileOf this1) nonterminalName (argumentsOf node)
                            (parametersOf production))))
    as [_ (after & Hmessages & Hother')].
  exists before, after. split; [|done]. cbv beta in *.
  rewrite Hmessages, messagesOf_addMessages, Hbefore, Hfile. by rewrite <- !app_assoc.
Qed.

(** ** The grammar of a production *)

(** C7: for a production with a colon token whose body is absent or of a
    kind that is not allowed, the grammar check reports one diagnostic and
    answers true; the position of the diagnostic is the sum of the end of
    the name, or of the parameter list, and of the end of the colon token:
    [pos += node.colonToken.end]. *)
Theorem checkGrammarProduction_position_is_a_sum (node : Production) (colonToken : Token)
    (this : Checker) :
  pr_colonToken node = Some colonToken →
  bodyRejected node = true →
  checkGrammarProduction node this
  = (Normal true,
     addMessages this
       [mkRecord (fileOf this)
          (AtPosition (endOfHead node + end_ (tk_info colonToken)))
          _0_expected
          [formatList [SyntaxKind.OneOfList; SyntaxKind.RightHandSide]]]).
Proof.
  intros Hcolon Hbody. unfold checkGrammarProduction, bodyRejected, endOfHead in *.
  rewrite Hcolon; cbv zeta.
  destruct (pr_body node) as [[]|]; try discriminate;
    unfold reportGrammarError, report;
    by erewrite bind_Normal by apply reportAt_run.
Qed.

(** ** Link ids *)

(** C5: for a right-hand side whose link reference has the text
    [My Label], the link id is [-y-abel]: the runs of characters other than
    lower-case letters and digits are replaced, the capitals among them;
    with the prefix it is the link id of the production, [-], then
    [-y-abel]. *)
Theorem getRightHandSideLinkId_of_My_Label (tokenText : SyntaxKind.t → option string)
    (isKeywordOrPunctuation : SyntaxKind.t → bool) (table : BindingTable.t)
    (node : RightHandSide) (reference : LinkReference) :
  rhs_reference node = Some reference →
  lr_text reference = Some "My Label" →
  getRightHandSideLinkId tokenText isKeywordOrPunctuation table node false
  = Normal "-y-abel"
  ∧ ∀ production,
      asProduction (BindingTable.getAncestor table (rhs_info node) SyntaxKind.Production)
      = Some production →
      getRightHandSideLinkId tokenText isKeywordOrPunctuation table node true
      = Normal (toStringValue (getProductionLinkId table (pr_name production))
                +:+ "-" +:+ "-y-abel").
Proof.
  intros Hreference Htext. unfold getRightHandSideLinkId.
  rewrite Hreference, Htext. split; [reflexivity|].
  intros production Hproduction. cbn [truthy default]. cbv zeta.
  change (truthy (Some "My Label")) with true. cbv iota.
  by rewrite Hproduction.
Qed.

(** ** The other methods of [Dictionary] *)

Section DictionaryMethods.
Context {T : Type}.
Implicit Types (d target source : Dictionary.t T) (key : string).

Lemma Dictionary_eq d1 d2 : Dictionary.props d1 = Dictionary.props d2 → d1 = d2.
Proof. destruct d1, d2; simpl. by intros ->. Qed.

Lemma Dictionary_valueAt_lookup d key : Dictionary.valueAt d key = Dictionary.props d !! key.
Proof.
  unfold Dictionary.valueAt, Js.get, Dictionary.toObject; simpl.
  by destruct (Dictionary.props d !! key).
Qed.

Lemma NoDup_ownKeys d : NoDup (Dictionary.ownKeys d).
Proof. rewrite Dictionary_ownKeys_props. apply NoDup_fst_map_to_list. Qed.

Lemma elem_of_ownKeys d key :
  key ∈ Dictionary.ownKeys d ↔ is_Some (Dictionary.props d !! key).
Proof.
  rewrite Dictionary_ownKeys_props, list_elem_of_fmap. split.
  - intros [[k v] [-> Hin%elem_of_map_to_list]]. eauto.
  - intros [v Hv]. exists (key, v). by rewrite elem_of_map_to_list.
Qed.

(** What a loop that sets one key for each key it visits leaves behind. *)
Lemma foldl_set_lookup {U} (h : string → option U) (keys : list string) :
  ∀ (acc : Dictionary.t U) key,
    Dictionary.props
      (foldl (λ acc k, match h k with
                       | Some u => Dictionary.set acc k u
                       | None => acc
                       end) acc keys) !! key
    = if bool_decide (key ∈ keys ∧ is_Some (h key)) then h key
      else Dictionary.props acc !! key.
Proof.
  induction keys as [|k keys IH]; intros acc key; cbn [foldl].
  - rewrite bool_decide_eq_false_2; [done|]. intros [[]%elem_of_nil _].
  - rewrite IH. clear IH.
    destruct (decide (key ∈ keys ∧ is_Some (h key))) as [[Hin Hsome]|Hnot].
    + rewrite !bool_decide_eq_true_2; [done| |done]. split; [by right|done].
    + rewrite (bool_decide_eq_false_2 _ Hnot).
      destruct (decide (key = k)) as [->|Hne].
      * destruct (h k) as [u|] eqn:Hk.
        -- rewrite bool_decide_eq_true_2 by (split; [by left|eauto]).
           by rewrite Dictionary_set_props, lookup_insert_eq.
        -- rewrite bool_decide_eq_false_2; [done|]. by intros [_ []].
      * rewrite bool_decide_eq_false_2.
        -- destruct (h k); [|done]. by rewrite Dictionary_set_props, lookup_insert_ne.
        -- intros [[->|Hin]%elem_of_cons Hsome]; [done|]. apply Hnot. done.
Qed.

Lemma firstReturn_Some {R} (body : string → option R) keys result :
  Dictionary.firstReturn body keys = Some result →
  ∃ key, key ∈ keys ∧ body key = Some result.
Proof.
  induction keys as [|k keys IH]; simpl; [done|].
  destruct (body k) as [r|] eqn:Hk.
  - intros [= <-]. exists k. split; [by left|done].
  - intros (key & Hin & Hkey)%IH. exists key. split; [by right|done].
Qed.

Lemma firstReturn_None {R} (body : string → option R) keys :
  Dictionary.firstReturn body keys = None ↔ ∀ key, key ∈ keys → body key = None.
Proof.
  induction keys as [|k keys IH]; simpl.
  - split; [|done]. by intros _ key ?%elem_of_nil.
  - destruct (body k) as [r|] eqn:Hk.
    + split; [done|]. intros H. specialize (H k (list_elem_of_here _ _)). congruence.
    + rewrite IH. split.
      * intros H key [->|Hin]%elem_of_cons; auto.
      * intros H key Hin. apply H. by right.
Qed.


Lemma Dictionary_get_Data d key (v : T) :
  Dictionary.get d key = Js.Data v ↔ Dictionary.props d !! key = Some v.
Proof.
  rewrite Dictionary_get_lookup. destruct (Dictionary.props d !! key); split; congruence.
Qed.

Lemma Dictionary_has_props d key :
  Dictionary.has d key = bool_decide (is_Some (Dictionary.props d !! key)).
Proof. reflexivity. Qed.

Lemma Dictionary_get_ext d1 d2 :
  (∀ key, Dictionary.get d1 key = Dictionary.get d2 key) → d1 = d2.
Proof.
  intros H. apply Dictionary_eq, map_eq. intros key. specialize (H key).
  rewrite !Dictionary_get_lookup in H.
  destruct (Dictionary.props d1 !! key), (Dictionary.props d2 !! key); congruence.
Qed.

Lemma foldl_ext {A B} (f g : A → B → A) (l : list B) (a : A) :
  (∀ a x, f a x = g a x) → foldl f a l = foldl g a l.
Proof.
  intros H. revert a. induction l as [|x l IH]; intros a; simpl; [done|].
  by rewrite H, IH.
Qed.

(** A loop over the own keys that reads the value of each key. *)
Lemma foldl_ownKeys_lookup {U} d (h : string → T → option U) (acc : Dictionary.t U) key :
  Dictionary.props
    (foldl (λ acc k, match Dictionary.valueAt d k with
                     | Some value =>
                         match h k value with
                         | Some u => Dictionary.set acc k u
                         | None => acc
                         end
                     | None => acc
                     end) acc (Dictionary.ownKeys d)) !! key
  = match Dictionary.props d !! key ≫= h key with
    | Some u => Some u
    | None => Dictionary.props acc !! key
    end.
Proof.
  rewrite (foldl_ext _ (λ acc k, match Dictionary.props d !! k ≫= h k with
                                 | Some u => Dictionary.set acc k u
                                 | None => acc
                                 end)).
  2:{ intros a k. simpl. rewrite Dictionary_valueAt_lookup.
      by destruct (Dictionary.props d !! k). }
  rewrite (foldl_set_lookup (λ k, Dictionary.props d !! k ≫= h k)).
  destruct (Dictionary.props d !! key ≫= h key) as [u|] eqn:Hu.
  - rewrite bool_decide_eq_true_2; [done|]. split; [|done].
    apply elem_of_ownKeys. destruct (Dictionary.props d !! key); [eauto|done].
  - rewrite bool_decide_eq_false_2; [done|]. by intros [_ []].
Qed.

End DictionaryMethods.

(** Writing a key and reading it back: the value written is found, under
    any key (the names of the built-in members of objects are keys like the
    others); the other keys are left alone; a second write to a key
    replaces the first; and writes to two keys done in either order give
    the same entries: [has] and [get] agree on every key (the order in which
    the keys are then enumerated is not spoken of). *)
Theorem Dictionary_set_then_get {T} (d : Dictionary.t T) (key : string) (v : T) :
  Dictionary.has (Dictionary.set d key v) key = true
  ∧ Dictionary.get (Dictionary.set d key v) key = Js.Data v
  ∧ (∀ key', key' ≠ key →
       Dictionary.has (Dictionary.set d key v) key' = Dictionary.has d key'
       ∧ Dictionary.get (Dictionary.set d key v) key' = Dictionary.get d key')
  ∧ (∀ v', Dictionary.set (Dictionary.set d key v') key v = Dictionary.set d key v)
  ∧ (∀ key' v' other, key' ≠ key →
       Dictionary.has (Dictionary.set (Dictionary.set d key v) key' v') other
       = Dictionary.has (Dictionary.set (Dictionary.set d key' v') key v) other
       ∧ Dictionary.get (Dictionary.set (Dictionary.set d key v) key' v') other
         = Dictionary.get (Dictionary.set (Dictionary.set d key' v') key v) other).
Proof.
  split_and!.
  - rewrite Dictionary_has_set. by rewrite bool_decide_eq_true_2.
  - rewrite Dictionary_get_set. by rewrite decide_True.
  - intros key' Hne. split.
    + rewrite Dictionary_has_set. by rewrite bool_decide_eq_false_2.
    + rewrite Dictionary_get_set. by rewrite decide_False.
  - intros v'. apply Dictionary_eq. rewrite !Dictionary_set_props. apply insert_insert_eq.
  - intros key' v' other Hne.
    assert (Dictionary.set (Dictionary.set d key v) key' v'
            = Dictionary.set (Dictionary.set d key' v') key v) as ->; [|done].
    apply Dictionary_eq. rewrite !Dictionary_set_props. by apply insert_insert_ne.
Qed.

Section DictionaryCombine.
Context {T : Type}.
Implicit Types (d target source : Dictionary.t T) (key : string).

Lemma Dictionary_assignFrom_props target source :
  Dictionary.props (Dictionary.assignFrom target source)
  = Dictionary.props source ∪ Dictionary.props target.
Proof.
  apply map_eq. intros key. unfold Dictionary.assignFrom.
  rewrite (foldl_ext _ (λ acc k, match Dictionary.props source !! k with
                                 | Some u => Dictionary.set acc k u
                                 | None => acc
                                 end)).
  2:{ intros a k. simpl. rewrite Dictionary_get_lookup.
      by destruct (Dictionary.props source !! k). }
  rewrite (foldl_set_lookup (λ k, Dictionary.props source !! k)), lookup_union.
  destruct (Dictionary.props source !! key) as [v|] eqn:Hv.
  - rewrite bool_decide_eq_true_2.
    + by destruct (Dictionary.props target !! key).
    + split; [|done]. apply elem_of_ownKeys. eauto.
  - rewrite bool_decide_eq_false_2 by by intros [_ []].
    by destruct (Dictionary.props target !! key).
Qed.

Lemma Dictionary_mergeFrom_props target source :
  Dictionary.props (Dictionary.mergeFrom target source)
  = Dictionary.props target ∪ Dictionary.props source.
Proof.
  unfold Dictionary.mergeFrom.
  assert (∀ keys acc key,
            Dictionary.props
              (foldl (λ target key,
                        if negb (Dictionary.has target key)
                        then match Dictionary.get source key with
                             | Js.Data value => Dictionary.set target key value
                             | _ => target
                             end
                        else target) acc keys) !! key
            = match Dictionary.props acc !! key with
              | Some v => Some v
              | None => if bool_decide (key ∈ keys)
                        then Dictionary.props source !! key else None
              end) as Hloop.
  { induction keys as [|k keys IH]; intros acc key; cbn [foldl].
    - rewrite bool_decide_eq_false_2 by by intros ?%elem_of_nil.
      by destruct (Dictionary.props acc !! key).
    - rewrite IH, Dictionary_has_props, Dictionary_get_lookup. clear IH.
      destruct (Dictionary.props acc !! k) as [w|] eqn:Hk; cbn [negb].
      + rewrite bool_decide_eq_true_2 by eauto. cbn [negb].
        destruct (Dictionary.props acc !! key) eqn:E; [done|].
        assert (key ≠ k) by congruence.
        repeat case_bool_decide; set_solver.
      + rewrite bool_decide_eq_false_2 by by intros []. cbn [negb].
        destruct (Dictionary.props source !! k) as [v|] eqn:Hs.
        * rewrite Dictionary_set_props.
          destruct (decide (key = k)) as [->|Hne].
          -- rewrite lookup_insert_eq, Hk, bool_decide_eq_true_2 by by left. done.
          -- rewrite lookup_insert_ne by done.
             destruct (Dictionary.props acc !! key); [done|].
             repeat case_bool_decide; set_solver.
        * destruct (Dictionary.props acc !! key) eqn:E; [done|].
          destruct (decide (key = k)) as [->|Hne].
          -- rewrite Hs. by repeat case_bool_decide.
          -- repeat case_bool_decide; set_solver. }
  apply map_eq. intros key. rewrite Hloop, lookup_union.
  destruct (Dictionary.props target !! key) eqn:E.
  - by destruct (Dictionary.props source !! key).
  - destruct (Dictionary.props source !! key) as [v|] eqn:Hv.
    + rewrite bool_decide_eq_true_2; [done|]. apply elem_of_ownKeys. eauto.
    + by case_bool_decide.
Qed.

End DictionaryCombine.

(** [assign] copies the entries of the sources onto the target, a later
    source replacing what an earlier one or the target held: a key is read
    from the last source that has it, and from the target when no source
    has it.  Assigning one dictionary onto a fresh one makes the copy that
    the constructor makes, which has the entries of the dictionary and no
    others. *)
Theorem Dictionary_assign_last_source_wins {T} (target : Dictionary.t T)
    (sources : list (Dictionary.t T)) (key : string) :
  Dictionary.get (Dictionary.assign target sources) key
  = match list_find (λ source, Dictionary.has source key = true) (reverse sources) with
    | Some (_, source) => Dictionary.get source key
    | None => Dictionary.get target key
    end
  ∧ Dictionary.has (Dictionary.assign target sources) key
    = Dictionary.has target key
      || existsb (λ source, Dictionary.has source key) sources
  ∧ ∀ source : Dictionary.t T,
      Dictionary.assign (Dictionary.new None) [source] = Dictionary.new (Some source)
      ∧ Dictionary.new (Some source) = source.
Proof.
  split_and!.
  - induction sources as [|source sources IH] using rev_ind; [done|].
    unfold Dictionary.assign in *. rewrite foldl_app, reverse_snoc. cbn [foldl list_find].
    rewrite Dictionary_get_lookup, Dictionary_assignFrom_props, lookup_union.
    rewrite Dictionary_get_lookup in IH.
    destruct (decide (Dictionary.has source key = true)) as [Hhas|Hhas].
    + apply Dictionary_has_lookup in Hhas as [v Hv]. rewrite Hv. simpl.
      rewrite Dictionary_get_lookup, Hv.
      by destruct (Dictionary.props (foldl Dictionary.assignFrom target sources) !! key).
    + assert (Dictionary.props source !! key = None) as ->.
      { rewrite Dictionary_has_lookup in Hhas.
        destruct (Dictionary.props source !! key); [|done]. exfalso. eauto. }
      rewrite (left_id None _).
      destruct (list_find _ (reverse sources)) as [[i s]|]; exact IH.
  - induction sources as [|source sources IH] using rev_ind; simpl.
    + by rewrite orb_false_r.
    + unfold Dictionary.assign in *. rewrite foldl_app, existsb_app. cbn [foldl existsb].
      rewrite orb_false_r, orb_assoc, <- IH.
      rewrite !Dictionary_has_props, Dictionary_assignFrom_props.
      apply eq_true_iff_eq.
      rewrite orb_true_iff, !bool_decide_eq_true, lookup_union_is_Some. tauto.
  - intros source. split; [|apply Dictionary_eq, Dictionary_new_copy].
    apply Dictionary_eq. unfold Dictionary.assign. cbn [foldl].
    rewrite Dictionary_assignFrom_props, Dictionary_new_copy.
    change (Dictionary.props (Dictionary.new None)) with (∅ : gmap string T).
    by rewrite (right_id_L ∅ (∪)).
Qed.

(** [merge] fills in the keys that the target lacks: a key of the target
    keeps its value, and a key that the target lacks is read from the first
    source that has it. *)
Theorem Dictionary_merge_first_source_wins {T} (target : Dictionary.t T)
    (sources : list (Dictionary.t T)) (key : string) :
  Dictionary.get (Dictionary.merge target sources) key
  = if Dictionary.has target key then Dictionary.get target key
    else match list_find (λ source, Dictionary.has source key = true) sources with
         | Some (_, source) => Dictionary.get source key
         | None => Js.Undefined
         end.
Proof.
  revert target. induction sources as [|source sources IH]; intros target.
  - simpl. rewrite Dictionary_get_lookup, Dictionary_has_props.
    destruct (Dictionary.props target !! key) eqn:E.
    + by rewrite bool_decide_eq_true_2 by eauto.
    + by rewrite bool_decide_eq_false_2 by by intros [].
  - unfold Dictionary.merge in *. cbn [foldl list_find]. rewrite IH. clear IH.
    rewrite !Dictionary_has_props, !Dictionary_get_lookup, Dictionary_mergeFrom_props.
    rewrite lookup_union.
    destruct (Dictionary.props target !! key) as [v|] eqn:Ht.
    + rewrite !bool_decide_eq_true_2 by (rewrite ?union_Some_l; eauto).
      by destruct (Dictionary.props source !! key).
    + destruct (Dictionary.props source !! key) as [v|] eqn:Hs;
        change (None ∪ Some v) with (Some v) || change (None ∪ None) with (@None T);
        destruct (decide _) as [Hhas|Hhas].
      * rewrite bool_decide_eq_true_2, bool_decide_eq_false_2 by (by eauto || by intros []).
        by rewrite Dictionary_get_lookup, Hs.
      * exfalso. apply Hhas, bool_decide_eq_true. eauto.
      * by apply bool_decide_eq_true in Hhas as [? ?].
      * rewrite !bool_decide_eq_false_2 by by intros [].
        by destruct (list_find _ sources) as [[i s]|].
Qed.

(** [map] keeps the keys and replaces each value by what the callback
    answers for it. *)
Theorem Dictionary_map_keeps_the_keys {T U This} (object : Dictionary.t T)
    (callbackfn : This → T → string → Dictionary.t T → U) (thisArg : This) (key : string) :
  Dictionary.has (Dictionary.map object callbackfn thisArg) key = Dictionary.has object key
  ∧ Dictionary.get (Dictionary.map object callbackfn thisArg) key
    = match Dictionary.get object key with
      | Js.Data value => Js.Data (callbackfn thisArg value key object)
      | _ => Js.Undefined
      end.
Proof.
  assert (Dictionary.props (Dictionary.map object callbackfn thisArg) !! key
          = (λ value, callbackfn thisArg value key object) <$> Dictionary.props object !! key) as Hmap.
  { etrans; [apply (foldl_ownKeys_lookup object
                      (λ k value, Some (callbackfn thisArg value k object)))|].
    by destruct (Dictionary.props object !! key). }
  split.
  - apply eq_true_iff_eq. by rewrite !Dictionary_has_lookup, Hmap, fmap_is_Some.
  - rewrite !Dictionary_get_lookup, Hmap. by destruct (Dictionary.props object !! key).
Qed.

(** [filter] keeps the entries for which the callback answers true, with
    their values, and nothing else. *)
Theorem Dictionary_filter_keeps_what_passes {T This} (object : Dictionary.t T)
    (callbackfn : This → T → string → Dictionary.t T → bool) (thisArg : This)
    (key : string) :
  Dictionary.get (Dictionary.filter object callbackfn thisArg) key
  = match Dictionary.get object key with
    | Js.Data value =>
        if callbackfn thisArg value key object then Js.Data value else Js.Undefined
    | _ => Js.Undefined
    end
  ∧ (Dictionary.has (Dictionary.filter object callbackfn thisArg) key = true →
     Dictionary.has object key = true).
Proof.
  assert (Dictionary.props (Dictionary.filter object callbackfn thisArg) !! key
          = Dictionary.props object !! key
            ≫= λ value, if callbackfn thisArg value key object then Some value else None)
    as Hfilter.
  { unfold Dictionary.filter.
    rewrite (foldl_ext _ (λ acc k,
               match Dictionary.valueAt object k with
               | Some value =>
                   match (if callbackfn thisArg value k object then Some value else None) with
                   | Some u => Dictionary.set acc k u
                   | None => acc
                   end
               | None => acc
               end)).
    2:{ intros acc k. destruct (Dictionary.valueAt object k) as [value|]; [|done].
        by destruct (callbackfn thisArg value k object). }
    rewrite (foldl_ownKeys_lookup object
               (λ k value, if callbackfn thisArg value k object then Some value else None)).
    by destruct (_ ≫= _). }
  split.
  - rewrite !Dictionary_get_lookup, Hfilter.
    destruct (Dictionary.props object !! key) as [value|]; simpl; [|done].
    by destruct (callbackfn thisArg value key object).
  - rewrite !Dictionary_has_lookup, Hfilter.
    destruct (Dictionary.props object !! key); [eauto|]. by intros [].
Qed.

(** A loop that sets, for each key it visits, a key computed from it. *)
Lemma foldl_set_pairs {U} (g : string → option (string * U)) (keys : list string)
    (acc : Dictionary.t U) (key' : string) :
  let result :=
    foldl (λ acc k, match g k with
                    | Some (k', u) => Dictionary.set acc k' u
                    | None => acc
                    end) acc keys in
  (is_Some (Dictionary.props result !! key')
   ↔ (∃ k u, k ∈ keys ∧ g k = Some (key', u)) ∨ is_Some (Dictionary.props acc !! key'))
  ∧ (∀ u, Dictionary.props result !! key' = Some u →
          (∃ k, k ∈ keys ∧ g k = Some (key', u)) ∨ Dictionary.props acc !! key' = Some u).
Proof.
  induction keys as [|k0 keys IH] using rev_ind; intros result.
  - simpl. split.
    + split; [by right|]. intros [(k & u & Hin & _)|H]; [by apply elem_of_nil in Hin|done].
    + intros u H. by right.
  - destruct IH as [IHsome IHvalue]. unfold result. rewrite foldl_app. cbn [foldl].
    set (earlier := foldl _ acc keys) in *.
    destruct (g k0) as [[k' u']|] eqn:Hk0.
    + rewrite Dictionary_set_props. split.
      * rewrite lookup_insert_is_Some, IHsome. split.
        -- intros [->|[Hne [(k & u & Hin & Hk)|Hacc]]].
           ++ left. exists k0, u'. split; [|done]. apply elem_of_app. right. by left.
           ++ left. exists k, u. split; [|done]. apply elem_of_app. by left.
           ++ by right.
        -- intros [(k & u & [Hin|Heq%list_elem_of_singleton]%elem_of_app & Hk)|Hacc];
             [|subst k|].
           ++ destruct (decide (k' = key')); [by left|]. right. split; [done|].
              left. eauto.
           ++ left. congruence.
           ++ destruct (decide (k' = key')); [by left|]. right. split; [done|]. by right.
      * intros u. rewrite lookup_insert_Some.
        intros [[-> ->]|[Hne [(k & Hin & Hk)|Hacc]%IHvalue]].
        -- left. exists k0. split; [|done]. apply elem_of_app. right. by left.
        -- left. exists k. split; [|done]. apply elem_of_app. by left.
        -- by right.
    + split.
      * rewrite IHsome. split.
        -- intros [(k & u & Hin & Hk)|Hacc]; [|by right].
           left. exists k, u. split; [|done]. apply elem_of_app. by left.
        -- intros [(k & u & [Hin|Heq%list_elem_of_singleton]%elem_of_app & Hk)|Hacc];
             [left; eauto|congruence|by right].
      * intros u [(k & Hin & Hk)|Hacc]%IHvalue; [|by right].
        left. exists k. split; [|done]. apply elem_of_app. by left.
Qed.

(** When no two visited keys set the same key, each one finds what it
    set. *)
Lemma foldl_set_pairs_injective {U} (g : string → option (string * U))
    (keys : list string) (acc : Dictionary.t U) (k key' : string) (u : U) :
  (∀ k1 k2 u1 u2, k1 ∈ keys → k2 ∈ keys →
                  g k1 = Some (key', u1) → g k2 = Some (key', u2) → k1 = k2) →
  k ∈ keys → g k = Some (key', u) →
  Dictionary.props
    (foldl (λ acc k, match g k with
                     | Some (k', u) => Dictionary.set acc k' u
                     | None => acc
                     end) acc keys) !! key' = Some u.
Proof.
  induction keys as [|k0 keys IH] using rev_ind; intros Hinj Hin Hk.
  - by apply elem_of_nil in Hin.
  - rewrite foldl_app. cbn [foldl].
    destruct (decide (k = k0)) as [<-|Hne].
    + rewrite Hk. by rewrite Dictionary_set_props, lookup_insert_eq.
    + apply elem_of_app in Hin as [Hin|Hin%list_elem_of_singleton]; [|done].
      assert (Dictionary.props
                (foldl (λ acc k, match g k with
                                 | Some (k', u) => Dictionary.set acc k' u
                                 | None => acc
                                 end) acc keys) !! key' = Some u) as Hearlier.
      { apply IH; [|done|done]. intros k1 k2 u1 u2 H1 H2. apply Hinj; apply elem_of_app; by left. }
      destruct (g k0) as [[k' u']|] eqn:Hk0; [|done].
      rewrite Dictionary_set_props, lookup_insert_ne; [done|].
      intros ->. apply Hne. apply (Hinj k k0 u u'); [| |done|done]; apply elem_of_app.
      * by left.
      * right. by left.
Qed.

Lemma Dictionary_invert_fold {T} (toText : T → string) (dict : Dictionary.t T) :
  Dictionary.invert toText dict
  = foldl (λ acc k, match (λ k, (λ value, (toText value, k)) <$> Dictionary.props dict !! k) k with
                    | Some (k', u) => Dictionary.set acc k' u
                    | None => acc
                    end) (Dictionary.new None) (Dictionary.ownKeys dict).
Proof.
  unfold Dictionary.invert. apply foldl_ext. intros acc k. simpl.
  rewrite Dictionary_get_lookup. by destruct (Dictionary.props dict !! k).
Qed.

Lemma Dictionary_invert_get {T} (toText : T → string) (dict : Dictionary.t T)
    (text key : string) :
  Dictionary.get (Dictionary.invert toText dict) text = Js.Data key →
  ∃ value, Dictionary.get dict key = Js.Data value ∧ toText value = text.
Proof.
  rewrite Dictionary_invert_fold.
  destruct (foldl_set_pairs
              (λ k, (λ value, (toText value, k)) <$> Dictionary.props dict !! k)
              (Dictionary.ownKeys dict) (Dictionary.new None) text) as [_ Hvalue].
  intros [(k & _ & Hk)|[=]]%Dictionary_get_Data%Hvalue.
  destruct (Dictionary.props dict !! k) as [value|] eqn:E; [|done].
  injection Hk as <- <-. exists value. by rewrite Dictionary_get_Data.
Qed.

(** [invert] turns the entries around: its keys are the texts of the values
    of the dictionary, and under such a text is found a key that had a
    value with that text. *)
Theorem Dictionary_invert_turns_entries_around {T} (toText : T → string)
    (dict : Dictionary.t T) (text : string) :
  (Dictionary.has (Dictionary.invert toText dict) text = true
   ↔ ∃ key value, Dictionary.get dict key = Js.Data value ∧ toText value = text)
  ∧ (∀ key, Dictionary.get (Dictionary.invert toText dict) text = Js.Data key →
            ∃ value, Dictionary.get dict key = Js.Data value ∧ toText value = text).
Proof.
  split; [|intros key; apply Dictionary_invert_get].
  rewrite Dictionary_invert_fold.
  destruct (foldl_set_pairs
              (λ k, (λ value, (toText value, k)) <$> Dictionary.props dict !! k)
              (Dictionary.ownKeys dict) (Dictionary.new None) text) as [Hsome Hvalue].
  - rewrite Dictionary_has_lookup, Hsome. split.
    + intros [(k & u & _ & Hk)|[? [=]]].
      destruct (Dictionary.props dict !! k) as [value|] eqn:E; [|done].
      injection Hk as <- <-. exists k, value. by rewrite Dictionary_get_Data.
    + intros (key & value & Hget%Dictionary_get_Data & <-). left.
      exists key, key. split; [apply elem_of_ownKeys; eauto|]. by rewrite Hget.
Qed.

Lemma Dictionary_invert_invert_props (dict : Dictionary.t string) :
  (∀ key1 key2 value,
     Dictionary.get dict key1 = Js.Data value → Dictionary.get dict key2 = Js.Data value →
     key1 = key2) →
  Dictionary.props (Dictionary.invert (λ text, text) (Dictionary.invert (λ text, text) dict))
  = Dictionary.props dict.
Proof.
  intros Hdistinct.
  assert (∀ text key, Dictionary.props (Dictionary.invert (λ text, text) dict) !! text = Some key
                      ↔ Dictionary.props dict !! key = Some text) as Hfirst.
  { intros text key. split.
    - intros H. apply Dictionary_get_Data in H.
      apply (Dictionary_invert_get (λ text, text)) in H as (v & Hv & ->).
      by apply Dictionary_get_Data.
    - intros H. rewrite Dictionary_invert_fold.
      apply (foldl_set_pairs_injective _ _ _ key).
      + intros k1 k2 u1 u2 _ _ H1 H2.
        destruct (Dictionary.props dict !! k1) as [v1|] eqn:E1; [|done].
        destruct (Dictionary.props dict !! k2) as [v2|] eqn:E2; [|done].
        simpl in H1, H2. injection H1 as -> <-. injection H2 as -> <-.
        apply (Hdistinct _ _ text); by apply Dictionary_get_Data.
      + apply elem_of_ownKeys. eauto.
      + by rewrite H. }
  apply map_eq. intros key.
  apply option_eq. intros text. rewrite <- Hfirst.
  set (inverted := Dictionary.invert (λ text, text) dict) in *. split.
  - intros H. apply Dictionary_get_Data in H.
    apply (Dictionary_invert_get (λ text, text)) in H as (v & Hv & ->).
    by apply Dictionary_get_Data.
  - intros H. rewrite Dictionary_invert_fold.
    apply (foldl_set_pairs_injective _ _ _ text).
    + intros k1 k2 u1 u2 _ _ H1 H2.
      destruct (Dictionary.props inverted !! k1) as [v1|] eqn:E1; [|done].
      destruct (Dictionary.props inverted !! k2) as [v2|] eqn:E2; [|done].
      simpl in H1, H2. injection H1 as -> <-. injection H2 as -> <-.
      apply Hfirst in E1, E2. congruence.
    + apply elem_of_ownKeys. eauto.
    + by rewrite H.
Qed.

(** For a dictionary of strings in which no two keys have the same value,
    inverting twice gives the entries of the dictionary back: under every
    key [has] and [get] answer as they do on the dictionary (the order in
    which the keys are enumerated is not spoken of). *)
Theorem Dictionary_invert_twice (dict : Dictionary.t string) (key : string) :
  (∀ key1 key2 value,
     Dictionary.get dict key1 = Js.Data value → Dictionary.get dict key2 = Js.Data value →
     key1 = key2) →
  Dictionary.has (Dictionary.invert (λ text, text) (Dictionary.invert (λ text, text) dict)) key
  = Dictionary.has dict key
  ∧ Dictionary.get (Dictionary.invert (λ text, text) (Dictionary.invert (λ text, text) dict))
      key
    = Dictionary.get dict key.
Proof.
  intros Hdistinct. apply Dictionary_invert_invert_props in Hdistinct.
  by rewrite !Dictionary_has_props, !Dictionary_get_lookup, Hdistinct.
Qed.

(** [mapPairs] holds the keys that the callback answers, each with a value
    that the callback answered together with it. *)
Theorem Dictionary_mapPairs_holds_the_pairs {T U This} (object : Dictionary.t T)
    (callbackfn : This → T → string → Dictionary.t T → string * U) (thisArg : This)
    (mappedKey : string) :
  (Dictionary.has (Dictionary.mapPairs object callbackfn thisArg) mappedKey = true
   ↔ ∃ key value, Dictionary.get object key = Js.Data value
                  ∧ (callbackfn thisArg value key object).1 = mappedKey)
  ∧ (∀ mappedValue,
       Dictionary.get (Dictionary.mapPairs object callbackfn thisArg) mappedKey
       = Js.Data mappedValue →
       ∃ key value, Dictionary.get object key = Js.Data value
                    ∧ callbackfn thisArg value key object = (mappedKey, mappedValue)).
Proof.
  assert (Dictionary.mapPairs object callbackfn thisArg
          = foldl (λ acc k,
                     match (λ k, (λ value, callbackfn thisArg value k object)
                                 <$> Dictionary.props object !! k) k with
                     | Some (k', u) => Dictionary.set acc k' u
                     | None => acc
                     end) (Dictionary.new None) (Dictionary.ownKeys object)) as ->.
  { unfold Dictionary.mapPairs. apply foldl_ext. intros acc k. simpl.
    rewrite Dictionary_valueAt_lookup. by destruct (Dictionary.props object !! k). }
  destruct (foldl_set_pairs
              (λ k, (λ value, callbackfn thisArg value k object)
                    <$> Dictionary.props object !! k)
              (Dictionary.ownKeys object) (Dictionary.new None) mappedKey) as [Hsome Hvalue].
  split.
  - rewrite Dictionary_has_lookup, Hsome. split.
    + intros [(k & u & _ & Hk)|[? [=]]].
      destruct (Dictionary.props object !! k) as [value|] eqn:E; [|done].
      simpl in Hk. injection Hk as Hk. exists k, value.
      rewrite Dictionary_get_Data. by rewrite Hk.
    + intros (key & value & Hget%Dictionary_get_Data & <-). left.
      exists key, (callbackfn thisArg value key object).2.
      split; [apply elem_of_ownKeys; eauto|]. rewrite Hget. simpl.
      by destruct (callbackfn thisArg value key object).
  - intros mappedValue [(k & _ & Hk)|[=]]%Dictionary_get_Data%Hvalue.
    destruct (Dictionary.props object !! k) as [value|] eqn:E; [|done].
    simpl in Hk. injection Hk as Hk. exists k, value. by rewrite Dictionary_get_Data.
Qed.

(** [some] tells whether the callback answers true for an entry; without a
    callback it tells whether there is an entry at all. *)
Theorem Dictionary_some_finds_an_entry {T This} (object : Dictionary.t T)
    (callbackfn : This → T → string → Dictionary.t T → bool) (thisArg : This) :
  (Dictionary.some object (Some callbackfn) thisArg = true
   ↔ ∃ key value, Dictionary.get object key = Js.Data value
                  ∧ callbackfn thisArg value key object = true)
  ∧ (Dictionary.some object None thisArg = true ↔ ∃ key, Dictionary.has object key = true)
  ∧ Dictionary.some (Dictionary.new None) (Some callbackfn) thisArg = false.
Proof.
  unfold Dictionary.some. split_and!.
  - destruct (Dictionary.firstReturn _ _) as [result|] eqn:Hloop; simpl.
    + apply firstReturn_Some in Hloop as (key & _ & Hbody).
      rewrite Dictionary_valueAt_lookup in Hbody.
      destruct (Dictionary.props object !! key) as [value|] eqn:E; [|done]. simpl in Hbody.
      destruct (callbackfn thisArg value key object) eqn:Hc; [|done].
      injection Hbody as <-. split; [|done]. intros _. exists key, value.
      by rewrite Dictionary_get_Data.
    + split; [done|]. intros (key & value & Hget%Dictionary_get_Data & Hc).
      rewrite firstReturn_None in Hloop.
      specialize (Hloop key). rewrite Dictionary_valueAt_lookup, Hget in Hloop.
      simpl in Hloop. rewrite Hc in Hloop. discriminate Hloop.
      apply elem_of_ownKeys. eauto.
  - destruct (Dictionary.firstReturn _ _) as [result|] eqn:Hloop; simpl.
    + apply firstReturn_Some in Hloop as (key & Hin & Hbody).
      rewrite Dictionary_valueAt_lookup in Hbody.
      destruct (Dictionary.props object !! key) as [value|] eqn:E; [|done].
      injection Hbody as <-. split; [|done]. intros _. exists key.
      apply Dictionary_has_lookup. eauto.
    + split; [done|]. intros (key & [value Hv]%Dictionary_has_lookup).
      rewrite firstReturn_None in Hloop.
      specialize (Hloop key). rewrite Dictionary_valueAt_lookup, Hv in Hloop.
      discriminate Hloop. apply elem_of_ownKeys. eauto.
  - reflexivity.
Qed.

Lemma Dictionary_everyLoop {T This} (object : Dictionary.t T)
    (callbackfn : This → T → string → Dictionary.t T → bool) (thisArg : This)
    (keys : list string) :
  keys ⊆ Dictionary.ownKeys object →
  ∀ any,
    Dictionary.everyLoop object callbackfn thisArg any keys = true
    ↔ (any = true ∨ keys ≠ [])
      ∧ ∀ key value, key ∈ keys → Dictionary.props object !! key = Some value →
                     callbackfn thisArg value key object = true.
Proof.
  induction keys as [|k keys IH]; intros Hsub any; simpl.
  - split.
    + intros ->. split; [by left|]. by intros key value ?%elem_of_nil.
    + by intros [[->|?] _].
  - assert (k ∈ Dictionary.ownKeys object) as [value Hk]%elem_of_ownKeys
      by (apply Hsub; by left).
    rewrite Dictionary_valueAt_lookup, Hk.
    destruct (callbackfn thisArg value k object) eqn:Hc; simpl.
    + rewrite IH by (intros x Hx; apply Hsub; by right). split.
      * intros [_ Hall]. split; [by right|].
        intros key v [->|Hin]%elem_of_cons Hv; [congruence|eauto].
      * intros [_ Hall]. split; [by left|]. intros key v Hin. apply Hall. by right.
    + split; [done|]. intros [_ Hall].
      specialize (Hall k value (list_elem_of_here _ _) Hk). congruence.
Qed.

(** [every] tells whether the callback answers true for all the entries
    and there is an entry: for a dictionary without entries the answer is
    false. *)
Theorem Dictionary_every_needs_an_entry {T This} (object : Dictionary.t T)
    (callbackfn : This → T → string → Dictionary.t T → bool) (thisArg : This) :
  (Dictionary.every object callbackfn thisArg = true
   ↔ (∃ key, Dictionary.has object key = true)
     ∧ ∀ key value, Dictionary.get object key = Js.Data value →
                    callbackfn thisArg value key object = true)
  ∧ Dictionary.every (Dictionary.new None) callbackfn thisArg = false.
Proof.
  split; [|reflexivity].
  unfold Dictionary.every. rewrite Dictionary_everyLoop by done. split.
  - intros [[[=]|Hkeys] Hall]. split.
    + destruct (Dictionary.ownKeys object) as [|key keys] eqn:E; [done|].
      exists key. apply Dictionary_has_lookup, elem_of_ownKeys. rewrite E. by left.
    + intros key value Hget%Dictionary_get_Data. apply Hall; [|done].
      apply elem_of_ownKeys. eauto.
  - intros [[key Hkey%Dictionary_has_lookup%elem_of_ownKeys] Hall]. split.
    + right. intros E. rewrite E in Hkey. by apply elem_of_nil in Hkey.
    + intros k value _ Hk. apply Hall. by apply Dictionary_get_Data.
Qed.

(** [find] and [findKey] call the callback on the value, with the key as
    its first argument and the dictionary as its second.  They answer an
    entry for which the callback answers true, when there is one; a
    callback that tests its first argument against a name thus finds the
    entry under that key, whatever the values are. *)
Theorem Dictionary_find_tests_the_key {T} (object : Dictionary.t T)
    (callbackfn : T → string → Dictionary.t T → bool) :
  (Dictionary.find object callbackfn = Js.Undefined
   ↔ ∀ key value, Dictionary.get object key = Js.Data value →
                  callbackfn value key object = false)
  ∧ (∀ value, Dictionary.find object callbackfn = Js.Data value →
              ∃ key, Dictionary.get object key = Js.Data value
                     ∧ callbackfn value key object = true)
  ∧ (Dictionary.findKey object callbackfn = None
     ↔ Dictionary.find object callbackfn = Js.Undefined)
  ∧ (∀ key, Dictionary.findKey object callbackfn = Some key →
            ∃ value, Dictionary.get object key = Js.Data value
                     ∧ callbackfn value key object = true)
  ∧ (∀ name, Dictionary.find object (λ _ first _, bool_decide (first = name))
             = Dictionary.get object name).
Proof.
  assert (∀ (R : Type) (pick : T → string → R),
            Dictionary.firstReturn
              (λ key, value ← Dictionary.valueAt object key;
                      if callbackfn value key object then Some (pick value key) else None)
              (Dictionary.ownKeys object) = None
            ↔ ∀ key value, Dictionary.get object key = Js.Data value →
                           callbackfn value key object = false) as Hnone.
  { intros R pick. rewrite firstReturn_None. split.
    - intros H key value Hget%Dictionary_get_Data.
      specialize (H key). rewrite Dictionary_valueAt_lookup, Hget in H. simpl in H.
      destruct (callbackfn value key object); [|done].
      discriminate H. apply elem_of_ownKeys. eauto.
    - intros H key _. rewrite Dictionary_valueAt_lookup.
      destruct (Dictionary.props object !! key) as [value|] eqn:E; [|done]. simpl.
      by rewrite (H key value) by by apply Dictionary_get_Data. }
  assert (∀ (R : Type) (pick : T → string → R) result,
            Dictionary.firstReturn
              (λ key, value ← Dictionary.valueAt object key;
                      if callbackfn value key object then Some (pick value key) else None)
              (Dictionary.ownKeys object) = Some result →
            ∃ key value, Dictionary.get object key = Js.Data value
                         ∧ callbackfn value key object = true
                         ∧ result = pick value key) as Hsome.
  { intros R pick result (key & _ & Hbody)%firstReturn_Some.
    rewrite Dictionary_valueAt_lookup in Hbody.
    destruct (Dictionary.props object !! key) as [value|] eqn:E; [|done]. simpl in Hbody.
    destruct (callbackfn value key object) eqn:Hc; [|done].
    injection Hbody as <-. exists key, value. by rewrite Dictionary_get_Data. }
  unfold Dictionary.find, Dictionary.findKey. split_and!.
  - rewrite <- (Hnone T (λ value _, value)).
    by destruct (Dictionary.firstReturn _ _).
  - intros value.
    destruct (Dictionary.firstReturn _ _) as [result|] eqn:Hloop; [|done].
    intros [= ->]. apply (Hsome T (λ value _, value)) in Hloop as (key & v & ? & ? & ->).
    eauto.
  - rewrite (Hnone string (λ _ key, key)), <- (Hnone T (λ value _, value)).
    by destruct (Dictionary.firstReturn _ _).
  - intros key Hloop.
    apply (Hsome string (λ _ key, key)) in Hloop as (k & v & ? & ? & ->). eauto.
  - intros name.
    destruct (Dictionary.firstReturn _ _) as [result|] eqn:Hloop.
    + apply firstReturn_Some in Hloop as (key & _ & Hbody).
      rewrite Dictionary_valueAt_lookup in Hbody.
      destruct (Dictionary.props object !! key) as [value|] eqn:E; [|done]. simpl in Hbody.
      case_bool_decide; [|done]. injection Hbody as <-. subst key.
      symmetry. by apply Dictionary_get_Data.
    + rewrite firstReturn_None in Hloop. rewrite Dictionary_get_lookup.
      destruct (Dictionary.props object !! name) as [value|] eqn:E; [|done].
      specialize (Hloop name). rewrite Dictionary_valueAt_lookup, E in Hloop. simpl in Hloop.
      rewrite bool_decide_eq_true_2 in Hloop by done.
      discriminate Hloop. apply elem_of_ownKeys. eauto.
Qed.

(** [includes] tells whether a key has the value, and [keyOf] answers such
    a key when there is one. *)
Theorem Dictionary_keyOf_finds_the_value {T} `{EqDecision T} (object : Dictionary.t T)
    (value : T) :
  (Dictionary.includes object value = true
   ↔ ∃ key, Dictionary.get object key = Js.Data value)
  ∧ (Dictionary.keyOf object value = None ↔ Dictionary.includes object value = false)
  ∧ (∀ key, Dictionary.keyOf object value = Some key →
            Dictionary.get object key = Js.Data value).
Proof.
  assert (∀ (R : Type) (pick : string → R),
            Dictionary.firstReturn
              (λ key, if bool_decide (Dictionary.valueAt object key = Some value)
                      then Some (pick key) else None)
              (Dictionary.ownKeys object) = None
            ↔ ¬ ∃ key, Dictionary.get object key = Js.Data value) as Hnone.
  { intros R pick. rewrite firstReturn_None. split.
    - intros H [key Hget%Dictionary_get_Data].
      specialize (H key). rewrite Dictionary_valueAt_lookup in H.
      rewrite bool_decide_eq_true_2 in H by done.
      discriminate H. apply elem_of_ownKeys. eauto.
    - intros H key _. case_bool_decide as Hv; [|done]. exfalso. apply H. exists key.
      apply Dictionary_get_Data. by rewrite <- Dictionary_valueAt_lookup. }
  unfold Dictionary.includes, Dictionary.keyOf. split_and!.
  - destruct (Dictionary.firstReturn _ _) as [result|] eqn:Hloop; simpl.
    + apply firstReturn_Some in Hloop as (key & _ & Hbody).
      case_bool_decide as Hv; [|done]. injection Hbody as <-. split; [|done].
      intros _. exists key. apply Dictionary_get_Data.
      by rewrite <- Dictionary_valueAt_lookup.
    + split; [done|]. intros Hex. by apply (Hnone bool (λ _, true)) in Hloop.
  - rewrite (Hnone string (λ key, key)).
    destruct (Dictionary.firstReturn (λ key, if bool_decide _ then Some true else None) _)
      as [result|] eqn:Hloop; simpl.
    + apply firstReturn_Some in Hloop as (key & _ & Hbody).
      case_bool_decide as Hv; [|done]. injection Hbody as <-. split; [|done].
      intros H. exfalso. apply H. exists key. apply Dictionary_get_Data.
      by rewrite <- Dictionary_valueAt_lookup.
    + split; [done|]. intros _. by apply (Hnone bool (λ _, true)).
  - intros key (k & _ & Hbody)%firstReturn_Some.
    case_bool_decide as Hv; [|done]. injection Hbody as ->.
    apply Dictionary_get_Data. by rewrite <- Dictionary_valueAt_lookup.
Qed.

(** ** [binarySearch] *)

Lemma toInt32_small (z : Z) : (- 2 ^ 31 <= z < 2 ^ 31)%Z → toInt32 z = z.
Proof.
  intros Hz. unfold toInt32. cbv zeta.
  destruct (decide (0 <= z)%Z).
  - rewrite Z.mod_small by lia. destruct (Z.ltb_spec z (2 ^ 31)); lia.
  - replace (z mod 2 ^ 32)%Z with (z + 2 ^ 32)%Z.
    + destruct (Z.ltb_spec (z + 2 ^ 32) (2 ^ 31)); lia.
    + apply Z.mod_unique with (q := (-1)%Z); lia.
Qed.

Lemma elementAt_Some (array : list Z) (index x : Z) :
  elementAt array index = Some x ↔ (0 <= index)%Z ∧ array !! Z.to_nat index = Some x.
Proof.
  unfold elementAt. destruct (Z.ltb_spec index 0).
  - split; [done|]. intros [? _]. lia.
  - split; [intros H'; split; [lia|done]|by intros [_ H']].
Qed.

Lemma elementAt_inside (array : list Z) (index : Z) :
  (0 <= index < Z.of_nat (length array))%Z → is_Some (elementAt array index).
Proof.
  intros H. unfold elementAt. destruct (Z.ltb_spec index 0); [lia|].
  apply lookup_lt_is_Some. lia.
Qed.

Lemma StronglySorted_lookup_le (array : list Z) (i j : nat) (x y : Z) :
  StronglySorted Z.le array → array !! i = Some x → array !! j = Some y →
  (i <= j)%nat → (x <= y)%Z.
Proof.
  intros Hsorted. revert i j. induction Hsorted as [|a l _ IH Hall]; intros i j Hi Hj Hle.
  - done.
  - destruct i as [|i], j as [|j]; simpl in *.
    + simplify_eq. lia.
    + simplify_eq. rewrite Forall_forall in Hall. apply Hall.
      by apply list_elem_of_lookup_2 in Hj.
    + lia.
    + apply (IH i j); [done|done|lia].
Qed.

(** The loop, for an interval inside of an array of less than 2^31
    elements, with enough fuel: it ends, either on an index of the interval
    where the value is, or on the complement of the bound [low] that it has
    reached; [below] and [above] are kept by the turns that move the lower
    and the upper bound. *)
Lemma binarySearchLoop_spec (array : list Z) (value : Z)
    (below above : Z → Prop) :
  (Z.of_nat (length array) < 2 ^ 31)%Z →
  (∀ low middle x, below low → (low <= middle)%Z → elementAt array middle = Some x →
                   (x < value)%Z → below (middle + 1)%Z) →
  (∀ high middle x, above high → (middle <= high)%Z → elementAt array middle = Some x →
                    (value < x)%Z → above (middle - 1)%Z) →
  ∀ fuel low high,
    (0 <= low)%Z → (high < Z.of_nat (length array))%Z → (low <= high + 1)%Z →
    (high - low + 1 < Z.of_nat fuel)%Z →
    below low → above high →
    ∃ result,
      binarySearchLoop fuel array value low high = Some result
      ∧ ((low <= result <= high)%Z ∧ elementAt array result = Some value
         ∨ ∃ bound, result = (- bound - 1)%Z ∧ (low <= bound <= high + 1)%Z
                    ∧ below bound ∧ above (bound - 1)%Z).
Proof.
  intros Hlength Hbelow Habove.
  induction fuel as [|fuel IH]; intros low high Hlow Hhigh Horder Hfuel Hb Ha; [lia|].
  cbn [binarySearchLoop]. destruct (Z.leb_spec low high) as [Hle|Hgt].
  - cbv zeta. rewrite toInt32_small by lia. rewrite Z.shiftr_div_pow2 by lia.
    change (2 ^ 1)%Z with 2%Z.
    set (middle := (low + (high - low) / 2)%Z).
    assert (low <= middle <= high)%Z as Hmiddle.
    { unfold middle. pose proof (Z.div_pos (high - low) 2).
      assert ((high - low) / 2 <= high - low)%Z by (apply Z.div_le_upper_bound; lia).
      lia. }
    destruct (elementAt_inside array middle) as [midValue Hmid]; [lia|].
    rewrite Hmid. destruct (Z.eqb_spec midValue value) as [->|Hne].
    + exists middle. split; [done|]. by left.
    + rewrite Z.gtb_ltb. destruct (Z.ltb_spec value midValue) as [Hgreater|Hsmaller].
      * assert (above (middle - 1)%Z) as Ha' by (apply (Habove high middle midValue); [done|lia|done|lia]).
        destruct (IH low (middle - 1)%Z ltac:(lia) ltac:(lia) ltac:(lia) ltac:(lia) Hb Ha')
          as (result & Hrun & Hresult).
        exists result. split; [done|].
        destruct Hresult as [[? ?]|(bound & -> & ? & ? & ?)].
        -- left. split; [lia|done].
        -- right. exists bound. split_and!; try done; lia.
      * assert (below (middle + 1)%Z) as Hb' by (apply (Hbelow low middle midValue); [done|lia|done|lia]).
        destruct (IH (middle + 1)%Z high ltac:(lia) ltac:(lia) ltac:(lia) ltac:(lia) Hb' Ha)
          as (result & Hrun & Hresult).
        exists result. split; [done|].
        destruct Hresult as [[? ?]|(bound & -> & ? & ? & ?)].
        -- left. split; [lia|done].
        -- right. exists bound. split_and!; try done; lia.
  - exists (Z.lnot (toInt32 low)). split; [done|]. right. exists low.
    rewrite toInt32_small by lia. unfold Z.lnot.
    assert (high = low - 1)%Z as -> by lia.
    split_and!; try done; lia.
Qed.

(** For an array of less than 2^31 elements the search ends.  An answer
    that is not negative is an index at which the array holds the value;
    a negative answer is the complement [-(bound + 1)] of a bound between 0
    and the length of the array. *)
Theorem binarySearch_answers_an_index (array : list Z) (value : Z) :
  (Z.of_nat (length array) < 2 ^ 31)%Z →
  ∃ result,
    binarySearch array value = Some result
    ∧ ((0 <= result)%Z → array !! Z.to_nat result = Some value)
    ∧ ((result < 0)%Z → (0 <= Z.lnot result <= Z.of_nat (length array))%Z).
Proof.
  intros Hlength.
  destruct (binarySearchLoop_spec array value (λ _, True) (λ _, True) Hlength
              ltac:(done) ltac:(done) (S (length array)) 0%Z
              (Z.of_nat (length array) - 1)%Z ltac:(lia) ltac:(lia) ltac:(lia) ltac:(lia) I I)
    as (result & Hrun & Hresult).
  exists result. split; [done|].
  destruct Hresult as [[? [_ ?]%elementAt_Some]|(bound & -> & ? & _)].
  - split; [done|lia].
  - split; [lia|]. intros _. unfold Z.lnot. lia.
Qed.

(** On an array in ascending order the search is exact: a negative answer
    is given only when the value is not in the array, and it is then the
    complement of the place where the value would be put, all the elements
    before that place being smaller and all the others greater. *)
Theorem binarySearch_of_sorted_array (array : list Z) (value : Z) :
  (Z.of_nat (length array) < 2 ^ 31)%Z →
  StronglySorted Z.le array →
  ∃ result,
    binarySearch array value = Some result
    ∧ ((0 <= result)%Z ↔ value ∈ array)
    ∧ ((result < 0)%Z →
       ∀ (i : nat) x, array !! i = Some x →
                      if (Z.of_nat i <? Z.lnot result)%Z then (x < value)%Z
                      else (value < x)%Z).
Proof.
  intros Hlength Hsorted.
  set (below := λ bound : Z, ∀ (i : nat) x, array !! i = Some x →
                                            (Z.of_nat i < bound)%Z → (x < value)%Z).
  set (above := λ bound : Z, ∀ (i : nat) x, array !! i = Some x →
                                            (bound < Z.of_nat i)%Z → (value < x)%Z).
  destruct (binarySearchLoop_spec array value below above Hlength) with
    (fuel := S (length array)) (low := 0%Z) (high := (Z.of_nat (length array) - 1)%Z)
    as (result & Hrun & Hresult); try lia.
  - intros low middle x Hlow Hle [Hpos Hx]%elementAt_Some Hless i y Hy Hi.
    pose proof (StronglySorted_lookup_le array i (Z.to_nat middle) y x Hsorted Hy Hx). lia.
  - intros high middle x Hhigh Hle [Hpos Hx]%elementAt_Some Hless i y Hy Hi.
    pose proof (StronglySorted_lookup_le array (Z.to_nat middle) i x y Hsorted Hx Hy). lia.
  - intros i x _ Hi. lia.
  - intros i x Hx%lookup_lt_Some Hi. lia.
  - exists result. split; [done|].
    destruct Hresult as [[? [_ Hfound]%elementAt_Some]|(bound & -> & Hbound & Hb & Ha)].
    + split; [|lia]. split; [|lia]. intros _. by apply list_elem_of_lookup_2 in Hfound.
    + split.
      * split; [lia|]. intros [i Hi]%list_elem_of_lookup_1. exfalso.
        destruct (decide (Z.of_nat i < bound)%Z).
        -- pose proof (Hb i value Hi). lia.
        -- pose proof (Ha i value Hi). lia.
      * intros _ i x Hx. unfold Z.lnot.
        replace (Z.pred (- (- bound - 1)))%Z with bound by lia.
        destruct (Z.ltb_spec (Z.of_nat i) bound).
        -- by apply (Hb i).
        -- apply (Ha i x Hx). lia.
Qed.

(** ** [compare] *)









(** ** [Position] and [Range] *)

Ltac position_cases :=
  unfold Position.compare;
  rewrite ?Z.gtb_ltb;
  repeat match goal with
         | |- context [(?a <? ?b)%Z] => destruct (Z.ltb_spec a b)
         | |- context [(?a <=? ?b)%Z] => destruct (Z.leb_spec a b)
         | |- context [(?a >=? ?b)%Z] => rewrite (Z.geb_leb a b)
         | |- context [(?a =? ?b)%Z] => destruct (Z.eqb_spec a b)
         end.

Lemma Position_compare_le (p q : Position.t) :
  (Position.compare p q <=? 0)%Z = true ↔ positionLe p q.
Proof. unfold positionLe. position_cases; split; try done; try lia. Qed.

Lemma Position_compare_ge (p q : Position.t) :
  (Position.compare p q >=? 0)%Z = true ↔ positionLe q p.
Proof. unfold positionLe. position_cases; split; try done; try lia. Qed.

Lemma positionLe_refl (p : Position.t) : positionLe p p.
Proof. unfold positionLe. lia. Qed.

Lemma positionLe_trans (p q r : Position.t) : positionLe p q → positionLe q r → positionLe p r.
Proof. unfold positionLe. lia. Qed.

Lemma positionLe_antisym (p q : Position.t) : positionLe p q → positionLe q p → p = q.
Proof. unfold positionLe. destruct p, q; simpl. intros. f_equal; lia. Qed.

Lemma positionLe_total (p q : Position.t) : positionLe p q ∨ positionLe q p.
Proof. unfold positionLe. lia. Qed.

Lemma Position_equals_eq (p q : Position.t) : Position.equals p q = true ↔ p = q.
Proof.
  unfold Position.equals. rewrite andb_true_iff, !Z.eqb_eq. split.
  - destruct p, q; simpl. by intros [-> ->].
  - by intros ->.
Qed.

(** [Position.compare] orders the positions by line and then by character:
    it answers 0 for equal positions only, which is when [equals] answers
    true; the answer for two positions taken the other way round is the
    opposite one; and it is transitive. *)
Theorem Position_compare_is_an_order (p q r : Position.t) :
  (Position.compare p q = 0%Z ↔ p = q)
  ∧ (Position.equals p q = true ↔ Position.compare p q = 0%Z)
  ∧ Position.compare q p = (- Position.compare p q)%Z
  ∧ ((Position.compare p q <= 0)%Z → (Position.compare q r <= 0)%Z →
     (Position.compare p r <= 0)%Z)
  ∧ Position.equals (Position.clone p) p = true.
Proof.
  assert (Position.compare p q = 0%Z ↔ p = q) as Hzero.
  { split.
    - destruct p, q. position_cases; simpl in *; try done. intros _. f_equal; lia.
    - intros ->. position_cases; lia. }
  split_and!.
  - done.
  - by rewrite Position_equals_eq, Hzero.
  - position_cases; lia.
  - rewrite <- !Z.leb_le, !Position_compare_le. apply positionLe_trans.
  - apply Position_equals_eq. by destruct p.
Qed.

Lemma Range_contains_le (a b : Range.t) :
  Range.contains a b = true
  ↔ positionLe (Range.start a) (Range.start b) ∧ positionLe (Range.end_ b) (Range.end_ a).
Proof.
  unfold Range.contains. by rewrite andb_true_iff, Position_compare_le, Position_compare_ge.
Qed.

Lemma Range_containsPosition_le (a : Range.t) (p : Position.t) :
  Range.containsPosition a p = true
  ↔ positionLe (Range.start a) p ∧ positionLe p (Range.end_ a).
Proof.
  unfold Range.containsPosition.
  by rewrite andb_true_iff, Position_compare_le, Position_compare_ge.
Qed.

Lemma Range_equals_eq (a b : Range.t) : Range.equals a b = true ↔ a = b.
Proof.
  unfold Range.equals. rewrite andb_true_iff, !Position_equals_eq. split.
  - destruct a, b; simpl. by intros [-> ->].
  - by intros ->.
Qed.

(** [Range.contains] orders the ranges: every range contains itself, a
    range contained in a range contained in a third one is contained in
    the third, and two ranges that contain each other are equal; a range
    contains a position exactly when it contains the range collapsed on
    that position. *)
Theorem Range_contains_is_an_order (a b c : Range.t) (p : Position.t) :
  Range.contains a a = true
  ∧ (Range.contains a b = true → Range.contains b c = true → Range.contains a c = true)
  ∧ (Range.contains a b = true → Range.contains b a = true → Range.equals a b = true)
  ∧ Range.containsPosition a p = Range.contains a (Range.create p p)
  ∧ Range.equals (Range.clone a) a = true.
Proof.
  split_and!.
  - apply Range_contains_le. split; apply positionLe_refl.
  - rewrite !Range_contains_le. intros [? ?] [? ?]. split; eapply positionLe_trans; eauto.
  - rewrite !Range_contains_le, Range_equals_eq. intros [? ?] [? ?].
    destruct a as [s1 e1], b as [s2 e2]; simpl in *.
    f_equal; by apply positionLe_antisym.
  - reflexivity.
  - apply Range_equals_eq. by destruct a as [[] []].
Qed.

(** [Range.intersects] looks for an end of the second range in the first
    one: it finds a range that lies inside of the first one, and misses a
    range that stretches beyond the first one on both sides.  For a range
    inside of another one, with other ends, the answer thus depends on the
    order of the arguments. *)
Theorem Range_intersects_is_one_sided (inner outer : Range.t) :
  wellFormed inner →
  Range.contains outer inner = true →
  Range.start outer ≠ Range.start inner →
  Range.end_ outer ≠ Range.end_ inner →
  Range.intersects outer inner = true ∧ Range.intersects inner outer = false.
Proof.
  unfold wellFormed. rewrite Range_contains_le. intros Hinner [Hs He] Hstart Hend.
  unfold Range.intersects. split.
  - apply orb_true_iff. left. apply Range_containsPosition_le. split; [done|].
    eapply positionLe_trans; eauto.
  - apply orb_false_iff. split; apply not_true_is_false; rewrite Range_containsPosition_le.
    + intros [H _]. apply Hstart. by apply positionLe_antisym.
    + intros [_ H]. apply Hend. by apply positionLe_antisym.
Qed.

(** The ranges made by [collapseToStart] and [collapseToEnd] are collapsed,
    and lie in a range whose start is not after its end; such a range is
    itself collapsed only when its start is its end. *)
Theorem Range_collapse_gives_a_point (a : Range.t) :
  wellFormed a →
  Range.isCollapsed (Range.collapseToStart a) = true
  ∧ Range.isCollapsed (Range.collapseToEnd a) = true
  ∧ Range.contains a (Range.collapseToStart a) = true
  ∧ Range.contains a (Range.collapseToEnd a) = true
  ∧ (Range.isCollapsed a = true ↔ Range.start a = Range.end_ a).
Proof.
  intros Ha. unfold wellFormed in Ha. unfold Range.isCollapsed. split_and!.
  - apply Position_compare_ge, positionLe_refl.
  - apply Position_compare_ge, positionLe_refl.
  - apply Range_contains_le. split; [apply positionLe_refl|done].
  - apply Range_contains_le. split; [done|apply positionLe_refl].
  - rewrite Position_compare_ge. split.
    + intros H. by apply positionLe_antisym.
    + intros ->. apply positionLe_refl.
Qed.

(** ** What the checks of the elements leave alone *)

Lemma checked_refl this : checked this this.
Proof. repeat split. exists []. by rewrite app_nil_r. Qed.

Lemma checked_trans this1 this2 this3 :
  checked this1 this2 → checked this2 this3 → checked this1 this3.
Proof.
  intros (Hc1 & Ht1 & Hs1 & Hn1 & Hr1) (Hc2 & Ht2 & Hs2 & Hn2 & Hr2).
  rewrite Hn1 in Hr2. split_and!; try congruence. eapply reportsOnly_trans; eauto.
Qed.

Section ChecksFacts.
Variable noStrict : bool.

Lemma Checks_mret {A} (a : A) : Checks noStrict (mret a).
Proof. intros this _. apply checked_refl. Qed.

Lemma Checks_throw {A} e : Checks noStrict (throw (A := A) e).
Proof. intros this _. apply checked_refl. Qed.

Lemma Checks_deref {A} (value : option A) : Checks noStrict (deref value).
Proof. destruct value; [apply Checks_mret|apply Checks_throw]. Qed.

Lemma Checks_bind {A B} (m : Method A) (k : A → Method B) :
  Checks noStrict m → (∀ a, Checks noStrict (k a)) → Checks noStrict (m ≫= k).
Proof.
  intros Hm Hk this Hflag. specialize (Hm this Hflag). unfold mbind, Stateful_bind.
  destruct (m this) as [[a|e] this1]; simpl in *; [|done].
  eapply checked_trans; [exact Hm|]. apply Hk.
  destruct Hm as (_ & _ & _ & -> & _). done.
Qed.

Lemma Checks_getThis {B} (k : Checker → Method B) :
  (∀ this, noStrictParametricProductions this = noStrict → Checks noStrict (k this)) →
  Checks noStrict (getThis ≫= k).
Proof. intros Hk this Hflag. rewrite bind_getThis. by apply Hk. Qed.

Lemma Checks_setThis (f : Checker → Checker) :
  (∀ this, checkedFileSet (f this) = checkedFileSet this
           ∧ cancellationToken (f this) = cancellationToken this
           ∧ sourceFile (f this) = sourceFile this
           ∧ noStrictParametricProductions (f this) = noStrictParametricProductions this
           ∧ diagnostics (f this) = diagnostics this) →
  Checks noStrict (setThis f).
Proof.
  intros Hf this _. destruct (Hf this) as (? & ? & ? & ? & Hd). simpl.
  split_and!; try done. unfold reportsOnly, fileOf, messagesOf. rewrite Hd.
  split; [done|]. exists []. by rewrite app_nil_r.
Qed.

Lemma Checks_reportAt location message arguments :
  allowedUnder noStrict message → Checks noStrict (reportAt location message arguments).
Proof.
  intros Hallowed this Hflag. rewrite reportAt_run. simpl. split_and!; try done.
  split; [done|]. eexists [_]. split; [done|]. apply Forall_singleton. simpl. by rewrite Hflag.
Qed.

Lemma Checks_forOf {A} (body : A → Method unit) (l : list A) :
  (∀ x, Checks noStrict (body x)) → Checks noStrict (forOf body l).
Proof.
  intros Hbody. induction l as [|x l IH]; [apply Checks_mret|].
  rewrite forOf_cons. apply Checks_bind; [done|]. by intros _.
Qed.

Lemma Checks_forOfWith {A L} (body : L → A → Method L) (local : L) (l : list A) :
  (∀ local x, Checks noStrict (body local x)) → Checks noStrict (forOfWith body local l).
Proof.
  intros Hbody. revert local. induction l as [|x l IH]; intros local; [apply Checks_mret|].
  rewrite forOfWith_cons. apply Checks_bind; [done|]. done.
Qed.

Lemma Checks_orElse (a b : Method bool) :
  Checks noStrict a → Checks noStrict b → Checks noStrict (orElse a b).
Proof. intros Ha Hb. apply Checks_bind; [done|]. intros []; [apply Checks_mret|done]. Qed.

End ChecksFacts.

Ltac head_of term :=
  lazymatch term with
  | ?f _ => head_of f
  | _ => term
  end.

Ltac allowed_message :=
  unfold allowedUnder, strictOnly, matchingMessage, missingParameter;
  let H := fresh in
  intros H; first [ discriminate H | intros [?|[?|?]]; discriminate ].

Ltac checks_step :=
  lazymatch goal with
  | |- Checks _ (mret _) => apply Checks_mret
  | |- Checks _ (throw _) => apply Checks_throw
  | |- Checks _ (deref _) => apply Checks_deref
  | |- Checks _ (reportAt _ _ _) => apply Checks_reportAt; allowed_message
  | |- Checks _ (setThis _) => apply Checks_setThis; intros ?; by split_and!
  | |- Checks _ (getThis ≫= _) =>
      let this := fresh "this" in
      let Hflag := fresh "Hflag" in
      apply Checks_getThis; intros this Hflag; try rewrite !Hflag; cbv beta iota
  | |- Checks _ (orElse _ _) => apply Checks_orElse
  | |- Checks _ (forOf _ _) => apply Checks_forOf; intros ?
  | |- Checks _ (forOfWith _ _ _) => apply Checks_forOfWith; intros ? ?
  | |- Checks _ (_ ≫= _) => apply Checks_bind; [|intros ?]
  | |- Checks _ (match negb ?x with _ => _ end) => destruct x; cbv beta iota delta [negb]
  | |- Checks _ (match ?x with _ => _ end) => destruct x
  | |- Checks _ (let _ := _ in _) => cbv zeta
  | |- Checks _ (checkSymbolOrHigher _) => fail
  | |- Checks _ (checkSymbolSpanRest _) => fail
  | |- Checks _ ?m => let h := head_of m in unfold h
  end.

Ltac checks := repeat checks_step.

Lemma Checks_checkIdentifier noStrict node : Checks noStrict (checkIdentifier node).
Proof. checks. Qed.

Lemma Checks_checkSymbolOrHigher noStrict (node : LexicalSymbol) :
  Checks noStrict (checkSymbolOrHigher node)
with Checks_checkSymbolSpanRest noStrict (node : SymbolSpan) :
  Checks noStrict (checkSymbolSpanRest node).
Proof.
  - destruct node; cbn [checkSymbolOrHigher]; try (checks; fail).
    apply Checks_bind; [checks|intros _].
    destruct lookahead as [[info openBraceToken elements closeBraceToken|span]|].
    + apply Checks_bind; [checks|intros _].
      destruct elements as [elements|]; [|apply Checks_mret].
      induction elements as [|element elements IH]; [apply Checks_mret|].
      rewrite forOf_cons. apply Checks_bind; [apply Checks_checkSymbolSpanRest|by intros _].
    + apply Checks_checkSymbolSpanRest.
    + apply Checks_mret.
  - destruct node as [info symbol next]. cbn [checkSymbolSpanRest].
    apply Checks_bind; [checks|intros _].
    apply Checks_bind.
    + destruct symbol; [apply Checks_checkSymbolOrHigher|apply Checks_throw].
    + intros _. destruct next; [apply Checks_checkSymbolSpanRest|apply Checks_mret].
Qed.

Ltac checks_symbols :=
  repeat first [ apply Checks_checkSymbolOrHigher
               | apply Checks_checkSymbolSpanRest
               | checks_step ].

Lemma Checks_checkSourceElement noStrict (node : SourceElement) :
  Checks noStrict (checkSourceElement node).
Proof. checks_symbols. Qed.

Lemma checked_advanced this this' : checked this this' → advanced this this'.
Proof. intros (? & ? & _ & _ & _ & records & ? & _). split_and!; eauto. Qed.

Lemma advanced_refl this : advanced this this.
Proof. split_and!; try done. exists []. by rewrite app_nil_r. Qed.

Lemma advanced_trans this1 this2 this3 :
  advanced this1 this2 → advanced this2 this3 → advanced this1 this3.
Proof.
  intros (Hc1 & Ht1 & ds1 & Hm1) (Hc2 & Ht2 & ds2 & Hm2). split_and!; try congruence.
  exists (ds1 ++ ds2). by rewrite Hm2, Hm1, app_assoc.
Qed.

Lemma advanced_bind {A B} (m : Method A) (k : A → Method B) this :
  advanced this (m this).2 → (∀ a this1, advanced this1 (k a this1).2) →
  advanced this ((m ≫= k) this).2.
Proof.
  intros Hm Hk. unfold mbind, Stateful_bind.
  destruct (m this) as [[a|e] this1]; simpl in *; [|done].
  eapply advanced_trans; [exact Hm|apply Hk].
Qed.

Lemma advanced_forOf {A} (body : A → Method unit) (l : list A) :
  (∀ x this, advanced this (body x this).2) → ∀ this, advanced this (forOf body l this).2.
Proof.
  intros Hbody. induction l as [|x l IH]; intros this; [apply advanced_refl|].
  rewrite forOf_cons. apply advanced_bind; [done|]. by intros _.
Qed.

Lemma advanced_preprocessSourceElement node this :
  advanced this (preprocessSourceElement node this).2.
Proof.
  destruct node as [|d| |]; try apply advanced_refl. unfold preprocessSourceElement, preprocessDefine.
  apply advanced_bind.
  - apply checked_advanced.
    assert (Checks (noStrictParametricProductions this) (checkGrammarDefine d)) as H by checks.
    by apply H.
  - intros reported this1. destruct (isTruthy reported); simpl; [apply advanced_refl|].
    destruct (de_key d) as [nodeKey|]; [|apply advanced_refl].
    rewrite bind_deref_Some. case_bool_decide.
    + destruct (de_valueToken d) as [valueToken|]; [|apply advanced_refl].
      rewrite bind_deref_Some. unfold setThis. simpl. split_and!; try done.
      exists []. by rewrite app_nil_r.
    + rewrite reportAt_run. split_and!; try done. by eexists.
Qed.

Lemma preprocessSourceElement_run (node : SourceElement) (this : Checker) :
  ∃ this', preprocessSourceElement node this = (Normal tt, this')
           ∧ noStrictParametricProductions this'
             = default (noStrictParametricProductions this) (directive node)
           ∧ sourceFile this' = sourceFile this.
Proof.
  destruct node as [|d| |]; try (by eexists). unfold preprocessSourceElement, preprocessDefine.
  unfold directive, checkGrammarDefine, answered, reportGrammarError, report.
  destruct (de_key d) as [key|].
  - destruct (truthy (id_text key)) eqn:Htext.
    + destruct (de_valueToken d) as [valueToken|].
      * rewrite bind_mret. cbn [negb isTruthy default]. rewrite bind_deref_Some. cbv zeta.
        case_bool_decide.
        -- rewrite bind_deref_Some. by eexists.
        -- rewrite reportAt_run. by eexists.
      * rewrite !bind_assoc. erewrite bind_Normal by apply reportAt_run.
        rewrite !bind_mret. by eexists.
    + rewrite !bind_assoc. erewrite bind_Normal by apply reportAt_run.
      rewrite !bind_mret. cbn [negb isTruthy default]. eexists. split; [done|].
      split; [|done]. simpl.
      destruct (de_valueToken d); [|done]. case_bool_decide as Hkey; [|done].
      rewrite Hkey in Htext. discriminate Htext.
  - rewrite !bind_assoc. erewrite bind_Normal by apply reportAt_run.
    rewrite !bind_mret. by eexists.
Qed.

Lemma preprocessSourceElements_run (elements : list SourceElement) (this : Checker) :
  ∃ this', forOf preprocessSourceElement elements this = (Normal tt, this')
           ∧ noStrictParametricProductions this'
             = strictnessAfter elements (noStrictParametricProductions this)
           ∧ sourceFile this' = sourceFile this.
Proof.
  revert this. induction elements as [|element elements IH]; intros this.
  - by eexists.
  - rewrite forOf_cons.
    destruct (preprocessSourceElement_run element this) as (this1 & Hrun1 & Hflag1 & Hfile1).
    erewrite bind_Normal by exact Hrun1.
    destruct (IH this1) as (this' & Hrun & Hflag & Hfile). exists this'. split; [done|].
    rewrite Hflag, Hflag1, Hfile, Hfile1. done.
Qed.

(** The directives of a file are all read before its elements are checked:
    the pass over the elements that reads them completes, and leaves the
    flag that the last directive of the file gives, wherever it stands in
    the file; the pass that checks the elements then runs under that flag
    from its first element to its last. *)
Theorem directives_hold_for_the_whole_file (elements : list SourceElement) (this : Checker) :
  ∃ this',
    forOf preprocessSourceElement elements this = (Normal tt, this')
    ∧ noStrictParametricProductions this'
      = strictnessAfter elements (noStrictParametricProductions this)
    ∧ advanced this this'
    ∧ ∀ checkedElements : list SourceElement,
        noStrictParametricProductions (forOf checkSourceElement checkedElements this').2
        = strictnessAfter elements (noStrictParametricProductions this).
Proof.
  destruct (preprocessSourceElements_run elements this) as (this' & Hrun & Hflag & _).
  exists this'. split_and!; try done.
  - pose proof (advanced_forOf preprocessSourceElement elements
                  advanced_preprocessSourceElement this) as H.
    by rewrite Hrun in H.
  - intros checkedElements. rewrite <- Hflag.
    eapply (Checks_forOf _ checkSourceElement checkedElements); [|reflexivity].
    intros x. apply Checks_checkSourceElement.
Qed.

(** Under the flag [noStrictParametricProductions] the checks of the
    elements report no missing parameter, no duplicate argument and no
    missing argument, and they leave the flag set. *)
Theorem checkSourceElement_without_the_strict_checks (elements : list SourceElement)
    (this : Checker) :
  noStrictParametricProductions this = true →
  let this' := (forOf checkSourceElement elements this).2 in
  noStrictParametricProductions this' = true
  ∧ ∃ records, messagesOf this' = messagesOf this ++ records
               ∧ Forall (λ record, ¬ strictOnly (dr_message record)) records.
Proof.
  intros Hflag this'.
  destruct (Checks_forOf true checkSourceElement elements
              (λ x, Checks_checkSourceElement true x) this Hflag)
    as (_ & _ & _ & Hkept & _ & records & Hrecords & Hallowed).
  split; [by rewrite <- Hflag|]. exists records. split; [done|].
  eapply Forall_impl; [exact Hallowed|]. intros record H. by apply H.
Qed.

Lemma ended_bind {A} (file : SourceFile) (this0 this : Checker) (m : Method A)
    (k : A → Method unit) :
  advanced this0 this →
  advanced this (m this).2 →
  (∀ a this1, advanced this0 this1 → ended file this0 (k a this1)) →
  ended file this0 ((m ≫= k) this).
Proof.
  intros H0 Hm Hk. unfold mbind, Stateful_bind.
  destruct (m this) as [[a|e] this1]; simpl in *.
  - apply Hk. by eapply advanced_trans.
  - unfold ended; simpl. by eapply advanced_trans.
Qed.

Lemma advanced_setThis (f : Checker → Checker) this :
  checkedFileSet (f this) = checkedFileSet this →
  cancellationToken (f this) = cancellationToken this →
  diagnostics (f this) = diagnostics this →
  advanced this (setThis f this).2.
Proof.
  intros ? ? Hd. split_and!; try done. exists []. unfold messagesOf. simpl.
  by rewrite Hd, app_nil_r.
Qed.

Lemma checkSourceFile_ended (file : SourceFile) (this : Checker) :
  Dictionary.has (checkedFileSet this) (filename file) = false →
  ended file this (checkSourceFile file this).
Proof.
  intros Hunchecked. unfold checkSourceFile. rewrite bind_getThis, Hunchecked. cbn [negb].
  cbv zeta.
  apply ended_bind; [apply advanced_refl| |intros _ this1 H1].
  { unfold throwIfCancellationRequested. rewrite bind_getThis.
    destruct (cancellationRequested _); apply advanced_refl. }
  apply ended_bind; [done|by apply advanced_setThis|intros _ this2 H2].
  apply ended_bind; [done|by apply advanced_setThis|intros _ this3 H3].
  apply ended_bind; [done| |intros _ this4 H4].
  { rewrite bind_getThis. split_and!; try done. exists []. simpl. by rewrite app_nil_r. }
  apply ended_bind; [done| |intros _ this5 H5].
  { apply advanced_forOf. apply advanced_preprocessSourceElement. }
  apply ended_bind; [done| |intros _ this6 H6].
  { apply checked_advanced.
    apply (Checks_forOf (noStrictParametricProductions this5) checkSourceElement
             (elements file)); [|reflexivity].
    intros x. apply Checks_checkSourceElement. }
  apply ended_bind; [done|by apply advanced_setThis|intros _ this7 H7].
  apply ended_bind; [done|by apply advanced_setThis|intros _ this8 H8].
  apply ended_bind; [done|by apply advanced_setThis|intros _ this9 H9].
  destruct H9 as (Hc & Ht & records & Hm). unfold ended, setThis; simpl.
  split_and!; [by rewrite Hc|done|eauto].
Qed.

(** However a call of [checkSourceFile] ends, the messages reported before
    are still there, in the same order, before those that the call added;
    the cancellation token is the same; no other file has been marked as
    checked or is no longer so; and the file itself is marked as checked
    exactly when the call has returned, or when it had been checked
    before: a check that is thrown out of is not recorded. *)
Theorem checkSourceFile_keeps_what_was_reported (file : SourceFile) (this : Checker) :
  let completion := (checkSourceFile file this).1 in
  let this' := (checkSourceFile file this).2 in
  (∃ records, messagesOf this' = messagesOf this ++ records)
  ∧ cancellationToken this' = cancellationToken this
  ∧ (∀ name, name ≠ filename file →
       Dictionary.has (checkedFileSet this') name = Dictionary.has (checkedFileSet this) name)
  ∧ (Dictionary.has (checkedFileSet this') (filename file) = true
     ↔ completion = Normal tt ∨ Dictionary.has (checkedFileSet this) (filename file) = true).
Proof.
  intros completion this'.
  destruct (Dictionary.has (checkedFileSet this) (filename file)) eqn:Hchecked.
  - assert (checkSourceFile file this = (Normal tt, this)) as Hrun.
    { unfold checkSourceFile. by rewrite bind_getThis, Hchecked. }
    unfold this', completion. rewrite Hrun. simpl. split_and!; try done.
    + exists []. by rewrite app_nil_r.
    + by split; [right|].
  - pose proof (checkSourceFile_ended file this Hchecked) as Hended.
    unfold ended in Hended. fold completion this' in Hended.
    destruct completion as [[]|e].
    + destruct Hended as (Hset & Htoken & Hrecords). split_and!; try done.
      * intros name Hname. rewrite Hset, Dictionary_has_set.
        by rewrite bool_decide_eq_false_2 by done.
      * rewrite Hset, Dictionary_has_set. rewrite bool_decide_eq_true_2 by done.
        by split; [left|].
    + destruct Hended as (Hset & Htoken & Hrecords). split_and!; try done.
      * intros name _. by rewrite Hset.
      * rewrite Hset, Hchecked. split; [done|]. by intros [?|?].
Qed.

(** ** Checks that are thrown out of *)

(** A span without symbol is reported by the check of its shape, whose
    answer is not looked at; the check of the symbol that follows then
    throws, as it reads the kind of the symbol that is not there.  This
    holds for the span at the head of a right-hand side and for the spans
    after it. *)
Theorem checkSymbolSpan_without_symbol_throws (node : SymbolSpan) (this : Checker) :
  ss_symbol node = None →
  checkSymbolSpan node this
  = (Throw TypeError,
     addMessages this
       [mkRecord (fileOf this) (AtPosition (pos (ss_info node))) _0_expected
          [formatList [SyntaxKind.UnicodeCharacterLiteral; SyntaxKind.Terminal;
                       SyntaxKind.Identifier; SyntaxKind.OpenBracketToken;
                       SyntaxKind.Prose]]])
  ∧ checkSymbolSpanRest node this
    = (Throw TypeError,
       addMessages this
         [mkRecord (fileOf this) (AtPosition (pos (ss_info node))) _0_expected
            [formatList [SyntaxKind.UnicodeCharacterLiteral; SyntaxKind.Terminal;
                         SyntaxKind.Identifier; SyntaxKind.OpenBracketToken;
                         SyntaxKind.LineTerminatorToken]]]).
Proof.
  intros Hsymbol. split.
  - unfold checkSymbolSpan, checkGrammarSymbolSpan. rewrite Hsymbol.
    unfold reportGrammarError, report.
    by erewrite bind_Normal by (erewrite bind_Normal by apply reportAt_run; reflexivity).
  - destruct node as [info symbol next]. simpl in Hsymbol. subst symbol.
    cbn [checkSymbolSpanRest]. unfold checkGrammarSymbolSpanRest. cbn [ss_symbol ss_info].
    unfold reportGrammarError, report.
    by erewrite bind_Normal by (erewrite bind_Normal by apply reportAt_run; reflexivity).
Qed.

(** When the check of a file that was not cancelled is thrown out of, by
    the check of an element, the checker is left in the middle of the
    file: the flag is the one that the directives of the file gave, not
    the one the call was entered with, and the file is still the source
    file of the checker. *)
Theorem checkSourceFile_thrown_out_of (file : SourceFile) (this : Checker) (e : Exception) :
  Dictionary.has (checkedFileSet this) (filename file) = false →
  cancellationRequested (cancellationToken this) = false →
  (checkSourceFile file this).1 = Throw e →
  let this' := (checkSourceFile file this).2 in
  noStrictParametricProductions this'
  = strictnessAfter (elements file) (noStrictParametricProductions this)
  ∧ sourceFile this' = Some file.
Proof.
  intros Hunchecked Hcancel Hthrow this'. subst this'. revert Hthrow.
  unfold checkSourceFile.
  rewrite bind_getThis, Hunchecked. cbn [negb]. cbv zeta.
  unfold throwIfCancellationRequested.
  rewrite bind_assoc, bind_getThis, Hcancel, bind_mret, !bind_setThis.
  rewrite bind_assoc, bind_getThis. unfold setSourceFile. rewrite !bind_setThis.
  set (this3 := with_diagnostics _ _).
  destruct (preprocessSourceElements_run (elements file) this3)
    as (this4 & Hrun & Hflag & Hfile).
  erewrite !bind_Normal by exact Hrun.
  pose proof (Checks_forOf (noStrictParametricProductions this4) checkSourceElement
                (elements file) (λ x, Checks_checkSourceElement _ x) this4 eq_refl)
    as (_ & _ & Hsource & Hkept & _).
  unfold mbind, Stateful_bind.
  destruct (forOf checkSourceElement (elements file) this4) as [[[]|e'] this5]; [done|].
  intros _. simpl in *. split.
  - by rewrite Hkept, Hflag.
  - by rewrite Hsource, Hfile.
Qed.

(** ** The checks of the grammar *)

Lemma reportsAtMostOnce_false : reportsAtMostOnce (mret false).
Proof. intros this. by left. Qed.

Lemma reportsAtMostOnce_reportGrammarError position message argument :
  reportsAtMostOnce (reportGrammarError position message argument).
Proof.
  intros this. right. eexists. unfold reportGrammarError, report.
  by erewrite bind_Normal by apply reportAt_run.
Qed.

Lemma reportsAtMostOnce_reportGrammarErrorForNode location message argument :
  reportsAtMostOnce (reportGrammarErrorForNode location message argument).
Proof.
  intros this. right. eexists. unfold reportGrammarErrorForNode.
  by erewrite bind_Normal by apply reportAt_run.
Qed.

Lemma reportsAtMostOnce_getThis (k : Checker → Method bool) :
  (∀ this, reportsAtMostOnce (k this)) → reportsAtMostOnce (getThis ≫= k).
Proof. intros Hk this. rewrite bind_getThis. apply Hk. Qed.

Lemma reportsAtMostOnce_orElse (a b : Method bool) :
  reportsAtMostOnce a → reportsAtMostOnce b → reportsAtMostOnce (orElse a b).
Proof.
  intros Ha Hb this. unfold orElse.
  destruct (Ha this) as [Hrun|[record Hrun]]; erewrite bind_Normal by exact Hrun.
  - apply Hb.
  - right. by exists record.
Qed.

Lemma reportsOnceOrUndefined_undefined : reportsOnceOrUndefined (mret None).
Proof. intros this. by left. Qed.

Lemma reportsOnceOrUndefined_answered_reportGrammarError position message argument :
  reportsOnceOrUndefined (answered (reportGrammarError position message argument)).
Proof.
  intros this. right. eexists. unfold answered, reportGrammarError, report.
  rewrite !bind_assoc. by erewrite bind_Normal by apply reportAt_run.
Qed.

Lemma reportsOnceOrUndefined_answered_reportGrammarErrorForNode location message argument :
  reportsOnceOrUndefined (answered (reportGrammarErrorForNode location message argument)).
Proof.
  intros this. right. eexists. unfold answered, reportGrammarErrorForNode.
  rewrite !bind_assoc. by erewrite bind_Normal by apply reportAt_run.
Qed.

Ltac grammar_step :=
  lazymatch goal with
  | |- reportsOnceOrUndefined (mret None) => apply reportsOnceOrUndefined_undefined
  | |- reportsOnceOrUndefined (answered (reportGrammarError _ _ _)) =>
      apply reportsOnceOrUndefined_answered_reportGrammarError
  | |- reportsOnceOrUndefined (answered (reportGrammarErrorForNode _ _ _)) =>
      apply reportsOnceOrUndefined_answered_reportGrammarErrorForNode
  | |- reportsOnceOrUndefined (match ?x with _ => _ end) => destruct x
  | |- reportsAtMostOnce (mret false) => apply reportsAtMostOnce_false
  | |- reportsAtMostOnce (reportGrammarError _ _ _) =>
      apply reportsAtMostOnce_reportGrammarError
  | |- reportsAtMostOnce (reportGrammarErrorForNode _ _ _) =>
      apply reportsAtMostOnce_reportGrammarErrorForNode
  | |- reportsAtMostOnce (getThis ≫= _) => apply reportsAtMostOnce_getThis; intros ?
  | |- reportsAtMostOnce (orElse _ _) => apply reportsAtMostOnce_orElse
  | |- reportsAtMostOnce (match ?x with _ => _ end) => destruct x
  | |- reportsAtMostOnce (let _ := _ in _) => cbv zeta
  end.

Ltac grammar := repeat grammar_step.

(** The checks of the shape of a node report at most one diagnostic: the
    first component found missing or wrong is reported, with the answer
    true, and the components after it are not looked at.  When nothing is
    reported the answer is false, except for the checks of a [Define] and
    of a parameter list, which reach their end without [return] and answer
    [undefined]. *)
Theorem checkGrammar_reports_at_most_once :
  (∀ node, reportsOnceOrUndefined (checkGrammarDefine node))
  ∧ (∀ node, reportsAtMostOnce (checkGrammarProduction node))
  ∧ (∀ node, reportsOnceOrUndefined (checkGrammarParameterList node))
  ∧ (∀ node, reportsAtMostOnce (checkGrammarOneOfList node))
  ∧ (∀ node, reportsAtMostOnce (checkGrammarRightHandSideList node))
  ∧ (∀ node, reportsAtMostOnce (checkGrammarLinkReference node))
  ∧ (∀ node, reportsAtMostOnce (checkGrammarSymbolSpan node))
  ∧ (∀ node, reportsAtMostOnce (checkGrammarSymbolSpanRest node))
  ∧ (∀ node, reportsAtMostOnce (checkGrammarTerminal node))
  ∧ (∀ node, reportsAtMostOnce (checkGrammarUnicodeCharacterLiteral node))
  ∧ (∀ node, reportsAtMostOnce (checkGrammarArgumentList node))
  ∧ (∀ node, reportsAtMostOnce (checkGrammarArgument node))
  ∧ (∀ node, reportsAtMostOnce (checkGrammarIdentifier node))
  ∧ (∀ questionToken allowOptional,
       reportsAtMostOnce (checkGrammarOptionalSymbol questionToken allowOptional)).
Proof.
  split_and!; intros;
    unfold checkGrammarDefine, checkGrammarProduction, checkGrammarParameterList,
      checkGrammarOneOfList, checkGrammarRightHandSideList, checkGrammarLinkReference,
      checkGrammarSymbolSpan, checkGrammarSymbolSpanRest, checkGrammarTerminal,
      checkGrammarUnicodeCharacterLiteral, checkGrammarArgumentList, checkGrammarArgument,
      checkGrammarIdentifier, checkGrammarOptionalSymbol;
    grammar.
Qed.

(** ** The memo of parameter names *)

(** The set of the names of the parameters of a production is computed
    once during the check of a file: the call that finds nothing in the
    memo computes the set, of the names that are not empty, and stores it
    under the id of the production; a later call answers the stored set
    and changes nothing. *)
Theorem getProductionParametersByName_computes_once (node : Production) (this : Checker)
    (memo : Dictionary.t (Dictionary.t bool)) :
  productionParametersByName this = Some memo →
  Dictionary.has memo (Js.keyOfNumber (id (pr_info node))) = false →
  let names := parameterNames node in
  let this1 :=
    with_productionParametersByName this
      (Some (Dictionary.set memo (Js.keyOfNumber (id (pr_info node))) names)) in
  getProductionParametersByName node this = (Normal (Some names), this1)
  ∧ getProductionParametersByName node this1 = (Normal (Some names), this1)
  ∧ ∀ key, Dictionary.has names key = true
           ↔ key ≠ EmptyString ∧ ∃ parameter, parameter ∈ parametersOf node
                                     ∧ parameterText parameter = Some key.
Proof.
  intros Hmemo Hfresh names this1. split_and!.
  - unfold getProductionParametersByName; cbv zeta.
    rewrite bind_getThis, Hmemo. unfold deref. rewrite (bind_mret memo). by rewrite Hfresh.
  - unfold getProductionParametersByName; cbv zeta.
    rewrite bind_getThis. unfold this1 at 1. cbn [productionParametersByName
      with_productionParametersByName]. unfold deref. rewrite bind_mret.
    rewrite Dictionary_has_set, bool_decide_eq_true_2 by done. cbn [orb].
    rewrite Dictionary_get_set, decide_True by done. done.
  - intros key. apply collectParameterNames_has.
Qed.

(** ** The link id made from a link reference *)

Lemma hyphen_not_alphanumeric : isLowerAlphanumeric "-" = false.
Proof. reflexivity. Qed.

Lemma replaceRuns_characters (inRun : bool) (text : string) :
  Forall (λ c, isLowerAlphanumeric c = true ∨ c = "-"%char)
         (list_ascii_of_string (replaceRuns inRun text)).
Proof.
  revert inRun. induction text as [|c text IH]; intros inRun; simpl; [constructor|].
  destruct (isLowerAlphanumeric c) eqn:Hc; simpl.
  - constructor; [by left|apply IH].
  - destruct inRun; simpl; [apply IH|]. constructor; [by right|apply IH].
Qed.

Lemma replaceRuns_length (inRun : bool) (text : string) :
  (String.length (replaceRuns inRun text) <= String.length text)%nat.
Proof.
  revert inRun. induction text as [|c text IH]; intros inRun; simpl; [done|].
  destruct (isLowerAlphanumeric c); simpl.
  - specialize (IH false). lia.
  - destruct inRun; simpl; specialize (IH true); lia.
Qed.

(** After a replaced character the result does not start with a hyphen. *)
Lemma replaceRuns_in_run (text : string) :
  String.get 0 (replaceRuns true text) ≠ Some "-"%char.
Proof.
  induction text as [|c text IH]; simpl; [done|].
  destruct (isLowerAlphanumeric c) eqn:Hc; simpl; [|done].
  intros [= ->]. by rewrite hyphen_not_alphanumeric in Hc.
Qed.

Lemma replaceRuns_no_run (inRun : bool) (text : string) (i : nat) :
  String.get i (replaceRuns inRun text) = Some "-"%char →
  String.get (S i) (replaceRuns inRun text) ≠ Some "-"%char.
Proof.
  revert inRun i. induction text as [|c text IH]; intros inRun i; simpl; [done|].
  destruct (isLowerAlphanumeric c) eqn:Hc.
  - destruct i as [|i]; simpl.
    + intros [= ->]. by rewrite hyphen_not_alphanumeric in Hc.
    + apply IH.
  - destruct inRun; [apply IH|].
    destruct i as [|i]; simpl.
    + intros _. apply replaceRuns_in_run.
    + apply IH.
Qed.

Lemma replaceRuns_fixed (text : string) :
  Forall (λ c, isLowerAlphanumeric c = true) (list_ascii_of_string text) →
  ∀ inRun, replaceRuns inRun text = text.
Proof.
  induction text as [|c text IH]; simpl; [done|].
  intros [Hc Htext]%Forall_cons inRun. rewrite Hc. by rewrite IH.
Qed.

(** Replacing again changes nothing: the hyphens of the result stand alone,
    and a hyphen alone is replaced by a hyphen. *)
Lemma replaceRuns_idempotent (text : string) :
  (∀ inRun, inRun = true →
            replaceRuns true (replaceRuns inRun text) = replaceRuns inRun text)
  ∧ replaceRuns false (replaceRuns false text) = replaceRuns false text
  ∧ replaceRuns false (replaceRuns true text) = replaceRuns true text.
Proof.
  induction text as [|c text (IHtrue & IHfalse & IHmixed)]; simpl; [done|].
  destruct (isLowerAlphanumeric c) eqn:Hc; simpl; rewrite ?Hc.
  - split_and!; [intros ? _|..]; by rewrite IHfalse.
  - split_and!.
    + intros ? ->. by apply IHtrue.
    + simpl. f_equal. by apply IHtrue.
    + done.
Qed.

(** The link id made from a link reference with a text: it is made of
    lower-case letters, digits and hyphens, no two hyphens follow each
    other, it is not longer than the text, a text of lower-case letters and
    digits is its own link id, and the link id of a link id is itself.
    With the prefix it is preceded by the link id of the production and a
    hyphen. *)
Theorem getRightHandSideLinkId_of_a_reference (tokenText : SyntaxKind.t → option string)
    (isKeywordOrPunctuation : SyntaxKind.t → bool) (table : BindingTable.t)
    (node : RightHandSide) (reference : LinkReference) (text : string) :
  rhs_reference node = Some reference →
  lr_text reference = Some text →
  text ≠ EmptyString →
  let linkId := replaceNonAlphanumeric text in
  getRightHandSideLinkId tokenText isKeywordOrPunctuation table node false = Normal linkId
  ∧ Forall (λ c, isLowerAlphanumeric c = true ∨ c = "-"%char) (list_ascii_of_string linkId)
  ∧ (∀ i, String.get i linkId = Some "-"%char → String.get (S i) linkId ≠ Some "-"%char)
  ∧ (String.length linkId <= String.length text)%nat
  ∧ (Forall (λ c, isLowerAlphanumeric c = true) (list_ascii_of_string text) → linkId = text)
  ∧ replaceNonAlphanumeric linkId = linkId
  ∧ (∀ production,
       asProduction (BindingTable.getAncestor table (rhs_info node) SyntaxKind.Production)
       = Some production →
       getRightHandSideLinkId tokenText isKeywordOrPunctuation table node true
       = Normal (toStringValue (getProductionLinkId table (pr_name production))
                 +:+ "-" +:+ linkId)).
Proof.
  intros Hreference Htext Hnonempty linkId.
  assert (truthy (Some text) = true) as Htruthy by by destruct text.
  unfold getRightHandSideLinkId. rewrite Hreference, Htext, Htruthy. cbv zeta. simpl default.
  fold linkId. split_and!.
  - done.
  - apply replaceRuns_characters.
  - apply replaceRuns_no_run.
  - apply replaceRuns_length.
  - intros Hall. by apply replaceRuns_fixed.
  - apply replaceRuns_idempotent.
  - intros production ->. done.
Qed.

(** The link id of a right-hand side that has no link reference, or one
    whose text is empty or absent, is the identifier computed from its
    head: eight hexadecimal digits in lower case, which the conversion to
    lower case leaves as they are. *)
Theorem getRightHandSideLinkId_without_a_label (tokenText : SyntaxKind.t → option string)
    (isKeywordOrPunctuation : SyntaxKind.t → bool) (table : BindingTable.t)
    (node : RightHandSide) :
  truthy (rhs_reference node ≫= lr_text) = false →
  getRightHandSideLinkId tokenText isKeywordOrPunctuation table node false
  = (computeHash tokenText isKeywordOrPunctuation node newRightHandSideDigest).1
  ∧ ∀ linkId,
      getRightHandSideLinkId tokenText isKeywordOrPunctuation table node false = Normal linkId →
      String.length linkId = 8%nat
      ∧ Forall isLowerHex (list_ascii_of_string linkId).
Proof.
  intros Hlabel.
  assert (getRightHandSideLinkId tokenText isKeywordOrPunctuation table node false
          = (computeHash tokenText isKeywordOrPunctuation node newRightHandSideDigest).1)
    as Hrun.
  { unfold getRightHandSideLinkId.
    assert (∀ r : Completion string * RightHandSideDigest,
              (∀ hash, r.1 = Normal hash → toLowerCase hash = hash) →
              match match r with
                    | (Normal hash, _) => Normal (toLowerCase hash)
                    | (Throw e, _) => Throw e
                    end with
              | Normal linkId => Normal linkId
              | Throw e => Throw e
              end = r.1) as Hcase.
    { intros [[hash|e] digest] H; simpl; [|done]. by rewrite H. }
    assert (∀ hash,
              (computeHash tokenText isKeywordOrPunctuation node newRightHandSideDigest).1
              = Normal hash → toLowerCase hash = hash) as Hlower.
    { intros hash. rewrite computeHash_canonicalText.
      destruct (canonicalText _ _ _) as [text|]; [|done]. intros [= <-].
      apply toLowerCase_lower_hex, digestPrefix_shape. }
    destruct (rhs_reference node) as [reference|]; simpl in Hlabel.
    - rewrite Hlabel. cbv zeta. by apply Hcase.
    - cbv zeta. by apply Hcase. }
  split; [done|]. intros linkId. rewrite Hrun, computeHash_canonicalText.
  destruct (canonicalText _ _ _) as [text|]; [|done]. intros [= <-].
  apply digestPrefix_shape.
Qed.

(** ** The digest and the places of the nodes *)

Lemma deref_Some_bind {S A B} (a : A) (k : A → Stateful S B) : (deref (Some a) ≫= k) = k a.
Proof. reflexivity. Qed.

Lemma forIndexed_moved {S A} (g : A → A) (body : bool → A → Stateful S unit) (l : list A) :
  Forall (λ x, ∀ later, body later (g x) = body later x) l →
  forIndexed body (map g l) = forIndexed body l.
Proof.
  unfold forIndexed. generalize false. intros later Hall. revert later.
  induction Hall as [|x l Hx _ IH]; intros later; simpl; [done|].
  by rewrite Hx, IH.
Qed.

Lemma forOf_moved {S A} (g : A → A) (body : A → Stateful S unit) (l : list A) :
  (∀ x, body (g x) = body x) → forOf body (g <$> l) = forOf body l.
Proof.
  intros Hbody. induction l as [|x l IH]; [done|].
  rewrite fmap_cons, !forOf_cons. by rewrite Hbody, IH.
Qed.

Section MovedFacts.
Variable tokenText : SyntaxKind.t → option string.
Variable isKeywordOrPunctuation : SyntaxKind.t → bool.
Variable f : NodeInfo → NodeInfo.

Lemma writeTokenNode_moved (t : option Token) :
  writeTokenNode tokenText isKeywordOrPunctuation (movedToken f <$> t)
  = writeTokenNode tokenText isKeywordOrPunctuation t.
Proof. by destruct t. Qed.

Lemma writeIdentifier_moved (i : option Identifier) :
  writeIdentifier (movedIdentifier f <$> i) = writeIdentifier i.
Proof. by destruct i. Qed.

Lemma writeTerminal_moved (t : Terminal) :
  writeTerminal tokenText isKeywordOrPunctuation (movedTerminal f t)
  = writeTerminal tokenText isKeywordOrPunctuation t.
Proof. unfold writeTerminal; simpl. by rewrite writeTokenNode_moved. Qed.

Lemma writeUnicodeCharacterLiteral_moved (u : option UnicodeCharacterLiteral) :
  writeUnicodeCharacterLiteral tokenText isKeywordOrPunctuation
    (movedUnicodeCharacterLiteral f <$> u)
  = writeUnicodeCharacterLiteral tokenText isKeywordOrPunctuation u.
Proof. destruct u; [|done]. simpl. by rewrite writeTokenNode_moved. Qed.

Lemma writeArgument_moved (a : Argument) :
  writeArgument tokenText isKeywordOrPunctuation (movedArgument f a)
  = writeArgument tokenText isKeywordOrPunctuation a.
Proof. unfold writeArgument; simpl. by rewrite writeTokenNode_moved. Qed.

Lemma writeArgumentList_moved (l : option ArgumentList) :
  writeArgumentList tokenText isKeywordOrPunctuation (movedArgumentList f <$> l)
  = writeArgumentList tokenText isKeywordOrPunctuation l.
Proof.
  destruct l as [l|]; [|done]. unfold writeArgumentList. cbn [fmap option_fmap option_map].
  cbn [al_elements movedArgumentList].
  destruct (al_elements l) as [elements|]; [|done].
  cbn [fmap option_fmap option_map]. rewrite !deref_Some_bind.
  rewrite forIndexed_moved; [done|].
  apply Forall_forall. intros a _ later. by rewrite writeArgument_moved.
Qed.

Lemma writeNonterminal_moved (n : Nonterminal) :
  writeNonterminal tokenText isKeywordOrPunctuation (movedNonterminal f n)
  = writeNonterminal tokenText isKeywordOrPunctuation n.
Proof.
  unfold writeNonterminal; simpl.
  by rewrite writeIdentifier_moved, writeArgumentList_moved, writeTokenNode_moved.
Qed.

Lemma writeFragment_moved (fragment : ProseFragment) :
  writeFragment tokenText isKeywordOrPunctuation (movedProseFragment f fragment)
  = writeFragment tokenText isKeywordOrPunctuation fragment.
Proof.
  destruct fragment; simpl.
  - apply writeNonterminal_moved.
  - apply writeTerminal_moved.
  - done.
  - done.
Qed.

Lemma writeSymbol_moved (node : LexicalSymbol) :
  writeSymbol tokenText isKeywordOrPunctuation (movedSymbol f node)
  = writeSymbol tokenText isKeywordOrPunctuation node
with writeSymbolSpan_moved (node : SymbolSpan) :
  writeSymbolSpan tokenText isKeywordOrPunctuation (movedSymbolSpan f node)
  = writeSymbolSpan tokenText isKeywordOrPunctuation node.
Proof.
  - destruct node; cbn [movedSymbol writeSymbol].
    + apply writeTerminal_moved.
    + apply (writeUnicodeCharacterLiteral_moved (Some u)).
    + unfold writeUnicodeCharacterRange.
      by rewrite !writeUnicodeCharacterLiteral_moved, writeTokenNode_moved.
    + apply writeNonterminal_moved.
    + done.
    + done.
    + rewrite writeSymbol_moved, !writeTokenNode_moved.
      destruct right as [nodeRight|]; [|done]. by rewrite writeSymbol_moved.
    + destruct symbols as [symbols|]; [|done].
      rewrite forIndexed_moved; [done|].
      induction symbols as [|symbol symbols IH]; constructor; [|exact IH].
      intros later. by rewrite writeSymbol_moved.
    + unfold writeProse. rewrite forOf_moved; [done|]. apply writeFragment_moved.
    + done.
    + rewrite writeTokenNode_moved.
      destruct lookahead as [[info openBraceToken elements closeBraceToken|span]|]; [| |done].
      * destruct elements as [elements|]; [|done].
        rewrite forIndexed_moved; [done|].
        induction elements as [|element elements IH]; constructor; [|exact IH].
        intros later. by rewrite writeSymbolSpan_moved.
      * by rewrite writeSymbolSpan_moved.
    + unfold writeLexicalGoalAssertion. by rewrite writeIdentifier_moved.
    + destruct symbols as [symbols|]; [|done].
      rewrite forIndexed_moved; [done|].
      induction symbols as [|symbol symbols IH]; constructor; [|exact IH].
      intros later. by rewrite writeSymbol_moved.
    + unfold writeParameterValueAssertion.
      destruct operatorToken as [operatorToken|]; [|done].
      cbn [fmap option_fmap option_map]. rewrite !deref_Some_bind.
      by rewrite writeIdentifier_moved.
    + unfold writeProseAssertion. rewrite forOf_moved; [done|].
      intros fragment. rewrite writeFragment_moved. by destruct fragment.
    + unfold childrenOfInvalidAssertion. cbn [movedBrackets as_openBracketToken
        as_closeBracketToken]. rewrite !forOf_cons. by rewrite !writeTokenNode_moved.
  - destruct node as [info symbol next]. cbn [movedSymbolSpan writeSymbolSpan].
    destruct symbol as [symbol|], next as [next|];
      by rewrite ?writeSymbol_moved, ?writeSymbolSpan_moved.
Qed.

End MovedFacts.

(** The identifier computed for a right-hand side does not depend on where
    its nodes are, nor on their ids: the same symbols found at other
    offsets, after an edit of the text before them or in another file,
    get the same identifier, and the same link id without prefix. *)
Theorem computeHash_ignores_the_places (tokenText : SyntaxKind.t → option string)
    (isKeywordOrPunctuation : SyntaxKind.t → bool) (f : NodeInfo → NodeInfo)
    (node : RightHandSide) :
  computeHash tokenText isKeywordOrPunctuation (movedRightHandSide f node)
  = computeHash tokenText isKeywordOrPunctuation node
  ∧ canonicalText tokenText isKeywordOrPunctuation (movedSymbolSpan f (rhs_head node))
    = canonicalText tokenText isKeywordOrPunctuation (rhs_head node)
  ∧ ∀ table table',
      getRightHandSideLinkId tokenText isKeywordOrPunctuation table
        (movedRightHandSide f node) false
      = getRightHandSideLinkId tokenText isKeywordOrPunctuation table' node false.
Proof.
  assert (computeHash tokenText isKeywordOrPunctuation (movedRightHandSide f node)
          = computeHash tokenText isKeywordOrPunctuation node) as Hhash.
  { unfold computeHash. cbn [movedRightHandSide rhs_head]. by rewrite writeSymbolSpan_moved. }
  split_and!.
  - exact Hhash.
  - unfold canonicalText. by rewrite writeSymbolSpan_moved.
  - intros table table'. unfold getRightHandSideLinkId. rewrite Hhash.
    cbn [movedRightHandSide rhs_reference].
    by destruct (rhs_reference node) as [reference|].
Qed.

(** ** The properties on the example grammars *)

Import Examples.

(** directive.grammar is checked with one diagnostic, for the option that
    is not known; checking it again changes nothing. *)
Lemma checkSourceFile_twice_is_once_witness :
  checkSourceFile Directive.file Directive.checker = (Normal tt, afterDirective)
  ∧ messagesOf afterDirective
    = [mkRecord (Some "directive.grammar")
         (atIdentifier (name 7 51 64 "unknownOption")) Cannot_find_name_0_
         [ArgText (Some "unknownOption")]]
  ∧ checkSourceFile Directive.file afterDirective = (Normal tt, afterDirective).
Proof.
  assert (checkSourceFile Directive.file Directive.checker = (Normal tt, afterDirective))
    as Hfirst by (vm_compute; reflexivity).
  split; [exact Hfirst|]. split; [vm_compute; reflexivity|].
  exact (checkSourceFile_twice_is_once Directive.file Directive.checker afterDirective Hfirst).
Defined.

(** After directive.grammar was checked, and cancellation requested, the
    check of other.grammar is cancelled and the diagnostic of the first file
    is still there. *)
Lemma checkSourceFile_cancelled_witness :
  length (messagesOf (cancelled afterDirective)) = 1%nat
  ∧ checkSourceFile Directive.other (cancelled afterDirective)
    = (Throw CancelError, cancelled afterDirective).
Proof.
  split; [vm_compute; reflexivity|].
  apply (checkSourceFile_cancelled Directive.other (cancelled afterDirective));
    vm_compute; reflexivity.
Defined.

(** The directive of directive.grammar turns strict checking off while the
    file is checked, and the flag is back when the check returns. *)
Lemma checkSourceFile_restores_strictness_witness :
  noStrictParametricProductions
    (forOf preprocessSourceElement (elements Directive.file) Directive.checker).2 = true
  ∧ noStrictParametricProductions afterDirective
    = noStrictParametricProductions Directive.checker.
Proof.
  split; [vm_compute; reflexivity|].
  apply (checkSourceFile_restores_strictness Directive.file Directive.checker afterDirective).
  vm_compute; reflexivity.
Defined.

(** A memo that holds nothing yet. *)
Lemma memoized_new (p : Production) : memoized (Dictionary.new None) p.
Proof. intros names H. discriminate H. Qed.

(** For [P[x]] then [P[y]], the check of the second declaration reports
    [x] as missing at its name and [y] as missing at the first
    declaration. *)
Lemma checkProductionStrict_compares_with_first_witness :
  ∃ others memo',
    checkProductionStrict Declarations.second Declarations.checker
    = (Normal tt,
       with_productionParametersByName
         (addMessages Declarations.checker
            (others ++
             [mkRecord (Some "declarations.grammar")
                (atIdentifier (name 22 11 12 "P")) missingParameter
                [ArgText (Some "P"); ArgText (Some "x")];
              mkRecord (Some "declarations.grammar")
                (AtNode SyntaxKind.Production (node 1 0 10)) missingParameter
                [ArgText (Some "P"); ArgText (Some "y")]]))
         (Some memo'))
    ∧ Forall notMissingParameter others.
Proof.
  apply (checkProductionStrict_compares_with_first Declarations.second Declarations.first
           Declarations.checker Declarations.file (Dictionary.new None)).
  - reflexivity.
  - vm_compute; reflexivity.
  - vm_compute; reflexivity.
  - reflexivity.
  - reflexivity.
  - apply memoized_new.
  - apply memoized_new.
  - apply Forall_cons; split; [|apply Forall_nil_2].
    exists (name 26 13 14 "y"), Declarations.parameterY. split; vm_compute; reflexivity.
  - apply Forall_cons; split; [|apply Forall_nil_2]. eexists; reflexivity.
Defined.

(** For [P[x, x]] and [P] the parameter [x] is reported twice as missing
    from the second declaration, once for each time it is in the list. *)
Lemma checkProductionStrict_reports_each_occurrence :
  let missing :=
    mkRecord (Some "repeated.grammar") (atIdentifier (name 22 14 15 "P")) missingParameter
      [ArgText (Some "P"); ArgText (Some "x")] in
  (checkProductionStrict Repeated.second Repeated.checker).1 = Normal tt
  ∧ emitted (checkProductionStrict Repeated.second) Repeated.checker = [missing; missing]
  ∧ Dictionary.keys (parameterNames Repeated.first) = ["x"].
Proof. vm_compute. done. Qed.

(** For [Q[+a, +a]] against [Q[a, b]]: the second [a] is a duplicate and
    [b] has no argument. *)
Lemma checkNonterminalStrict_matches_arguments_witness :
  ∃ before after,
    messagesOf (checkNonterminalStrict Calls.duplicateA Calls.checker).2
    = messagesOf Calls.checker ++ before
      ++ [mkRecord (Some "calls.grammar") (atIdentifier (name 50 35 36 "a"))
            Argument_0_cannot_be_specified_multiple_times [ArgText (Some "a")]]
      ++ [mkRecord (Some "calls.grammar") (atIdentifier (name 42 28 29 "Q"))
            There_is_no_argument_given_for_parameter_0_ [ArgText (Some "b")]]
      ++ after
    ∧ Forall (λ r, otherMessage (dr_message r)) before
    ∧ Forall (λ r, otherMessage (dr_message r)) after.
Proof.
  apply (checkNonterminalStrict_matches_arguments Calls.duplicateA (name 42 28 29 "Q")
           Calls.symbolQ Calls.productionQ Calls.checker
           (checkIdentifier (name 42 28 29 "Q") Calls.checker).2).
  - reflexivity.
  - vm_compute; reflexivity.
  - vm_compute; reflexivity.
  - discriminate.
  - discriminate.
  - repeat (apply Forall_cons; split; [eexists; reflexivity|]). apply Forall_nil_2.
Defined.

(** For [Q[+z]] against [Q[a, b]] the argument [z] is reported twice as
    naming no parameter of [Q]: by the loop over the arguments, and by the
    check of the argument list. *)
Lemma checkNonterminalStrict_reports_unknown_argument_twice :
  let unknown :=
    mkRecord (Some "calls.grammar") (atIdentifier (name 67 45 46 "z"))
      Production_0_does_not_have_a_parameter_named_1_
      [ArgText (Some "Q"); ArgText (Some "z")] in
  (checkNonterminalStrict Calls.unknownZ Calls.checker).1 = Normal tt
  ∧ filter (hasMessage Production_0_does_not_have_a_parameter_named_1_)
      (emitted (checkNonterminalStrict Calls.unknownZ) Calls.checker)
    = [unknown; unknown].
Proof. vm_compute. done. Qed.

(** For [A :] the name ends at 1 and the colon at 3: the diagnostic is at
    4. *)
Lemma checkGrammarProduction_position_is_a_sum_witness :
  checkGrammarProduction withoutBody Calls.checker
  = (Normal true,
     addMessages Calls.checker
       [mkRecord (Some "calls.grammar") (AtPosition 4) _0_expected
          [formatList [SyntaxKind.OneOfList; SyntaxKind.RightHandSide]]])
  ∧ end_ (tk_info (token SyntaxKind.ColonToken 3 2 3)) = 3%Z.
Proof.
  split; [|reflexivity].
  apply (checkGrammarProduction_position_is_a_sum withoutBody
           (token SyntaxKind.ColonToken 3 2 3) Calls.checker);
    reflexivity.
Defined.

(** For [P : `a` #My Label]. *)
Lemma getRightHandSideLinkId_of_My_Label_witness :
  getRightHandSideLinkId tokenText isKeywordOrPunctuation
    Labelled.table Labelled.alternative false
  = Normal "-y-abel"
  ∧ getRightHandSideLinkId tokenText isKeywordOrPunctuation
      Labelled.table Labelled.alternative true
    = Normal "P--y-abel".
Proof.
  destruct (getRightHandSideLinkId_of_My_Label tokenText
              isKeywordOrPunctuation Labelled.table
              Labelled.alternative
              {| lr_info := node 7 8 17; lr_text := Some "My Label" |}
              eq_refl eq_refl) as [Hplain Hprefixed].
  split; [exact Hplain|].
  exact (Hprefixed Labelled.productionP eq_refl).
Defined.

(** For [one of `a` `b` `a`] the second [`a`] is reported, and nothing
    else. *)
Example checkOneOfList_of_a_b_a :
  checkOneOfList oneOfABA Calls.checker
  = (Normal tt,
     addMessages Calls.checker
       [mkRecord (Some "calls.grammar") (AtNode SyntaxKind.Terminal (node 6 15 18))
          Duplicate_terminal_0_ [ArgText (Some "a")]]).
Proof. vm_compute. reflexivity. Qed.

(** For a terminal without text followed by [`undefined`]: the first is
    validated, and reported for its missing text; the text of the second
    is that of no earlier terminal, and still the second is reported as a
    duplicate and not validated. *)
Lemma checkOneOfList_reports_undefined_after_no_text :
  (te_text (terminal 5 8 19 "undefined") ∉ te_text <$> [withoutText])
  ∧ checkOneOfList oneOfUndefined Calls.checker
    = (Normal tt,
       addMessages Calls.checker
         [mkRecord (Some "calls.grammar") (AtNode SyntaxKind.Terminal (node 4 7 7))
            _0_expected [tokenToString SyntaxKind.Terminal];
          mkRecord (Some "calls.grammar") (AtNode SyntaxKind.Terminal (node 5 8 19))
            Duplicate_terminal_0_ [ArgText (Some "undefined")]]).
Proof.
  split; [|vm_compute; reflexivity].
  intros [=]%list_elem_of_singleton.
Qed.


(** The right-hand side [`a`] is written as such, and its identifier is the
    start of the SHA-1 digest of that text. *)
Example computeHash_of_a_terminal :
  canonicalText tokenText isKeywordOrPunctuation (rhs_head Labelled.unlabelled)
  = Normal "`a`"
  ∧ (computeHash tokenText isKeywordOrPunctuation Labelled.unlabelled
       newRightHandSideDigest).1 = Normal "a61fcfde"
  ∧ getRightHandSideLinkId tokenText isKeywordOrPunctuation Labelled.table
      Labelled.unlabelled true = Normal "P-a61fcfde".
Proof. vm_compute. done. Qed.

(** The dictionary with [a] under [x] and [b] under [y], inverted twice and
    read under [x]. *)
Lemma Dictionary_invert_twice_witness :
  let dict := Dictionary.set (Dictionary.set (Dictionary.new None) "x" "a") "y" "b" in
  Dictionary.has (Dictionary.invert (λ text, text) (Dictionary.invert (λ text, text) dict)) "x"
  = Dictionary.has dict "x"
  ∧ Dictionary.get (Dictionary.invert (λ text, text) (Dictionary.invert (λ text, text) dict))
      "x"
    = Dictionary.get dict "x".
Proof.
  intros dict. apply (Dictionary_invert_twice dict "x").
  intros key1 key2 value H1 H2.
  apply Dictionary_get_Data in H1, H2. unfold dict in H1, H2.
  rewrite !Dictionary_set_props in H1, H2.
  change (Dictionary.props (Dictionary.new None)) with (∅ : gmap string string) in H1, H2.
  rewrite !lookup_insert_Some, lookup_empty in H1, H2.
  destruct H1 as [[<- <-]|[_ [[<- <-]|[_ [=]]]]];
    destruct H2 as [[<- [=]]|[_ [[<- [=]]|[_ [=]]]]]; reflexivity.
Defined.

(** The array [9, 1, 3, 3] is not sorted; the search for 3 still answers
    either an index at which 3 is found or the complement of an index. *)
Lemma binarySearch_answers_an_index_witness :
  ∃ result,
    binarySearch [9; 1; 3; 3]%Z 3 = Some result
    ∧ ((0 <= result)%Z → [9; 1; 3; 3]%Z !! Z.to_nat result = Some 3%Z)
    ∧ ((result < 0)%Z → (0 <= Z.lnot result <= Z.of_nat (length [9; 1; 3; 3]%Z))%Z).
Proof. apply (binarySearch_answers_an_index [9; 1; 3; 3]%Z 3). simpl. lia. Defined.

(** In the sorted array [1, 3, 5, 7, 9] the search for 4 answers the
    complement of 2, the place where 4 would go. *)
Lemma binarySearch_of_sorted_array_witness :
  binarySearch [1; 3; 5; 7; 9]%Z 4 = Some (Z.lnot 2)
  ∧ ∃ result,
      binarySearch [1; 3; 5; 7; 9]%Z 4 = Some result
      ∧ ((0 <= result)%Z ↔ 4%Z ∈ [1; 3; 5; 7; 9]%Z)
      ∧ ((result < 0)%Z →
         ∀ (i : nat) x, [1; 3; 5; 7; 9]%Z !! i = Some x →
                        if (Z.of_nat i <? Z.lnot result)%Z then (x < 4)%Z else (4 < x)%Z).
Proof.
  split; [vm_compute; reflexivity|].
  apply (binarySearch_of_sorted_array [1; 3; 5; 7; 9]%Z 4).
  - simpl. lia.
  - repeat (constructor; [|repeat (constructor; [lia|]); constructor]). constructor.
Defined.

(** The range from 0:0 to 2:0 and the range from 1:0 to 1:5 inside it. *)
Lemma Range_intersects_is_one_sided_witness :
  let outer := Range.create (Position.create 0 0) (Position.create 2 0) in
  let inner := Range.create (Position.create 1 0) (Position.create 1 5) in
  Range.intersects outer inner = true ∧ Range.intersects inner outer = false.
Proof.
  intros outer inner. apply (Range_intersects_is_one_sided inner outer).
  - right. simpl. lia.
  - vm_compute. reflexivity.
  - simpl. intros [=].
  - simpl. intros [=].
Defined.

(** The range from 1:0 to 1:5. *)
Lemma Range_collapse_gives_a_point_witness :
  let a := Range.create (Position.create 1 0) (Position.create 1 5) in
  Range.isCollapsed (Range.collapseToStart a) = true
  ∧ Range.isCollapsed (Range.collapseToEnd a) = true
  ∧ Range.contains a (Range.collapseToStart a) = true
  ∧ Range.contains a (Range.collapseToEnd a) = true
  ∧ (Range.isCollapsed a = true ↔ Range.start a = Range.end_ a).
Proof.
  intros a. apply (Range_collapse_gives_a_point a). right. simpl. lia.
Defined.

(** declarations.grammar checked with strict checking off: the two
    declarations of [P] have different parameters and nothing is reported. *)
Lemma checkSourceElement_without_the_strict_checks_witness :
  let this := with_noStrictParametricProductions Declarations.checker true in
  let this' := (forOf checkSourceElement (elements Declarations.file) this).2 in
  messagesOf this' = []
  ∧ noStrictParametricProductions this' = true
  ∧ ∃ records, messagesOf this' = messagesOf this ++ records
               ∧ Forall (λ record, ¬ strictOnly (dr_message record)) records.
Proof.
  intros this this'. split; [vm_compute; reflexivity|].
  apply (checkSourceElement_without_the_strict_checks (elements Declarations.file) this).
  reflexivity.
Defined.

(** For [P : `a` #My Label]. *)
Lemma getRightHandSideLinkId_of_a_reference_witness :
  let linkId := replaceNonAlphanumeric "My Label" in
  linkId = "-y-abel"
  ∧ getRightHandSideLinkId tokenText isKeywordOrPunctuation Labelled.table
      Labelled.alternative false = Normal linkId
  ∧ replaceNonAlphanumeric linkId = linkId.
Proof.
  intros linkId. split; [vm_compute; reflexivity|].
  destruct (getRightHandSideLinkId_of_a_reference tokenText isKeywordOrPunctuation
              Labelled.table Labelled.alternative
              {| lr_info := node 7 8 17; lr_text := Some "My Label" |} "My Label"
              eq_refl eq_refl ltac:(discriminate))
    as (Hplain & _ & _ & _ & _ & Hagain & _).
  split; [exact Hplain|exact Hagain].
Defined.

(** For [P : `a`], without link reference. *)
Lemma getRightHandSideLinkId_without_a_label_witness :
  getRightHandSideLinkId tokenText isKeywordOrPunctuation Labelled.table
    Labelled.unlabelled false = Normal "a61fcfde"
  ∧ getRightHandSideLinkId tokenText isKeywordOrPunctuation Labelled.table
      Labelled.unlabelled false
    = (computeHash tokenText isKeywordOrPunctuation Labelled.unlabelled
         newRightHandSideDigest).1.
Proof.
  split; [vm_compute; reflexivity|].
  apply (getRightHandSideLinkId_without_a_label tokenText isKeywordOrPunctuation
           Labelled.table Labelled.unlabelled).
  reflexivity.
Defined.

(** The names of the parameters of the second declaration of
    declarations.grammar, asked for twice. *)
Lemma getProductionParametersByName_computes_once_witness :
  let names := parameterNames Declarations.second in
  let this1 :=
    with_productionParametersByName Declarations.checker
      (Some (Dictionary.set (Dictionary.new None) "21" names)) in
  Dictionary.keys names = ["y"]
  ∧ getProductionParametersByName Declarations.second Declarations.checker
    = (Normal (Some names), this1)
  ∧ getProductionParametersByName Declarations.second this1 = (Normal (Some names), this1).
Proof.
  intros names this1. split; [vm_compute; reflexivity|].
  destruct (getProductionParametersByName_computes_once Declarations.second
              Declarations.checker (Dictionary.new None) eq_refl eq_refl)
    as (Hfirst & Hsecond & _).
  split; [exact Hfirst|exact Hsecond].
Defined.

(** The span after [`a`] in broken.grammar has no symbol. *)
Lemma checkSymbolSpan_without_symbol_throws_witness :
  let span := MkSymbolSpan (node 11 50 50) None None in
  (checkSymbolSpan span Broken.checker).1 = Throw TypeError
  ∧ (checkSymbolSpanRest span Broken.checker).1 = Throw TypeError.
Proof.
  intros span.
  destruct (checkSymbolSpan_without_symbol_throws span Broken.checker eq_refl)
    as [Hhead Hrest].
  split; [by rewrite Hhead|by rewrite Hrest].
Defined.

(** The check of broken.grammar ends in a [TypeError]; the checker is left
    with strict checking off, as the directive of the file has set it,
    though it was on before the call. *)
Lemma checkSourceFile_thrown_out_of_witness :
  let this' := (checkSourceFile Broken.file Broken.checker).2 in
  noStrictParametricProductions Broken.checker = false
  ∧ (checkSourceFile Broken.file Broken.checker).1 = Throw TypeError
  ∧ noStrictParametricProductions this' = true
  ∧ sourceFile this' = Some Broken.file.
Proof.
  intros this'.
  assert ((checkSourceFile Broken.file Broken.checker).1 = Throw TypeError) as Hthrow
    by (vm_compute; reflexivity).
  split; [reflexivity|]. split; [exact Hthrow|].
  exact (checkSourceFile_thrown_out_of Broken.file Broken.checker TypeError
           eq_refl eq_refl Hthrow).
Defined.
